(** * DIG.EXCAVATION: the simulation core, embedded and verified

    A shallow embedding of the turn-based engine of DIG.EXCAVATION
    ([systems/event_queue.py], [world/node.py], [systems/filesystem.py],
    [systems/resource_manager.py], [systems/artifact.py],
    [systems/daemon.py], [world/site_generator.py]).

    Conventions of the embedding:
    - Python [float] is Rocq's primitive binary64 [float]: the arithmetic and
      the comparisons are the IEEE 754 ones the interpreter executes.
    - Python [int] is [Z]; [str] is [string]; an [Enum] is an inductive type.
    - A [dict] is an association list in insertion order (the order Python
      iterates it in).
    - The module-level singleton [event_queue] is threaded explicitly: every
      operation of a system takes the queue and returns it.
    - An exception is a result [Raise e] returned together with the state at
      the point of the [raise]: mutations done before a raise stay visible. *)

From Stdlib Require Import Floats ZArith List Uint63.
From stdpp Require Import base option list strings pretty.

Set Warnings "-inexact-float".

(* ===================================================================== *)
(** * Part I: the embedding                                               *)
(* ===================================================================== *)

(** ** Python built-ins used by the source *)

Module Py.

Local Open Scope float_scope.

(** [max(a, b)] on two arguments keeps the first unless the second is
    strictly greater; [min(a, b)] keeps the first unless the second is
    strictly smaller (CPython's [min_max]). *)
Definition max (a b : float) : float := if a <? b then b else a.
Definition min (a b : float) : float := if b <? a then b else a.

(** [a >= b] and [a > b] on floats. *)
Definition geb (a b : float) : bool := b <=? a.
Definition gtb (a b : float) : bool := b <? a.

(** [round(x)] of a float: the nearest integer, ties to the even one;
    [ValueError] on a NaN and [OverflowError] on an infinity. *)
Inductive rounded : Type :=
| RoundInt (n : Z)
| RoundNaN
| RoundInf.

Definition half_even (m d : Z) : Z :=
  let q := (m / d)%Z in
  match (2 * (m mod d) ?= d)%Z with
  | Lt => q
  | Gt => (q + 1)%Z
  | Eq => if Z.even q then q else (q + 1)%Z
  end.

Definition round (x : float) : rounded :=
  match Prim2SF x with
  | S754_zero _ => RoundInt 0
  | S754_infinity _ => RoundInf
  | S754_nan => RoundNaN
  | S754_finite s m e =>
      let v := if (0 <=? e)%Z
               then (Z.pos m * 2 ^ e)%Z
               else half_even (Z.pos m) (2 ^ (- e)) in
      RoundInt (if s then (- v)%Z else v)
  end.

(** A rounding to one decimal, used to run the examples: the nearest tenth
    of the exact value, ties to the even one, as the nearest float. *)
Definition round_tenths (x : float) : float :=
  match Prim2SF x with
  | S754_finite s m e =>
      if (0 <=? e)%Z then x
      else
        let k := half_even (Z.pos m * 10) (2 ^ (- e)) in
        let r := of_uint63 (Uint63.of_Z k) / 10 in
        if s then - r else r
  | _ => x
  end.

(** [f"{i}"] and [f"{i:04d}"] for a non-negative [i]. *)
Definition str_int (i : nat) : string := pretty i.
Definition fmt_04d (i : nat) : string :=
  let s := pretty i in
  String.concat "" (replicate (4 - String.length s) "0"%string) +:+ s.

(** Values an event payload carries ([dict[str, Any]]). *)
Inductive value : Type :=
| VStr (s : string)
| VFloat (x : float)
| VInt (n : Z)
| VBool (b : bool)
| VNone.

(** A dict in insertion order: [d[k] = v] overwrites in place when the key
    is present and appends otherwise. *)
Section Dict.
Context {K V : Type} `{EqDecision K}.

Fixpoint get (d : list (K * V)) (k : K) : option V :=
  match d with
  | [] => None
  | (k', v) :: d' => if decide (k' = k) then Some v else get d' k
  end.

Fixpoint setitem (d : list (K * V)) (k : K) (v : V) : list (K * V) :=
  match d with
  | [] => [(k, v)]
  | (k', v') :: d' =>
      if decide (k' = k) then (k, v) :: d' else (k', v') :: setitem d' k v
  end.

Definition contains (d : list (K * V)) (k : K) : bool :=
  match get d k with Some _ => true | None => false end.

Definition values (d : list (K * V)) : list V := map snd d.
Definition keys (d : list (K * V)) : list K := map fst d.
End Dict.

End Py.

(** ** systems/event_queue.py *)

Module EventQueue.

Inductive EventType : Type :=
| COMMAND_ENTERED | SCAN_STARTED | SCAN_COMPLETE | CARVE_STARTED
| CARVE_COMPLETE | RECONSTRUCT_START | RECONSTRUCT_END
| NODE_REVEALED | NODE_CORRUPTED | ARTIFACT_FOUND
| DAEMON_SPOTTED | DAEMON_ALERT | DAEMON_PACIFIED
| RESOURCE_CHANGED | RESOURCE_DEPLETED
| LOG_ENTRY_ADDED
| TURN_ADVANCED | GAME_STATE_PUSH | GAME_STATE_POP | QUIT_REQUESTED.

#[global] Instance EventType_eq_dec : EqDecision EventType.
Proof. solve_decision. Defined.

Inductive Timing : Type := IMMEDIATE | DEFERRED.

Record Event : Type := mkEvent {
  type : EventType;
  payload : list (string * Py.value);
  timing : Timing;
  source : string
}.

(** A handler is a callable; the queue only ever compares handlers by
    identity, so a handler is modelled by its identity. *)
Definition Handler : Type := nat.

Record t : Type := mk {
  _pending : list Event;
  _deferred : list Event;
  _subscribers : list (EventType * list Handler);
  _turn : Z;
  _flushing : bool
}.

(** [EventQueue.__init__] *)
Definition init : t :=
  {| _pending := []; _deferred := []; _subscribers := [];
     _turn := 0; _flushing := false |}.

Definition set_pending (p : list Event) (q : t) : t :=
  {| _pending := p; _deferred := _deferred q;
     _subscribers := _subscribers q; _turn := _turn q;
     _flushing := _flushing q |}.
Definition set_deferred (d : list Event) (q : t) : t :=
  {| _pending := _pending q; _deferred := d;
     _subscribers := _subscribers q; _turn := _turn q;
     _flushing := _flushing q |}.
Definition set_subscribers (s : list (EventType * list Handler)) (q : t) : t :=
  {| _pending := _pending q; _deferred := _deferred q;
     _subscribers := s; _turn := _turn q; _flushing := _flushing q |}.
Definition set_turn (n : Z) (q : t) : t :=
  {| _pending := _pending q; _deferred := _deferred q;
     _subscribers := _subscribers q; _turn := n;
     _flushing := _flushing q |}.
Definition set_flushing (b : bool) (q : t) : t :=
  {| _pending := _pending q; _deferred := _deferred q;
     _subscribers := _subscribers q; _turn := _turn q; _flushing := b |}.

(** [self._subscribers[event_type]] on the [defaultdict(list)]: a missing
    key is created with an empty list. *)
Definition subscribers_getitem (ty : EventType) (q : t) : list Handler * t :=
  match Py.get (_subscribers q) ty with
  | Some hs => (hs, q)
  | None => ([], set_subscribers (Py.setitem (_subscribers q) ty []) q)
  end.

Definition handler_in (h : Handler) (hs : list Handler) : bool :=
  bool_decide (h ∈ hs).

(** [list.remove(x)]: drops the first occurrence; [None] stands for the
    [ValueError] raised when there is none. *)
Fixpoint list_remove (h : Handler) (hs : list Handler) : option (list Handler) :=
  match hs with
  | [] => None
  | h' :: hs' =>
      if decide (h' = h) then Some hs'
      else option_map (cons h') (list_remove h hs')
  end.

Definition subscribe (event_type : EventType) (handler : Handler) (q : t) : t :=
  let '(handlers, q1) := subscribers_getitem event_type q in
  if handler_in handler handlers then q1
  else set_subscribers
         (Py.setitem (_subscribers q1) event_type (handlers ++ [handler])) q1.

Definition unsubscribe (event_type : EventType) (handler : Handler) (q : t) : t :=
  let '(handlers, q1) := subscribers_getitem event_type q in
  match list_remove handler handlers with
  | Some handlers' =>
      set_subscribers (Py.setitem (_subscribers q1) event_type handlers') q1
  | None => q1
  end.

Definition unsubscribe_all (handler : Handler) (q : t) : t :=
  set_subscribers
    (map (fun '(ty, handlers) =>
            (ty, match list_remove handler handlers with
                 | Some handlers' => handlers'
                 | None => handlers
                 end))
         (_subscribers q)) q.

Definition post (event : Event) (q : t) : t :=
  match timing event with
  | DEFERRED => set_deferred (_deferred q ++ [event]) q
  | IMMEDIATE => set_pending (_pending q ++ [event]) q
  end.

Definition post_immediate (event_type : EventType)
    (payload : list (string * Py.value)) (source : string) (q : t) : t :=
  post {| type := event_type; payload := payload;
          timing := IMMEDIATE; source := source |} q.

Definition advance_turn (q : t) : t :=
  let q1 := set_turn (_turn q + 1)%Z q in
  let q2 := set_pending (_pending q1 ++ _deferred q1) q1 in
  let q3 := set_deferred [] q2 in
  post_immediate TURN_ADVANCED [("turn"%string, Py.VInt (_turn q3))]
                 "EventQueue" q3.

(** *** Handlers and [flush]

    What a handler does to the bus is a sequence of calls of its public
    operations.  The sequence may depend on the event, on the state of the
    bus when the handler is entered and on the state [H] of the rest of the
    program, which the handler may change.  A handler that raises is caught
    by [flush] ([except Exception]); the calls it made before raising are the
    sequence. *)
Inductive Call : Type :=
| CallPost (event : Event)
| CallSubscribe (event_type : EventType) (handler : Handler)
| CallUnsubscribe (event_type : EventType) (handler : Handler)
| CallUnsubscribeAll (handler : Handler)
| CallAdvanceTurn
| CallFlush.

Section Flush.
Context {H : Type}.
Variable body : Handler -> Event -> H -> t -> H * list Call.

(** One dispatch: [handler(event)] was called, and made these calls.  The
    list of the dispatches so far is a ghost field of the world: it records
    what [flush] did and is read by nothing. *)
Definition Dispatch : Type := (Event * Handler * list Call)%type.

Record World : Type := mkWorld {
  outside : H;
  queue : t;
  trace : list Dispatch
}.

Definition with_queue (f : t -> t) (w : World) : World :=
  {| outside := outside w; queue := f (queue w); trace := trace w |}.

Section Nested.
(** [flush_rec] is [self.flush] as a handler can call it. *)
Variable flush_rec : World -> option World.

Definition run_call (c : Call) (w : World) : option World :=
  match c with
  | CallPost e => Some (with_queue (post e) w)
  | CallSubscribe ty h => Some (with_queue (subscribe ty h) w)
  | CallUnsubscribe ty h => Some (with_queue (unsubscribe ty h) w)
  | CallUnsubscribeAll h => Some (with_queue (unsubscribe_all h) w)
  | CallAdvanceTurn => Some (with_queue advance_turn w)
  | CallFlush => flush_rec w
  end.

Fixpoint run_calls (cs : list Call) (w : World) : option World :=
  match cs with
  | [] => Some w
  | c :: cs' =>
      match run_call c w with
      | Some w' => run_calls cs' w'
      | None => None
      end
  end.

(** [handler(event)] inside the [try]. *)
Definition call_handler (h : Handler) (e : Event) (w : World) : option World :=
  let '(o, cs) := body h e (outside w) (queue w) in
  run_calls cs {| outside := o; queue := queue w;
                  trace := trace w ++ [(e, h, cs)] |}.

(** [for handler in handlers]: the list iterator holds an index [j]
    into the live list object, which is the list stored under
    [ty] in [_subscribers]. *)
Fixpoint for_handlers (fuel : nat) (ty : EventType) (e : Event)
    (j : nat) (w : World) : option World :=
  match fuel with
  | O => None
  | S fuel' =>
      match default [] (Py.get (_subscribers (queue w)) ty) !! j with
      | None => Some w
      | Some h =>
          match call_handler h e w with
          | Some w' => for_handlers fuel' ty e (S j) w'
          | None => None
          end
      end
  end.

(** [while i < len(self._pending)] *)
Fixpoint while_pending (fuel : nat) (i : nat) (w : World) : option World :=
  match fuel with
  | O => None
  | S fuel' =>
      match _pending (queue w) !! i with
      | None => Some w
      | Some event =>
          let handlers :=
            default [] (Py.get (_subscribers (queue w)) (type event)) in
          match handlers with
          | [] => while_pending fuel' (S i) w
          | _ :: _ =>
              match for_handlers fuel' (type event) event 0 w with
              | Some w' => while_pending fuel' (S i) w'
              | None => None
              end
          end
      end
  end.
End Nested.

(** [EventQueue.flush].  [None] only when [fuel] ran out. *)
Fixpoint flush (fuel : nat) (w : World) : option World :=
  if _flushing (queue w) then Some w
  else
    match fuel with
    | O => None
    | S fuel' =>
        match while_pending (flush fuel') fuel' 0
                (with_queue (set_flushing true) w) with
        | Some w' =>
            Some (with_queue
                    (fun q => set_flushing false (set_pending [] q)) w')
        | None => None
        end
    end.
End Flush.

End EventQueue.

(** ** Operations of a system: state, the shared queue, exceptions *)

Module Sys.

(** The exceptions the core raises.  A [FilesystemError] carries the site
    of the [raise]. *)
Inductive FsFault : Type :=
| RootNotDirectory
| NodeIdNotFound (node_id : string)
| AlreadyAtRoot
| NoSuchDirectory (name : string)
| NotVisible (name : string)
| NotADirectory (name : string)
| ScanNoTarget (name : string)
| CarveNoTarget (name : string)
| CarveNotVisible (name : string)
| CarveNotDebris (name : string).

Inductive Exc : Type :=
| ValueError
| OverflowError
| ZeroDivisionError
| IndexError
| SystemError
| FilesystemError (why : FsFault).

Inductive Result (A : Type) : Type :=
| Ok (a : A)
| Raise (e : Exc).
Arguments Ok {A} a.
Arguments Raise {A} e.

(** An operation of a system with state [S]: it runs against the state and
    the event queue and returns or raises, leaving both as they are at
    that point. *)
Definition M (S A : Type) : Type :=
  S -> EventQueue.t -> Result A * S * EventQueue.t.

Definition ret {S A} (a : A) : M S A := fun s q => (Ok a, s, q).
Definition raise {S A} (e : Exc) : M S A := fun s q => (Raise e, s, q).
Definition bind {S A B} (m : M S A) (k : A -> M S B) : M S B :=
  fun s q =>
    match m s q with
    | (Ok a, s', q') => k a s' q'
    | (Raise e, s', q') => (Raise e, s', q')
    end.
Definition get {S} : M S S := fun s q => (Ok s, s, q).
Definition gets {S A} (f : S -> A) : M S A := fun s q => (Ok (f s), s, q).
Definition modify {S} (f : S -> S) : M S unit := fun s q => (Ok tt, f s, q).

(** [event_queue.post_immediate(...)] *)
Definition post_immediate {S} (ty : EventQueue.EventType)
    (payload : list (string * Py.value)) (source : string) : M S unit :=
  fun s q => (Ok tt, s, EventQueue.post_immediate ty payload source q).

(** Running an operation of a component held in a field of [S]. *)
Definition zoom {S T A} (proj : S -> T) (inj : T -> S -> S) (m : M T A) : M S A :=
  fun s q => let '(r, t', q') := m (proj s) q in (r, inj t' s, q').

(** [for x in xs: body x] *)
Fixpoint for_each {S X} (xs : list X) (body : X -> M S unit) : M S unit :=
  match xs with
  | [] => ret tt
  | x :: xs' => bind (body x) (fun _ => for_each xs' body)
  end.

(** [for v in d.values(): body v], where [body] may mutate the object [v]. *)
Fixpoint for_values {K V} (body : M V unit) (d : list (K * V))
    (q : EventQueue.t) : Result unit * list (K * V) * EventQueue.t :=
  match d with
  | [] => (Ok tt, [], q)
  | (k, v) :: d' =>
      match body v q with
      | (Ok _, v', q') =>
          let '(r, d'', q'') := for_values body d' q' in
          (r, (k, v') :: d'', q'')
      | (Raise e, v', q') => (Raise e, (k, v') :: d', q')
      end
  end.

Definition when {S} (b : bool) (m : M S unit) : M S unit :=
  if b then m else ret tt.

End Sys.

Declare Scope sys_scope.
Delimit Scope sys_scope with sys.
Notation "x <- m ;; k" := (Sys.bind m (fun x => k))
  (at level 100, m at next level, right associativity) : sys_scope.
Notation "m ;;; k" := (Sys.bind m (fun _ => k))
  (at level 100, right associativity) : sys_scope.

(** ** systems/resource_manager.py *)

Module ResourceManager.
Import Sys.
Local Open Scope float_scope.
Local Open Scope sys_scope.

Inductive Resource : Type := POWER | MEMORY | ENERGY.

(** [resource.name] *)
Definition name (r : Resource) : string :=
  match r with
  | POWER => "POWER" | MEMORY => "MEMORY" | ENERGY => "ENERGY"
  end.

Record ResourceSlot : Type := mkSlot {
  current : float;
  maximum : float
}.

Definition is_depleted (s : ResourceSlot) : bool := current s <=? 0.0.

Definition ratio (s : ResourceSlot) : float :=
  if maximum s <=? 0
  then 0.0
  else Py.max 0.0 (Py.min 1.0 (current s / maximum s)).

(** [_slots] always holds exactly the three keys of [Resource]. *)
Record t : Type := mk {
  power_slot : ResourceSlot;
  memory_slot : ResourceSlot;
  energy_slot : ResourceSlot;
  _energy_drain : float
}.

(** [ResourceManager.__init__] *)
Definition init (power memory energy energy_drain : float) : t :=
  {| power_slot := mkSlot power power;
     memory_slot := mkSlot memory memory;
     energy_slot := mkSlot energy energy;
     _energy_drain := energy_drain |}.

(** [self._slots[resource]] *)
Definition slot (r : Resource) (rm : t) : ResourceSlot :=
  match r with
  | POWER => power_slot rm
  | MEMORY => memory_slot rm
  | ENERGY => energy_slot rm
  end.

Definition set_slot (r : Resource) (s : ResourceSlot) (rm : t) : t :=
  match r with
  | POWER => {| power_slot := s; memory_slot := memory_slot rm;
                energy_slot := energy_slot rm;
                _energy_drain := _energy_drain rm |}
  | MEMORY => {| power_slot := power_slot rm; memory_slot := s;
                 energy_slot := energy_slot rm;
                 _energy_drain := _energy_drain rm |}
  | ENERGY => {| power_slot := power_slot rm; memory_slot := memory_slot rm;
                 energy_slot := s; _energy_drain := _energy_drain rm |}
  end.

Definition can_afford (r : Resource) (amount : float) (rm : t) : bool :=
  Py.geb (current (slot r rm)) amount.

(** The payload of [RESOURCE_CHANGED] for the slot as it is now. *)
Definition changed_payload (r : Resource) (delta : float) (source : string)
    (s : ResourceSlot) : list (string * Py.value) :=
  [("resource"%string, Py.VStr (name r));
   ("delta"%string, Py.VFloat delta);
   ("current"%string, Py.VFloat (current s));
   ("maximum"%string, Py.VFloat (maximum s));
   ("ratio"%string, Py.VFloat (ratio s));
   ("source"%string, Py.VStr source)].

Definition _post_changed (r : Resource) (delta : float) (source : string)
    : M t unit :=
  s <- gets (slot r) ;;
  post_immediate EventQueue.RESOURCE_CHANGED
                 (changed_payload r delta source s) "ResourceManager".

Definition depleted_payload (r : Resource) (source : string)
    : list (string * Py.value) :=
  [("resource"%string, Py.VStr (name r));
   ("source"%string, Py.VStr source)].

Definition consume (r : Resource) (amount : float) (source : string)
    : M t bool :=
  if amount <? 0 then raise ValueError
  else
    s <- gets (slot r) ;;
    if current s <? amount then ret false
    else
      modify (set_slot r (mkSlot (current s - amount) (maximum s))) ;;;
      _post_changed r (- amount) source ;;;
      s' <- gets (slot r) ;;
      when (is_depleted s')
           (post_immediate EventQueue.RESOURCE_DEPLETED
                           (depleted_payload r source) "ResourceManager") ;;;
      ret true.

Definition restore (r : Resource) (amount : float) (source : string)
    : M t unit :=
  if amount <? 0 then raise ValueError
  else
    s <- gets (slot r) ;;
    let actual_gain := Py.min amount (maximum s - current s) in
    modify (set_slot r (mkSlot (current s + actual_gain) (maximum s))) ;;;
    when (Py.gtb actual_gain 0) (_post_changed r actual_gain source).

Definition set_maximum (r : Resource) (new_max : float) : M t unit :=
  if new_max <=? 0 then raise ValueError
  else
    s <- gets (slot r) ;;
    modify (set_slot r (mkSlot (current s) new_max)) ;;;
    s1 <- gets (slot r) ;;
    modify (set_slot r (mkSlot (Py.min (current s1) new_max) (maximum s1))) ;;;
    _post_changed r 0.0 "Upgrade".

Definition tick : M t unit :=
  drain <- gets _energy_drain ;;
  _ <- consume ENERGY drain "PassiveDrain" ;;
  ret tt.

End ResourceManager.

(** ** world/node.py *)

Module Node.
Local Open Scope float_scope.

Inductive NodeType : Type := DIRECTORY | FILE | DEBRIS.
Inductive NodeVisibility : Type := HIDDEN | DETECTED | REVEALED.

#[global] Instance NodeType_eq_dec : EqDecision NodeType.
Proof. solve_decision. Defined.
#[global] Instance NodeVisibility_eq_dec : EqDecision NodeVisibility.
Proof. solve_decision. Defined.

(** [visibility.name] *)
Definition visibility_name (v : NodeVisibility) : string :=
  match v with
  | HIDDEN => "HIDDEN" | DETECTED => "DETECTED" | REVEALED => "REVEALED"
  end.

Record t : Type := mk {
  name : string;
  node_type : NodeType;
  node_id : string;
  parent_id : option string;
  children_ids : list string;
  corruption : float;
  visibility : NodeVisibility;
  artifact_id : option string;
  metadata : list (string * Py.value)
}.

Definition set_node_type (ty : NodeType) (n : t) : t :=
  mk (name n) ty (node_id n) (parent_id n) (children_ids n)
     (corruption n) (visibility n) (artifact_id n) (metadata n).
Definition set_children_ids (cs : list string) (n : t) : t :=
  mk (name n) (node_type n) (node_id n) (parent_id n) cs
     (corruption n) (visibility n) (artifact_id n) (metadata n).
Definition set_corruption (c : float) (n : t) : t :=
  mk (name n) (node_type n) (node_id n) (parent_id n) (children_ids n)
     c (visibility n) (artifact_id n) (metadata n).
Definition set_visibility (v : NodeVisibility) (n : t) : t :=
  mk (name n) (node_type n) (node_id n) (parent_id n) (children_ids n)
     (corruption n) v (artifact_id n) (metadata n).
Definition set_artifact_id (a : option string) (n : t) : t :=
  mk (name n) (node_type n) (node_id n) (parent_id n) (children_ids n)
     (corruption n) (visibility n) a (metadata n).
Definition set_metadata (m : list (string * Py.value)) (n : t) : t :=
  mk (name n) (node_type n) (node_id n) (parent_id n) (children_ids n)
     (corruption n) (visibility n) (artifact_id n) m.

Definition is_root (n : t) : bool :=
  match parent_id n with None => true | Some _ => false end.
Definition is_directory (n : t) : bool :=
  bool_decide (node_type n = DIRECTORY).
Definition is_file (n : t) : bool := bool_decide (node_type n = FILE).
Definition is_debris (n : t) : bool := bool_decide (node_type n = DEBRIS).
Definition is_fully_corrupted (n : t) : bool := Py.geb (corruption n) 1.0.
Definition has_artifact (n : t) : bool :=
  match artifact_id n with Some _ => true | None => false end.

(** [add_child]: [None] is the [ValueError] of a non-directory. *)
Definition add_child (child_id : string) (n : t) : option t :=
  if negb (is_directory n) then None
  else if bool_decide (child_id ∈ children_ids n) then Some n
  else Some (set_children_ids (children_ids n ++ [child_id]) n).

Fixpoint remove_first (x : string) (l : list string) : list string :=
  match l with
  | [] => []
  | y :: l' => if decide (y = x) then l' else y :: remove_first x l'
  end.

Definition remove_child (child_id : string) (n : t) : t :=
  set_children_ids (remove_first child_id (children_ids n)) n.

Definition apply_corruption (delta : float) (n : t) : t :=
  set_corruption (Py.max 0.0 (Py.min 1.0 (corruption n + delta))) n.

End Node.

(** ** systems/filesystem.py *)

Module Filesystem.
Import Sys.
Local Open Scope float_scope.
Local Open Scope sys_scope.

Definition _CORRUPTION_TICK : float := 0.02.
Definition _CARVE_FAIL_THRESHOLD : float := 0.8.

(** The registry maps a node id to a node object.  Every object is
    registered under one key, so an entry of the association list {e is}
    the object and mutating a node is rewriting its entry. *)
Record t : Type := mk {
  _nodes : list (string * Node.t);
  _root_id : string;
  _cwd_id : string
}.

Definition set_nodes (ns : list (string * Node.t)) (fs : t) : t :=
  {| _nodes := ns; _root_id := _root_id fs; _cwd_id := _cwd_id fs |}.
Definition set_cwd_id (i : string) (fs : t) : t :=
  {| _nodes := _nodes fs; _root_id := _root_id fs; _cwd_id := i |}.

(** [Filesystem.__init__] *)
Definition init (root : Node.t) (nodes : list (string * Node.t)) : Result t :=
  if negb (Node.is_directory root)
  then Raise (FilesystemError RootNotDirectory)
  else Ok {| _nodes := nodes; _root_id := Node.node_id root;
             _cwd_id := Node.node_id root |}.

(** Mutating the object registered under [key]. *)
Fixpoint alter_node (f : Node.t -> Node.t) (key : string)
    (ns : list (string * Node.t)) : list (string * Node.t) :=
  match ns with
  | [] => []
  | (k, n) :: ns' =>
      if decide (k = key) then (k, f n) :: ns'
      else (k, n) :: alter_node f key ns'
  end.

Definition mutate (key : string) (f : Node.t -> Node.t) : M t unit :=
  modify (fun fs => set_nodes (alter_node f key (_nodes fs)) fs).

Definition _node (node_id : string) : M t Node.t :=
  ns <- gets _nodes ;;
  match Py.get ns node_id with
  | Some n => ret n
  | None => raise (FilesystemError (NodeIdNotFound node_id))
  end.

(** [_child_by_name]: the first child registered and named [name]; the
    result is the object, given by the key it was looked up under. *)
Fixpoint child_by_name_in (ns : list (string * Node.t)) (name : string)
    (cids : list string) : option (string * Node.t) :=
  match cids with
  | [] => None
  | cid :: cids' =>
      match Py.get ns cid with
      | Some child =>
          if decide (Node.name child = name) then Some (cid, child)
          else child_by_name_in ns name cids'
      | None => child_by_name_in ns name cids'
      end
  end.

Definition _child_by_name (name : string) (parent : Node.t)
    : M t (option (string * Node.t)) :=
  ns <- gets _nodes ;;
  ret (child_by_name_in ns name (Node.children_ids parent)).

Definition cwd : M t Node.t := i <- gets _cwd_id ;; _node i.
Definition root : M t Node.t := i <- gets _root_id ;; _node i.

Definition change_directory (name : string) : M t Node.t :=
  cwd_node <- cwd ;;
  target <-
    (if decide (name = "..")
     then
       match Node.parent_id cwd_node with
       | None => raise (FilesystemError AlreadyAtRoot)
       | Some pid => _node pid
       end
     else
       found <- _child_by_name name cwd_node ;;
       match found with
       | None => raise (FilesystemError (NoSuchDirectory name))
       | Some (_, target) =>
           if decide (Node.visibility target = Node.HIDDEN)
           then raise (FilesystemError (NotVisible name))
           else if negb (Node.is_directory target)
           then raise (FilesystemError (NotADirectory name))
           else ret target
       end) ;;
  modify (set_cwd_id (Node.node_id target)) ;;;
  ret target.

Definition list_directory (include_hidden : bool) : M t (list Node.t) :=
  cwd_node <- cwd ;;
  ns <- gets _nodes ;;
  ret (omap (fun cid =>
               match Py.get ns cid with
               | None => None
               | Some node =>
                   if include_hidden
                      || negb (bool_decide (Node.visibility node = Node.HIDDEN))
                   then Some node else None
               end)
            (Node.children_ids cwd_node)).

Definition revealed_payload (target : Node.t) : list (string * Py.value) :=
  [("node_id"%string, Py.VStr (Node.node_id target));
   ("name"%string, Py.VStr (Node.name target));
   ("visibility"%string,
    Py.VStr (Node.visibility_name (Node.visibility target)))].

Definition artifact_found_payload (target : Node.t)
    : list (string * Py.value) :=
  [("node_id"%string, Py.VStr (Node.node_id target));
   ("artifact_id"%string,
    match Node.artifact_id target with
    | Some a => Py.VStr a
    | None => Py.VNone
    end);
   ("name"%string, Py.VStr (Node.name target))].

Definition scan_complete_payload (target : Node.t)
    : list (string * Py.value) :=
  [("node_id"%string, Py.VStr (Node.node_id target));
   ("name"%string, Py.VStr (Node.name target));
   ("success"%string, Py.VBool true)].

(** The step SCAN makes on a visibility. *)
Definition scan_step (v : Node.NodeVisibility) : Node.NodeVisibility :=
  match v with
  | Node.HIDDEN => Node.DETECTED
  | Node.DETECTED => Node.REVEALED
  | Node.REVEALED => Node.REVEALED
  end.

Definition scan (name : string) : M t Node.t :=
  cwd_node <- cwd ;;
  found <- _child_by_name name cwd_node ;;
  match found with
  | None => raise (FilesystemError (ScanNoTarget name))
  | Some (key, target0) =>
      let previous := Node.visibility target0 in
      match Node.visibility target0 with
      | Node.HIDDEN => mutate key (Node.set_visibility Node.DETECTED)
      | Node.DETECTED => mutate key (Node.set_visibility Node.REVEALED)
      | Node.REVEALED => ret tt
      end ;;;
      let target :=
        Node.set_visibility (scan_step (Node.visibility target0)) target0 in
      when (negb (bool_decide (Node.visibility target = previous)))
           (post_immediate EventQueue.NODE_REVEALED
                           (revealed_payload target) "Filesystem") ;;;
      when (bool_decide (Node.visibility target = Node.REVEALED)
            && Node.is_file target && Node.has_artifact target)
           (post_immediate EventQueue.ARTIFACT_FOUND
                           (artifact_found_payload target) "Filesystem") ;;;
      post_immediate EventQueue.SCAN_COMPLETE
                     (scan_complete_payload target) "Filesystem" ;;;
      ret target
  end.

Definition carve_payload (target : Node.t) (success : bool)
    : list (string * Py.value) :=
  [("node_id"%string, Py.VStr (Node.node_id target));
   ("name"%string, Py.VStr (Node.name target));
   ("success"%string, Py.VBool success)]
  ++ (if success then []
      else [("reason"%string, Py.VStr "corruption_too_high")]).

Definition carve (name : string) : M t Node.t :=
  cwd_node <- cwd ;;
  found <- _child_by_name name cwd_node ;;
  match found with
  | None => raise (FilesystemError (CarveNoTarget name))
  | Some (key, target0) =>
      if decide (Node.visibility target0 = Node.HIDDEN)
      then raise (FilesystemError (CarveNotVisible name))
      else if negb (Node.is_debris target0)
      then raise (FilesystemError (CarveNotDebris name))
      else if Py.geb (Node.corruption target0) _CARVE_FAIL_THRESHOLD
      then
        post_immediate EventQueue.CARVE_COMPLETE
                       (carve_payload target0 false) "Filesystem" ;;;
        ret target0
      else
        mutate key (fun n => Node.set_visibility Node.REVEALED
                               (Node.set_node_type Node.FILE n)) ;;;
        let target := Node.set_visibility Node.REVEALED
                        (Node.set_node_type Node.FILE target0) in
        post_immediate EventQueue.CARVE_COMPLETE
                       (carve_payload target true) "Filesystem" ;;;
        ret target
  end.

(** [for t in thresholds: if before < t <= after: ...; break] *)
Definition thresholds : list float := [0.25; 0.50; 0.75; 1.0].

Fixpoint first_crossed (ts : list float) (before after : float)
    : option float :=
  match ts with
  | [] => None
  | t :: ts' =>
      if (before <? t) && (t <=? after) then Some t
      else first_crossed ts' before after
  end.

Definition corrupted_payload (node : Node.t) (after t : float)
    : list (string * Py.value) :=
  [("node_id"%string, Py.VStr (Node.node_id node));
   ("name"%string, Py.VStr (Node.name node));
   ("corruption"%string, Py.VFloat after);
   ("threshold"%string, Py.VFloat t)].

(** The body of the loop of [tick], run on one node object. *)
Definition tick_node : M Node.t unit :=
  node <- get ;;
  if decide (Node.visibility node = Node.HIDDEN) then ret tt
  else
    let before := Node.corruption node in
    modify (Node.apply_corruption _CORRUPTION_TICK) ;;;
    node' <- get ;;
    let after := Node.corruption node' in
    match first_crossed thresholds before after with
    | Some t =>
        post_immediate EventQueue.NODE_CORRUPTED
                       (corrupted_payload node' after t) "Filesystem"
    | None => ret tt
    end.

(** [for node in self._nodes.values(): ...] *)
Definition tick : M t unit :=
  zoom _nodes set_nodes (for_values tick_node).

Definition get_node (node_id : string) (fs : t) : option Node.t :=
  Py.get (_nodes fs) node_id.
Definition all_nodes (fs : t) : list Node.t := Py.values (_nodes fs).

End Filesystem.

(** ** systems/artifact.py *)

Module Artifact.
Local Open Scope float_scope.

Inductive ArtifactState : Type := UNDISCOVERED | FOUND | COLLECTED | SOLD.
Inductive ArtifactRarity : Type := COMMON | UNCOMMON | RARE | LEGENDARY.

#[global] Instance ArtifactState_eq_dec : EqDecision ArtifactState.
Proof. solve_decision. Defined.

Definition value_multiplier (r : ArtifactRarity) : float :=
  match r with
  | COMMON => 1.0
  | UNCOMMON => 2.5
  | RARE => 6.0
  | LEGENDARY => 15.0
  end.

Record t : Type := mk {
  artifact_id : string;
  name : string;
  description : string;
  node_id : string;
  rarity : ArtifactRarity;
  state : ArtifactState;
  condition : float;
  sell_value : float;
  metadata : list (string * Py.value)
}.

(** [MEMORY_COST] is a dataclass field with [init=False] and the default
    [10.0]; nothing assigns it, so every artifact carries this value. *)
Definition MEMORY_COST : float := 10.0.

Definition set_state (s : ArtifactState) (a : t) : t :=
  mk (artifact_id a) (name a) (description a) (node_id a) (rarity a)
     s (condition a) (sell_value a) (metadata a).
Definition set_condition (c : float) (a : t) : t :=
  mk (artifact_id a) (name a) (description a) (node_id a) (rarity a)
     (state a) c (sell_value a) (metadata a).
Definition set_sell_value (v : float) (a : t) : t :=
  mk (artifact_id a) (name a) (description a) (node_id a) (rarity a)
     (state a) (condition a) v (metadata a).

End Artifact.

Module ArtifactSystem.
Import Sys.
Local Open Scope float_scope.
Local Open Scope sys_scope.

Definition _BASE_VALUE : float := 50.0.

Record t : Type := mk {
  _rm : ResourceManager.t;
  _artifacts : list (string * Artifact.t);
  _currency : float
}.

(** [ArtifactSystem.__init__] *)
Definition init (resource_manager : ResourceManager.t) : t :=
  {| _rm := resource_manager; _artifacts := []; _currency := 0.0 |}.

Definition set_rm (rm : ResourceManager.t) (s : t) : t :=
  {| _rm := rm; _artifacts := _artifacts s; _currency := _currency s |}.
Definition set_artifacts (a : list (string * Artifact.t)) (s : t) : t :=
  {| _rm := _rm s; _artifacts := a; _currency := _currency s |}.
Definition set_currency (c : float) (s : t) : t :=
  {| _rm := _rm s; _artifacts := _artifacts s; _currency := c |}.

(** Mutating the artifact object registered under [key]. *)
Fixpoint alter_artifact (f : Artifact.t -> Artifact.t) (key : string)
    (d : list (string * Artifact.t)) : list (string * Artifact.t) :=
  match d with
  | [] => []
  | (k, a) :: d' =>
      if decide (k = key) then (k, f a) :: d'
      else (k, a) :: alter_artifact f key d'
  end.

Definition mutate (key : string) (f : Artifact.t -> Artifact.t) : M t unit :=
  modify (fun s => set_artifacts (alter_artifact f key (_artifacts s)) s).

Definition register (artifact : Artifact.t) : M t unit :=
  d <- gets _artifacts ;;
  if Py.contains d (Artifact.artifact_id artifact) then ret tt
  else modify (set_artifacts
                 (Py.setitem d (Artifact.artifact_id artifact) artifact)).

Definition mark_found (artifact_id : string) : M t (option Artifact.t) :=
  d <- gets _artifacts ;;
  match Py.get d artifact_id with
  | None => ret None
  | Some artifact =>
      if negb (bool_decide (Artifact.state artifact = Artifact.UNDISCOVERED))
      then ret (Some artifact)
      else
        mutate artifact_id (Artifact.set_state Artifact.FOUND) ;;;
        ret (Some (Artifact.set_state Artifact.FOUND artifact))
  end.

Section Round.
(** The built-in [round(x, 1)]. *)
Variable round1 : float -> float.

Definition _compute_value (artifact : Artifact.t) : float :=
  round1 (_BASE_VALUE
          * Artifact.value_multiplier (Artifact.rarity artifact)
          * Artifact.condition artifact).

Definition collect_failed_payload (artifact_id : string)
    : list (string * Py.value) :=
  [("artifact_id"%string, Py.VStr artifact_id);
   ("success"%string, Py.VBool false);
   ("reason"%string, Py.VStr "insufficient_memory")].

Definition collect_ok_payload (artifact_id : string) (a : Artifact.t)
    : list (string * Py.value) :=
  [("artifact_id"%string, Py.VStr artifact_id);
   ("success"%string, Py.VBool true);
   ("condition"%string, Py.VFloat (Artifact.condition a));
   ("sell_value"%string, Py.VFloat (Artifact.sell_value a));
   ("name"%string, Py.VStr (Artifact.name a))].

(** What [collect] writes into the artifact on success. *)
Definition collected (node_corruption : float) (a : Artifact.t)
    : Artifact.t :=
  let a1 := Artifact.set_condition
              (Py.max 0.01 (1.0 - node_corruption)) a in
  let a2 := Artifact.set_sell_value (_compute_value a1) a1 in
  Artifact.set_state Artifact.COLLECTED a2.

Definition collect (artifact_id : string) (node_corruption : float)
    : M t bool :=
  d <- gets _artifacts ;;
  match Py.get d artifact_id with
  | None => ret false
  | Some artifact =>
      if negb (bool_decide (Artifact.state artifact = Artifact.FOUND))
      then ret false
      else
        ok <- zoom _rm set_rm
                (ResourceManager.consume ResourceManager.MEMORY
                   Artifact.MEMORY_COST "ArtifactSystem") ;;
        if negb ok
        then
          post_immediate EventQueue.RECONSTRUCT_END
                         (collect_failed_payload artifact_id)
                         "ArtifactSystem" ;;;
          ret false
        else
          mutate artifact_id (collected node_corruption) ;;;
          post_immediate EventQueue.RECONSTRUCT_END
                         (collect_ok_payload artifact_id
                            (collected node_corruption artifact))
                         "ArtifactSystem" ;;;
          ret true
  end.
End Round.

Definition sold_payload (artifact_id : string) (a : Artifact.t)
    (earned : float) : list (string * Py.value) :=
  [("artifact_id"%string, Py.VStr artifact_id);
   ("name"%string, Py.VStr (Artifact.name a));
   ("earned"%string, Py.VFloat earned);
   ("description"%string, Py.VStr (Artifact.description a))].

(** What [sell] writes into the artifact. *)
Definition sold (a : Artifact.t) : Artifact.t :=
  Artifact.set_sell_value 0.0 (Artifact.set_state Artifact.SOLD a).

Definition sell (artifact_id : string) : M t float :=
  d <- gets _artifacts ;;
  match Py.get d artifact_id with
  | None => ret 0.0
  | Some artifact =>
      if negb (bool_decide (Artifact.state artifact = Artifact.COLLECTED))
      then ret 0.0
      else
        let earned := Artifact.sell_value artifact in
        mutate artifact_id sold ;;;
        modify (fun s => set_currency (_currency s + earned) s) ;;;
        zoom _rm set_rm
          (ResourceManager.restore ResourceManager.MEMORY
             Artifact.MEMORY_COST "ArtifactSystem") ;;;
        post_immediate EventQueue.LOG_ENTRY_ADDED
                       (sold_payload artifact_id artifact earned)
                       "ArtifactSystem" ;;;
        ret earned
  end.

Definition currency (s : t) : float := _currency s.
Definition get (artifact_id : string) (s : t) : option Artifact.t :=
  Py.get (_artifacts s) artifact_id.

End ArtifactSystem.

(** ** The standard module [random]

    [random.Random] is the interpreter's generator, not code of the
    repository: it is an interface here.  A generator has a state, is
    seeded from an integer and draws from its state; [shuffle], [uniform]
    and [choice] are the library's definitions on top of the draws. *)

Module Random.

Record Impl : Type := mkImpl {
  state : Type;
  seed : Z -> state;
  random : state -> float * state;
  gauss : float -> float -> state -> float * state;
  _randbelow : nat -> state -> nat * state
}.

Section Library.
Context (R : Impl).
Local Open Scope float_scope.

(** [uniform(a, b)] is [a + (b - a) * self.random()]. *)
Definition uniform (a b : float) (s : state R) : float * state R :=
  let '(u, s') := random R s in (a + (b - a) * u, s').

(** [choice(seq)] is [seq[self._randbelow(len(seq))]]; [None] is its
    [IndexError]. *)
Definition choice {A} (seq : list A) (s : state R) : option A * state R :=
  let '(k, s') := _randbelow R (length seq) s in (seq !! k, s').

Definition swap {A} (i j : nat) (x : list A) : list A :=
  match x !! i, x !! j with
  | Some xi, Some xj => <[j := xi]> (<[i := xj]> x)
  | _, _ => x
  end.

(** [shuffle(x)]:
    [for i in reversed(range(1, len(x))): j = randbelow(i + 1); swap]. *)
Fixpoint shuffle_from {A} (i : nat) (x : list A) (s : state R)
    : list A * state R :=
  match i with
  | O => (x, s)
  | S i' =>
      let '(j, s') := _randbelow R (S i) s in
      shuffle_from i' (swap i j x) s'
  end.

Definition shuffle {A} (x : list A) (s : state R) : list A * state R :=
  shuffle_from (length x - 1) x s.
End Library.

End Random.

(** ** systems/daemon.py *)

Module Daemon.

Inductive DaemonPersonality : Type := AGGRESSIVE | PARANOID | SLEEPY.
Inductive AlertState : Type := IDLE | SUSPICIOUS | ALERT.

#[global] Instance DaemonPersonality_eq_dec : EqDecision DaemonPersonality.
Proof. solve_decision. Defined.
#[global] Instance AlertState_eq_dec : EqDecision AlertState.
Proof. solve_decision. Defined.

Record t : Type := mk {
  name : string;
  personality : DaemonPersonality;
  node_id : string;
  detection_radius : Z;
  alert_state : AlertState;
  alert_level : float;
  move_cooldown : Z;
  turns_since_move : Z;
  pacified : bool;
  daemon_id : string
}.

(** The two thresholds are dataclass fields with [init=False] and a default
    that nothing assigns. *)
Definition _SUSPICIOUS_THRESHOLD : float := 0.4.
Definition _ALERT_THRESHOLD : float := 0.75.

Definition set_node_id (i : string) (d : t) : t :=
  mk (name d) (personality d) i (detection_radius d) (alert_state d)
     (alert_level d) (move_cooldown d) (turns_since_move d) (pacified d)
     (daemon_id d).
Definition set_detection_radius (r : Z) (d : t) : t :=
  mk (name d) (personality d) (node_id d) r (alert_state d)
     (alert_level d) (move_cooldown d) (turns_since_move d) (pacified d)
     (daemon_id d).
Definition set_alert_state (a : AlertState) (d : t) : t :=
  mk (name d) (personality d) (node_id d) (detection_radius d) a
     (alert_level d) (move_cooldown d) (turns_since_move d) (pacified d)
     (daemon_id d).
Definition set_alert_level (l : float) (d : t) : t :=
  mk (name d) (personality d) (node_id d) (detection_radius d)
     (alert_state d) l (move_cooldown d) (turns_since_move d) (pacified d)
     (daemon_id d).
Definition set_move_cooldown (c : Z) (d : t) : t :=
  mk (name d) (personality d) (node_id d) (detection_radius d)
     (alert_state d) (alert_level d) c (turns_since_move d) (pacified d)
     (daemon_id d).
Definition set_turns_since_move (n : Z) (d : t) : t :=
  mk (name d) (personality d) (node_id d) (detection_radius d)
     (alert_state d) (alert_level d) (move_cooldown d) n (pacified d)
     (daemon_id d).
Definition set_pacified (b : bool) (d : t) : t :=
  mk (name d) (personality d) (node_id d) (detection_radius d)
     (alert_state d) (alert_level d) (move_cooldown d) (turns_since_move d)
     b (daemon_id d).

End Daemon.

Module DaemonSystem.
Import Sys.
Local Open Scope float_scope.
Local Open Scope sys_scope.

Definition _ALERT_GAIN_NEAR : float := 0.2.
Definition _ALERT_GAIN_NOISE : float := 0.1.
Definition _ALERT_DECAY : float := 0.05.
Definition _CONTACT_DRAIN : float := 10.0.
Definition _DAEMON_CORRUPTION : float := 0.05.

Section WithRandom.
Context (R : Random.Impl).

(** [_nodes] is the registry of the filesystem; [_daemons] maps a daemon id
    to a daemon object.  A daemon object is referred to by its position in
    [_daemons]. *)
Record t : Type := mk {
  _rm : ResourceManager.t;
  _nodes : list (string * Node.t);
  _daemons : list (string * Daemon.t);
  _rng : Random.state R
}.

(** [DaemonSystem.__init__] *)
Definition init (resource_manager : ResourceManager.t)
    (nodes : list (string * Node.t)) (rng_seed : Z) : t :=
  {| _rm := resource_manager; _nodes := nodes; _daemons := [];
     _rng := Random.seed R rng_seed |}.

Definition set_rm (rm : ResourceManager.t) (s : t) : t :=
  mk rm (_nodes s) (_daemons s) (_rng s).
Definition set_nodes (ns : list (string * Node.t)) (s : t) : t :=
  mk (_rm s) ns (_daemons s) (_rng s).
Definition set_daemons (ds : list (string * Daemon.t)) (s : t) : t :=
  mk (_rm s) (_nodes s) ds (_rng s).
Definition set_rng (g : Random.state R) (s : t) : t :=
  mk (_rm s) (_nodes s) (_daemons s) g.

Definition add_daemon (daemon : Daemon.t) : M t unit :=
  ns <- gets _nodes ;;
  if negb (Py.contains ns (Daemon.node_id daemon)) then raise ValueError
  else
    let daemon1 :=
      match Daemon.personality daemon with
      | Daemon.PARANOID =>
          Daemon.set_detection_radius
            (Daemon.detection_radius daemon + 1)%Z daemon
      | Daemon.SLEEPY => Daemon.set_move_cooldown 3%Z daemon
      | Daemon.AGGRESSIVE => daemon
      end in
    modify (fun s => set_daemons
                       (Py.setitem (_daemons s) (Daemon.daemon_id daemon1)
                          daemon1) s).

Definition remove_daemon (daemon_id : string) : M t unit :=
  modify (fun s => set_daemons
                     (filter (fun kd => kd.1 <> daemon_id) (_daemons s)) s).

(** *** Graph utilities *)

(** A string is truthy when it is not empty. *)
Definition truthy (s : string) : bool :=
  match s with EmptyString => false | _ => true end.

Definition _neighbours (ns : list (string * Node.t)) (node_id : string)
    : list string :=
  match Py.get ns node_id with
  | None => []
  | Some node =>
      let adjacent :=
        Node.children_ids node
        ++ match Node.parent_id node with
           | Some p => if truthy p then [p] else []
           | None => []
           end in
      filter (fun nid => Py.contains ns nid = true) adjacent
  end.

(** The [for nid in self._neighbours(current_id)] of the search: it returns
    at the target, and otherwise marks and enqueues what it has not seen. *)
Fixpoint visit (to_id : string) (dist : Z) (nbrs : list string)
    (visited : list string) (queue : list (string * Z))
    : option Z * list string * list (string * Z) :=
  match nbrs with
  | [] => (None, visited, queue)
  | nid :: nbrs' =>
      if decide (nid = to_id) then (Some (dist + 1)%Z, visited, queue)
      else if bool_decide (nid ∈ visited)
      then visit to_id dist nbrs' visited queue
      else visit to_id dist nbrs' (visited ++ [nid])
                 (queue ++ [(nid, (dist + 1)%Z)])
  end.

(** [while queue: ...]; [None] only when [fuel] ran out. *)
Fixpoint search (fuel : nat) (ns : list (string * Node.t)) (to_id : string)
    (visited : list string) (queue : list (string * Z)) : option Z :=
  match fuel with
  | O => None
  | S fuel' =>
      match queue with
      | [] => Some 999%Z
      | (current_id, dist) :: queue' =>
          match visit to_id dist (_neighbours ns current_id) visited queue' with
          | (Some d, _, _) => Some d
          | (None, visited', queue'') => search fuel' ns to_id visited' queue''
          end
      end
  end.

(** [_distance].  Every registered node is enqueued at most once, so the
    loop runs at most [len(nodes) + 2] times and the fuel given never runs
    out ([search_fuel_enough] below). *)
Definition _distance (ns : list (string * Node.t)) (from_id to_id : string)
    : Z :=
  if decide (from_id = to_id) then 0%Z
  else default 999%Z
         (search (length ns + 2)%nat ns to_id [from_id] [(from_id, 0%Z)]).

(** *** Per-turn update *)

(** The daemon object at position [i]. *)
Definition daemon_at (i : nat) (s : t) : option Daemon.t :=
  snd <$> _daemons s !! i.

Definition mutate (i : nat) (f : Daemon.t -> Daemon.t) : M t unit :=
  modify (fun s =>
            set_daemons
              (alter (fun kd => (kd.1, f kd.2)) i (_daemons s)) s).

Definition alert_payload (daemon : Daemon.t) : list (string * Py.value) :=
  [("daemon_id"%string, Py.VStr (Daemon.daemon_id daemon));
   ("name"%string, Py.VStr (Daemon.name daemon));
   ("node_id"%string, Py.VStr (Daemon.node_id daemon))].

Definition _post_alert_event (daemon : Daemon.t)
    (previous : Daemon.AlertState) : M t unit :=
  if bool_decide (Daemon.alert_state daemon = Daemon.SUSPICIOUS)
     && bool_decide (previous = Daemon.IDLE)
  then post_immediate EventQueue.DAEMON_SPOTTED (alert_payload daemon)
                      "DaemonSystem"
  else if bool_decide (Daemon.alert_state daemon = Daemon.ALERT)
  then post_immediate EventQueue.DAEMON_ALERT (alert_payload daemon)
                      "DaemonSystem"
  else ret tt.

(** The gain of the alert level for this turn. *)
Definition alert_gain (ns : list (string * Node.t)) (daemon : Daemon.t)
    (player_node_id : string) (noise_node_id : option string) : float :=
  let dist := _distance ns (Daemon.node_id daemon) player_node_id in
  if (dist <=? Daemon.detection_radius daemon)%Z
  then
    if decide (Daemon.personality daemon = Daemon.PARANOID)
    then _ALERT_GAIN_NEAR * 1.5
    else _ALERT_GAIN_NEAR
  else if match noise_node_id with
          | Some noise =>
              truthy noise
              && (_distance ns (Daemon.node_id daemon) noise
                  <=? Daemon.detection_radius daemon + 1)%Z
          | None => false
          end
  then _ALERT_GAIN_NOISE
  else
    if decide (Daemon.personality daemon = Daemon.SLEEPY)
    then - _ALERT_DECAY * 2.0
    else - _ALERT_DECAY.

(** The state the thresholds give a level. *)
Definition state_of_level (level : float) : Daemon.AlertState :=
  if Py.geb level Daemon._ALERT_THRESHOLD then Daemon.ALERT
  else if Py.geb level Daemon._SUSPICIOUS_THRESHOLD then Daemon.SUSPICIOUS
  else Daemon.IDLE.

Definition _update_alert (i : nat) (daemon : Daemon.t)
    (player_node_id : string) (noise_node_id : option string) : M t unit :=
  ns <- gets _nodes ;;
  let gain := alert_gain ns daemon player_node_id noise_node_id in
  let previous_state := Daemon.alert_state daemon in
  let level := Py.max 0.0 (Py.min 1.0 (Daemon.alert_level daemon + gain)) in
  mutate i (Daemon.set_alert_level level) ;;;
  mutate i (Daemon.set_alert_state (state_of_level level)) ;;;
  let daemon' :=
    Daemon.set_alert_state (state_of_level level)
      (Daemon.set_alert_level level daemon) in
  when (negb (bool_decide (Daemon.alert_state daemon' = previous_state)))
       (_post_alert_event daemon' previous_state).

(** [min(neighbours, key=...)]: the first neighbour of least key. *)
Fixpoint min_by (key : string -> Z) (best : string) (rest : list string)
    : string :=
  match rest with
  | [] => best
  | x :: rest' =>
      if (key x <? key best)%Z then min_by key x rest'
      else min_by key best rest'
  end.

Definition _maybe_move (i : nat) (daemon : Daemon.t)
    (player_node_id : string) : M t unit :=
  let turns := (Daemon.turns_since_move daemon + 1)%Z in
  mutate i (Daemon.set_turns_since_move turns) ;;;
  if (turns <? Daemon.move_cooldown daemon)%Z then ret tt
  else
    mutate i (Daemon.set_turns_since_move 0%Z) ;;;
    ns <- gets _nodes ;;
    match _neighbours ns (Daemon.node_id daemon) with
    | [] => ret tt
    | first_neighbour :: others =>
        target <-
          (if bool_decide (Daemon.alert_state daemon = Daemon.ALERT)
              && (bool_decide (Daemon.personality daemon = Daemon.AGGRESSIVE)
                  || bool_decide (Daemon.personality daemon = Daemon.PARANOID))
           then
             ret (min_by (fun nid => _distance ns nid player_node_id)
                         first_neighbour others)
           else
             g <- gets _rng ;;
             let '(picked, g') :=
               Random.choice R (first_neighbour :: others) g in
             modify (set_rng g') ;;;
             match picked with
             | Some target_id => ret target_id
             | None => raise IndexError
             end) ;;
        mutate i (Daemon.set_node_id target)
    end.

Definition _apply_contact_effects (daemon : Daemon.t)
    (player_node_id : string) : M t unit :=
  if negb (bool_decide (Daemon.node_id daemon = player_node_id)) then ret tt
  else
    _ <- zoom _rm set_rm
           (ResourceManager.consume ResourceManager.POWER _CONTACT_DRAIN
              (Daemon.name daemon)) ;;
    ret tt.

Definition _corrupt_current_node (daemon : Daemon.t) : M t unit :=
  modify (fun s =>
            set_nodes
              (Filesystem.alter_node
                 (Node.apply_corruption _DAEMON_CORRUPTION)
                 (Daemon.node_id daemon) (_nodes s)) s).

(** The body of the loop of [tick] for the daemon object at position [i];
    each method reads the object as its predecessors left it. *)
Definition current_daemon (i : nat) (fallback : Daemon.t) : M t Daemon.t :=
  s <- get ;; ret (default fallback (daemon_at i s)).

Definition tick_daemon (player_node_id : string)
    (noise_node_id : option string) (i : nat) : M t unit :=
  s <- get ;;
  match daemon_at i s with
  | None => ret tt
  | Some daemon0 =>
      if Daemon.pacified daemon0 then ret tt
      else
        _update_alert i daemon0 player_node_id noise_node_id ;;;
        daemon1 <- current_daemon i daemon0 ;;
        _maybe_move i daemon1 player_node_id ;;;
        daemon2 <- current_daemon i daemon1 ;;
        _apply_contact_effects daemon2 player_node_id ;;;
        daemon3 <- current_daemon i daemon2 ;;
        _corrupt_current_node daemon3
  end.

(** [for daemon in list(self._daemons.values()): ...] *)
Definition tick (player_node_id : string) (noise_node_id : option string)
    : M t unit :=
  ds <- gets _daemons ;;
  for_each (seq 0%nat (length ds)) (tick_daemon player_node_id noise_node_id).

Definition pacified_payload (daemon : Daemon.t) : list (string * Py.value) :=
  [("daemon_id"%string, Py.VStr (Daemon.daemon_id daemon));
   ("name"%string, Py.VStr (Daemon.name daemon))].

Fixpoint index_of (daemon_id : string) (ds : list (string * Daemon.t))
    : option nat :=
  match ds with
  | [] => None
  | (k, _) :: ds' =>
      if decide (k = daemon_id) then Some 0%nat else S <$> index_of daemon_id ds'
  end.

Definition pacify (daemon_id : string) : M t bool :=
  ds <- gets _daemons ;;
  match index_of daemon_id ds with
  | None => ret false
  | Some i =>
      mutate i (fun d =>
                  Daemon.set_alert_level 0.0
                    (Daemon.set_alert_state Daemon.IDLE
                       (Daemon.set_pacified true d))) ;;;
      s <- get ;;
      match daemon_at i s with
      | Some daemon =>
          post_immediate EventQueue.DAEMON_PACIFIED (pacified_payload daemon)
                         "DaemonSystem" ;;;
          ret true
      | None => ret true
      end
  end.

Definition daemons_at (node_id : string) (s : t) : list Daemon.t :=
  filter (fun d => Daemon.node_id d = node_id /\ Daemon.pacified d = false)
         (Py.values (_daemons s)).
Definition all_daemons (s : t) : list Daemon.t := Py.values (_daemons s).

End WithRandom.

Arguments _rm {R} _.
Arguments _nodes {R} _.
Arguments _daemons {R} _.
Arguments _rng {R} _.
Arguments daemon_at {R} _ _.

End DaemonSystem.

(** ** world/site_generator.py *)

Module SiteProfile.

Record t : Type := mk {
  name : string;
  seed : Z;
  max_depth : Z;
  branch_factor : float;
  files_per_dir : float;
  debris_ratio : float;
  artifact_density : float;
  base_corruption : float;
  theme : string;
  dir_names : list string;
  file_names : list string;
  debris_names : list string
}.

Definition default_dir_names : list string :=
  ["invoices"; "archive"; "logs"; "backup"; "system";
   "personal"; "reports"; "cache"; "temp"; "projects";
   "assets"; "config"; "network"; "users"; "research"]%string.
Definition default_file_names : list string :=
  ["readme.txt"; "memo.doc"; "export.csv"; "notes.txt";
   "report.pdf"; "manifest.log"; "index.dat"; "summary.txt";
   "contacts.db"; "schedule.txt"; "budget.xls"; "draft.doc"]%string.
Definition default_debris_names : list string :=
  ["fragment_A"; "corrupt_B"; "debris_01"; "shard_02";
   "remnant_C"; "chunk_03"; "erased_D"; "lost_04"]%string.

Definition PROFILE_CORPORATE : t :=
  mk "Abandoned Corporate Server" 0 2 2.0 3.0 0.25 0.15 0.08 "corporate"
     default_dir_names default_file_names default_debris_names.
Definition PROFILE_PERSONAL : t :=
  mk "Personal Databank" 0 2 1.5 5.0 0.4 0.3 0.2 "personal"
     default_dir_names default_file_names default_debris_names.
Definition PROFILE_RESEARCH : t :=
  mk "Research Terminal" 0 3 2.0 6.0 0.2 0.25 0.05 "research"
     default_dir_names default_file_names default_debris_names.

End SiteProfile.

Module SiteGenerator.
Import Sys.
Local Open Scope float_scope.
Local Open Scope sys_scope.

Record t : Type := mk {
  _profile : SiteProfile.t;
  _seed : Z
}.

(** [SiteGenerator.__init__(profile, seed=None)] *)
Definition init (profile : SiteProfile.t) (seed : option Z) : t :=
  {| _profile := profile;
     _seed := match seed with
              | Some n => n
              | None => SiteProfile.seed profile
              end |}.

Section Generate.
Context (R : Random.Impl).

(** [uuid4 k] is the string of the [k]-th [uuid.uuid4()] of the run: the
    ids come from the operating system, not from the seeded generator. *)
Variable uuid4 : nat -> string.
Variable self : t.

(** The locals of [generate]: the seeded generator, the node objects in
    creation order (a reference to an object is its position), the
    registry [nodes] from a node id to an object, and the number of ids
    drawn so far. *)
Record Run : Type := mkRun {
  rng : Random.state R;
  heap : list Node.t;
  nodes : list (string * nat);
  uuids : nat
}.

Definition set_rng (g : Random.state R) (s : Run) : Run :=
  mkRun g (heap s) (nodes s) (uuids s).
Definition set_heap (h : list Node.t) (s : Run) : Run :=
  mkRun (rng s) h (nodes s) (uuids s).
Definition set_registry (d : list (string * nat)) (s : Run) : Run :=
  mkRun (rng s) (heap s) d (uuids s).
Definition set_uuids (k : nat) (s : Run) : Run :=
  mkRun (rng s) (heap s) (nodes s) k.

(** A draw from [rng]. *)
Definition draw {A} (f : Random.state R -> A * Random.state R) : M Run A :=
  fun s q => let '(a, g') := f (rng s) in (Ok a, set_rng g' s, q).

(** [str(uuid.uuid4())] *)
Definition fresh_uuid : M Run string :=
  fun s q => (Ok (uuid4 (uuids s)), set_uuids (S (uuids s)) s, q).

(** A new object. *)
Definition alloc (n : Node.t) : M Run nat :=
  fun s q => (Ok (length (heap s)), set_heap (heap s ++ [n]) s, q).

(** The object behind a reference.  Every reference comes from [alloc] and
    objects are never freed, so a reference is never dangling; the
    interpreter's [SystemError] stands where one would be read. *)
Definition deref (r : nat) (s : Run) : option Node.t := heap s !! r.

Definition read (r : nat) : M Run Node.t :=
  s <- get ;;
  match deref r s with
  | Some n => ret n
  | None => raise SystemError
  end.

Definition update (r : nat) (f : Node.t -> Node.t) : M Run unit :=
  modify (fun s => set_heap (alter f r (heap s)) s).

(** [nodes[key] = obj] *)
Definition register (key : string) (r : nat) : M Run unit :=
  modify (fun s => set_registry (Py.setitem (nodes s) key r) s).

(** [obj.add_child(child_id)] *)
Definition add_child (r : nat) (child_id : string) : M Run unit :=
  node <- read r ;;
  match Node.add_child child_id node with
  | Some node' => update r (fun _ => node')
  | None => raise ValueError
  end.

(** [max(0, round(x))] *)
Definition rounded_count (x : float) : M Run nat :=
  match Py.round x with
  | Py.RoundInt n => ret (Z.to_nat (Z.max 0 n))
  | Py.RoundNaN => raise ValueError
  | Py.RoundInf => raise OverflowError
  end.

(** [pool[i % len(pool)]] *)
Definition pick (pool : list string) (i : nat) : M Run string :=
  match pool with
  | [] => raise ZeroDivisionError
  | first :: _ => ret (default first (pool !! (i mod length pool)%nat))
  end.

Definition _make_node (name : string) (node_type : Node.NodeType)
    (parent_id : option string) : M Run nat :=
  let profile := _profile self in
  u <- draw (Random.uniform R (-0.03) 0.03) ;;
  let corruption :=
    Py.max 0.0 (Py.min 0.99 (SiteProfile.base_corruption profile + u)) in
  node_id <- fresh_uuid ;;
  let node :=
    Node.mk name node_type node_id parent_id [] corruption Node.HIDDEN None
      [("theme"%string, Py.VStr (SiteProfile.theme profile));
       ("site"%string, Py.VStr (SiteProfile.name profile))] in
  alloc (if decide (node_type = Node.DIRECTORY)
         then Node.set_visibility Node.DETECTED node
         else node).

(** The object registered under [key] satisfies [p]. *)
Definition registered (p : Node.t -> bool) (s : Run) (key : string) : bool :=
  match Py.get (nodes s) key with
  | Some r => match deref r s with Some n => p n | None => false end
  | None => false
  end.

(** [_lookup_child_name]: one [True] per registered child of the name. *)
Definition _lookup_child_name (name : string) (parent : nat)
    : M Run (list bool) :=
  parent_node <- read parent ;;
  s <- get ;;
  ret (omap (fun cid =>
               if registered (fun n => bool_decide (Node.name n = name)) s cid
               then Some true else None)
            (Node.children_ids parent_node)).

Definition any (l : list bool) : bool := existsb id l.

(** [nodes[child.node_id] = child; parent.add_child(child.node_id)] *)
Definition attach (parent child : nat) : M Run unit :=
  child_node <- read child ;;
  register (Node.node_id child_node) child ;;;
  add_child parent (Node.node_id child_node).

(** Pass 1.  [remaining] is [max_depth - depth]: the function returns at
    once when [depth >= max_depth]. *)
Fixpoint _build_tree (remaining : nat) (parent : nat) : M Run unit :=
  match remaining with
  | O => ret tt
  | S remaining' =>
      let profile := _profile self in
      g <- draw (Random.gauss R (SiteProfile.branch_factor profile) 0.8) ;;
      n_branches <- rounded_count g ;;
      name_pool <- draw (Random.shuffle R (SiteProfile.dir_names profile)) ;;
      for_each (seq 0%nat n_branches) (fun i =>
        name0 <- pick name_pool i ;;
        clash <- _lookup_child_name name0 parent ;;
        let name :=
          if any clash then (name0 +:+ "_" +:+ Py.str_int i)%string
          else name0 in
        parent_node <- read parent ;;
        child <- _make_node name Node.DIRECTORY
                            (Some (Node.node_id parent_node)) ;;
        attach parent child ;;;
        _build_tree remaining' child)
  end.

(** The leaf directories: the registered directories none of whose
    registered children is a directory. *)
Definition is_leaf_dir (s : Run) (r : nat) : bool :=
  match deref r s with
  | Some n =>
      Node.is_directory n
      && negb (existsb (registered Node.is_directory s) (Node.children_ids n))
  | None => false
  end.

Definition leaf_dirs (s : Run) : list nat :=
  filter (fun r => is_leaf_dir s r = true) (Py.values (nodes s)).

(** Pass 2 *)
Definition _populate : M Run unit :=
  let profile := _profile self in
  let debris_ratio :=
    Py.max 0.0 (Py.min 1.0 (SiteProfile.debris_ratio profile)) in
  leaves <- gets leaf_dirs ;;
  for_each leaves (fun leaf =>
    g <- draw (Random.gauss R (SiteProfile.files_per_dir profile) 1.0) ;;
    n_files <- rounded_count g ;;
    file_pool <- draw (Random.shuffle R (SiteProfile.file_names profile)) ;;
    debris_pool <- draw (Random.shuffle R (SiteProfile.debris_names profile)) ;;
    for_each (seq 0%nat n_files) (fun i =>
      u <- draw (Random.random R) ;;
      let is_debris := u <? debris_ratio in
      name <- (if is_debris then pick debris_pool i else pick file_pool i) ;;
      let node_type := if is_debris then Node.DEBRIS else Node.FILE in
      leaf_node <- read leaf ;;
      child <- _make_node name node_type (Some (Node.node_id leaf_node)) ;;
      attach leaf child)).

Definition is_file_node (s : Run) (r : nat) : bool :=
  match deref r s with
  | Some n => Node.is_file n
  | None => false
  end.

Definition file_nodes (s : Run) : list nat :=
  filter (fun r => is_file_node s r = true) (Py.values (nodes s)).

(** [f"arc_{theme}_{i:04d}"] *)
Definition artifact_name (i : nat) : string :=
  ("arc_" +:+ SiteProfile.theme (_profile self) +:+ "_" +:+ Py.fmt_04d i)%string.

(** Pass 3 *)
Definition _seed_artifacts : M Run unit :=
  let density :=
    Py.max 0.0 (Py.min 1.0 (SiteProfile.artifact_density (_profile self))) in
  files <- gets file_nodes ;;
  for_each (imap pair files) (fun '(i, node) =>
    u <- draw (Random.random R) ;;
    if u <? density
    then
      update node (Node.set_artifact_id (Some (artifact_name i))) ;;;
      update node (fun n =>
                     Node.set_metadata
                       (Py.setitem (Node.metadata n) "artifact"%string
                          (Py.VBool true)) n)
    else ret tt).

(** The registry handed to [Filesystem]: the objects under their keys. *)
Definition registry (s : Run) : list (string * Node.t) :=
  omap (fun kr => pair kr.1 <$> deref kr.2 s) (nodes s).

Definition generate_run : M Run Filesystem.t :=
  root <- _make_node "root" Node.DIRECTORY None ;;
  update root (Node.set_visibility Node.REVEALED) ;;;
  root_node <- read root ;;
  register (Node.node_id root_node) root ;;;
  _build_tree (Z.to_nat (SiteProfile.max_depth (_profile self))) root ;;;
  _populate ;;;
  _seed_artifacts ;;;
  root_node' <- read root ;;
  s <- get ;;
  match Filesystem.init root_node' (registry s) with
  | Ok fs => ret fs
  | Raise e => raise e
  end.

(** [rng = random.Random(self._seed); nodes = {}] *)
Definition start : Run :=
  {| rng := Random.seed R (_seed self); heap := []; nodes := []; uuids := 0 |}.

(** [SiteGenerator.generate]: the filesystem returned (or the exception),
    and the objects created, in creation order. *)
Definition generate : Result Filesystem.t * list Node.t :=
  let '(r, s, _) := generate_run start EventQueue.init in (r, heap s).

End Generate.

Arguments rng {R} _.
Arguments heap {R} _.
Arguments nodes {R} _.
Arguments uuids {R} _.
Arguments deref {R} _ _.

End SiteGenerator.
(** ** systems/command_handler.py: the resource gate of the commands *)

Module CommandHandler.
Import Sys.
Local Open Scope float_scope.
Local Open Scope sys_scope.

Record CommandResult : Type := mkResult {
  success : bool;
  lines : list string;
  command : string;
  error : string
}.

(** [CommandResult.ok] and [CommandResult.fail] *)
Definition ok (command : string) (lines : list string) : CommandResult :=
  {| success := true; lines := lines; command := command; error := "" |}.
Definition fail (command error : string) : CommandResult :=
  {| success := false; lines := ["ERROR: " +:+ error]; command := command;
     error := error |}.

Definition _COSTS
    : list (string * list (ResourceManager.Resource * float)) :=
  [("SCAN"%string, [(ResourceManager.POWER, 5.0)]);
   ("CARVE"%string,
    [(ResourceManager.POWER, 8.0); (ResourceManager.ENERGY, 4.0)]);
   ("RECON"%string, [(ResourceManager.POWER, 12.0)])].

Section Format.
(** The built-in format [f"{x:.0f}"] of a float. *)
Variable fmt_0f : float -> string.

Definition insufficient (resource : ResourceManager.Resource)
    (amount have : float) : string :=
  "Insufficient " +:+ ResourceManager.name resource
  +:+ " (need " +:+ fmt_0f amount +:+ ", have " +:+ fmt_0f have +:+ ").".

(** The first loop of [_check_and_spend]: it returns the failure of the
    first cost that cannot be afforded. *)
Fixpoint check_costs (verb : string)
    (costs : list (ResourceManager.Resource * float))
    : M ResourceManager.t (option CommandResult) :=
  match costs with
  | [] => ret None
  | (resource, amount) :: costs' =>
      rm <- get ;;
      if negb (ResourceManager.can_afford resource amount rm)
      then
        ret (Some (fail verb
                     (insufficient resource amount
                        (ResourceManager.current
                           (ResourceManager.slot resource rm)))))
      else check_costs verb costs'
  end.

(** [_check_and_spend], run on [self._rm]. *)
Definition _check_and_spend (verb : string)
    : M ResourceManager.t (option CommandResult) :=
  let costs := default [] (Py.get _COSTS verb) in
  failed <- check_costs verb costs ;;
  match failed with
  | Some result => ret (Some result)
  | None =>
      for_each costs
        (fun '(resource, amount) =>
           _ <- ResourceManager.consume resource amount verb ;; ret tt) ;;;
      ret None
  end.
End Format.

End CommandHandler.

(** ** Vocabulary of the statements *)

(** [x] is a number: not a NaN. *)
Definition is_number (x : float) : Prop := (x =? x)%float = true.

(** Appending events to the pending list, the other fields untouched. *)
Definition posted (evs : list EventQueue.Event) (q : EventQueue.t)
    : EventQueue.t :=
  EventQueue.set_pending (EventQueue._pending q ++ evs) q.

(** The events the resource manager posts. *)
Definition changed_event (r : ResourceManager.Resource) (delta : float)
    (source : string) (s : ResourceManager.ResourceSlot) : EventQueue.Event :=
  EventQueue.mkEvent EventQueue.RESOURCE_CHANGED
    (ResourceManager.changed_payload r delta source s) EventQueue.IMMEDIATE
    "ResourceManager".

Definition depleted_event (r : ResourceManager.Resource) (source : string)
    : EventQueue.Event :=
  EventQueue.mkEvent EventQueue.RESOURCE_DEPLETED
    (ResourceManager.depleted_payload r source) EventQueue.IMMEDIATE
    "ResourceManager".

(** The events [Filesystem.scan] posts for a target as it is after the
    scan, given its visibility [previous] before. *)
Definition revealed_event (target : Node.t) : EventQueue.Event :=
  EventQueue.mkEvent EventQueue.NODE_REVEALED
    (Filesystem.revealed_payload target) EventQueue.IMMEDIATE "Filesystem".

Definition artifact_found_event (target : Node.t) : EventQueue.Event :=
  EventQueue.mkEvent EventQueue.ARTIFACT_FOUND
    (Filesystem.artifact_found_payload target) EventQueue.IMMEDIATE
    "Filesystem".

Definition scan_complete_event (target : Node.t) : EventQueue.Event :=
  EventQueue.mkEvent EventQueue.SCAN_COMPLETE
    (Filesystem.scan_complete_payload target) EventQueue.IMMEDIATE
    "Filesystem".

Definition scan_events (previous : Node.NodeVisibility) (target : Node.t)
    : list EventQueue.Event :=
  (if decide (Node.visibility target = previous) then []
   else [revealed_event target])
  ++ (if decide (Node.visibility target = Node.REVEALED
                 /\ Node.node_type target = Node.FILE
                 /\ Node.artifact_id target <> None)
      then [artifact_found_event target] else [])
  ++ [scan_complete_event target].

(** HIDDEN < DETECTED < REVEALED *)
Definition visibility_rank (v : Node.NodeVisibility) : nat :=
  match v with
  | Node.HIDDEN => 0
  | Node.DETECTED => 1
  | Node.REVEALED => 2
  end.

(** [before < t <= after]: the corruption crosses the boundary [t]. *)
Definition crosses (before after t : float) : Prop :=
  (before <? t)%float = true /\ (t <=? after)%float = true.

(** What one tick of the filesystem does to a node, and the events it posts
    for it. *)
Definition ticked (n : Node.t) : Node.t :=
  if decide (Node.visibility n = Node.HIDDEN) then n
  else Node.apply_corruption Filesystem._CORRUPTION_TICK n.

Definition corrupted_event (n : Node.t) (t : float) : EventQueue.Event :=
  EventQueue.mkEvent EventQueue.NODE_CORRUPTED
    (Filesystem.corrupted_payload n (Node.corruption n) t)
    EventQueue.IMMEDIATE "Filesystem".

Definition tick_events (n : Node.t) : list EventQueue.Event :=
  if decide (Node.visibility n = Node.HIDDEN) then []
  else
    match Filesystem.first_crossed Filesystem.thresholds
            (Node.corruption n) (Node.corruption (ticked n)) with
    | Some t => [corrupted_event (ticked n) t]
    | None => []
    end.

(** The events the artifact system posts. *)
Definition reconstruct_failed_event (artifact_id : string)
    : EventQueue.Event :=
  EventQueue.mkEvent EventQueue.RECONSTRUCT_END
    (ArtifactSystem.collect_failed_payload artifact_id)
    EventQueue.IMMEDIATE "ArtifactSystem".

Definition reconstruct_ok_event (artifact_id : string) (a : Artifact.t)
    : EventQueue.Event :=
  EventQueue.mkEvent EventQueue.RECONSTRUCT_END
    (ArtifactSystem.collect_ok_payload artifact_id a)
    EventQueue.IMMEDIATE "ArtifactSystem".

Definition sale_event (artifact_id : string) (a : Artifact.t)
    (earned : float) : EventQueue.Event :=
  EventQueue.mkEvent EventQueue.LOG_ENTRY_ADDED
    (ArtifactSystem.sold_payload artifact_id a earned)
    EventQueue.IMMEDIATE "ArtifactSystem".

(** ** Sample data for the examples *)

(** A small site: a root with a visible and a hidden directory, a revealed
    file that carries an artifact, a hidden file and a piece of debris. *)
Definition sample_root : Node.t :=
  Node.mk "root" Node.DIRECTORY "id-root" None
    ["id-logs"; "id-cache"; "id-readme"; "id-memo"; "id-frag"]%string
    0.08 Node.REVEALED None [].
Definition sample_logs : Node.t :=
  Node.mk "logs" Node.DIRECTORY "id-logs" (Some "id-root"%string) []
    0.09 Node.DETECTED None [].
Definition sample_cache : Node.t :=
  Node.mk "cache" Node.DIRECTORY "id-cache" (Some "id-root"%string) []
    0.07 Node.HIDDEN None [].
Definition sample_readme : Node.t :=
  Node.mk "readme.txt" Node.FILE "id-readme" (Some "id-root"%string) []
    0.24 Node.REVEALED (Some "arc_corporate_0000"%string) [].
Definition sample_memo : Node.t :=
  Node.mk "memo.doc" Node.FILE "id-memo" (Some "id-root"%string) []
    0.10 Node.HIDDEN (Some "arc_corporate_0001"%string) [].
Definition sample_frag : Node.t :=
  Node.mk "fragment_A" Node.DEBRIS "id-frag" (Some "id-root"%string) []
    0.85 Node.DETECTED None [].

Definition sample_fs : Filesystem.t :=
  Filesystem.mk
    [("id-root", sample_root); ("id-logs", sample_logs);
     ("id-cache", sample_cache); ("id-readme", sample_readme);
     ("id-memo", sample_memo); ("id-frag", sample_frag)]%string
    "id-root" "id-root".

(** A small artifact registry on a fresh resource manager. *)
Definition sample_relic (s : Artifact.ArtifactState) : Artifact.t :=
  Artifact.mk "arc_corporate_0000" "Quarterly ledger" "A ledger." "id-readme"
    Artifact.RARE s 1.0 0.0 [].

Definition sample_arts (s : Artifact.ArtifactState) (memory : float)
    : ArtifactSystem.t :=
  ArtifactSystem.mk (ResourceManager.init 100 memory 80 1)
    [("arc_corporate_0000"%string, sample_relic s)] 0.0.

(** The alert level is within [[0, 1]] and the alert state is the one the
    two thresholds give it. *)
Definition alert_in_bounds (d : Daemon.t) : Prop :=
  (0 <=? Daemon.alert_level d)%float = true
  /\ (Daemon.alert_level d <=? 1)%float = true.

Definition alert_state_by_thresholds (d : Daemon.t) : Prop :=
  let l := Daemon.alert_level d in
  ((0.75 <=? l)%float = true -> Daemon.alert_state d = Daemon.ALERT)
  /\ ((0.4 <=? l)%float = true -> (l <? 0.75)%float = true ->
      Daemon.alert_state d = Daemon.SUSPICIOUS)
  /\ ((0.75 <=? l)%float = false ->
      (0.4 <=? l)%float = false \/ (l <? 0.75)%float = false ->
      Daemon.alert_state d = Daemon.IDLE).

(** A toy generator to run the examples: a linear congruential state. *)
Definition toy_next (s : Z) : Z := ((1103515245 * s + 12345) mod 2147483648)%Z.

Definition toy_unit (s : Z) : float :=
  (of_uint63 (Uint63.of_Z s) / 2147483648)%float.

Definition toy_random : Random.Impl :=
  {| Random.state := Z;
     Random.seed := fun n => (n mod 2147483648)%Z;
     Random.random := fun s => (toy_unit (toy_next s), toy_next s);
     Random.gauss := fun mu sigma s =>
       ((mu + sigma * (2 * toy_unit (toy_next s) - 1))%float, toy_next s);
     Random._randbelow := fun n s =>
       (Z.to_nat (toy_next s mod Z.of_nat n), toy_next s) |}.

(** Two daemons on the sample site: an aggressive one on the root, next to
    the player, and a pacified one. *)
Definition sample_watchdog : Daemon.t :=
  Daemon.mk "WATCHDOG-7" Daemon.AGGRESSIVE "id-logs" 2 Daemon.SUSPICIOUS 0.7
    1 0 false "daemon_1".
Definition sample_sleeper : Daemon.t :=
  Daemon.mk "SLEEPER-2" Daemon.SLEEPY "id-cache" 2 Daemon.IDLE 0.0
    3 0 true "daemon_2".

Definition sample_daemons : DaemonSystem.t toy_random :=
  DaemonSystem.mk toy_random (ResourceManager.init 100 50 80 1)
    (Filesystem._nodes sample_fs)
    [("daemon_1"%string, sample_watchdog); ("daemon_2"%string, sample_sleeper)]
    (Random.seed toy_random 42).

(** The vocabulary of [flush]. *)

(** A call a handler makes that only posts an event or calls [flush]. *)
Definition only_posts (c : EventQueue.Call) : Prop :=
  match c with
  | EventQueue.CallPost _ | EventQueue.CallFlush => True
  | _ => False
  end.

(** The IMMEDIATE events among the calls, in the order posted. *)
Fixpoint immediate_posts (cs : list EventQueue.Call)
    : list EventQueue.Event :=
  match cs with
  | [] => []
  | EventQueue.CallPost e :: cs' =>
      match EventQueue.timing e with
      | EventQueue.IMMEDIATE => e :: immediate_posts cs'
      | EventQueue.DEFERRED => immediate_posts cs'
      end
  | _ :: cs' => immediate_posts cs'
  end.

(** The subscribers of an event type, in subscription order. *)
Definition handlers_for (q : EventQueue.t) (ty : EventQueue.EventType)
    : list EventQueue.Handler :=
  default [] (Py.get (EventQueue._subscribers q) ty).

(** Every event of the list to every subscriber of its type: events in
    list order, and for one event the subscribers in subscription order. *)
Definition dispatches_of (q : EventQueue.t) (evs : list EventQueue.Event)
    : list (EventQueue.Event * EventQueue.Handler) :=
  flat_map (fun e => map (pair e) (handlers_for q (EventQueue.type e))) evs.

(** The calls recorded for a dispatch are those the handler made. *)
Definition calls_of_body {H : Type}
    (body : EventQueue.Handler -> EventQueue.Event -> H -> EventQueue.t
            -> H * list EventQueue.Call)
    (d : EventQueue.Dispatch) : Prop :=
  exists o q, d.2 = (body d.1.2 d.1.1 o q).2.

(** The number of subscriptions of the bus. *)
Definition subscriptions (q : EventQueue.t) : nat :=
  length (concat (map snd (EventQueue._subscribers q))).

(** A sample bus: handler 1 and then handler 2 listen to ARTIFACT_FOUND,
    handler 3 to LOG_ENTRY_ADDED.  Handler 1 answers an artifact with a log
    entry (an immediate post) and a nested [flush]; the others do nothing. *)
Definition sample_found : EventQueue.Event :=
  EventQueue.mkEvent EventQueue.ARTIFACT_FOUND [] EventQueue.IMMEDIATE "fs".
Definition sample_logged : EventQueue.Event :=
  EventQueue.mkEvent EventQueue.LOG_ENTRY_ADDED [] EventQueue.IMMEDIATE "ui".

Definition sample_body (h : EventQueue.Handler) (e : EventQueue.Event)
    (o : nat) (q : EventQueue.t) : nat * list EventQueue.Call :=
  match h with
  | 1 => (S o, [EventQueue.CallPost sample_logged; EventQueue.CallFlush])
  | _ => (S o, [])
  end.

Definition sample_bus : EventQueue.t :=
  EventQueue.post sample_found
    (EventQueue.subscribe EventQueue.LOG_ENTRY_ADDED 3
       (EventQueue.subscribe EventQueue.ARTIFACT_FOUND 2
          (EventQueue.subscribe EventQueue.ARTIFACT_FOUND 1
             EventQueue.init))).

Definition sample_world : EventQueue.World :=
  EventQueue.mkWorld 0 sample_bus [].

(** What two generated sites are compared on: everything of a node but the
    ids (its own, its parent's, its children's), of which the number of
    children is kept. *)
Definition shape (n : Node.t)
    : string * Node.NodeType * float * Node.NodeVisibility * option string
      * nat :=
  (Node.name n, Node.node_type n, Node.corruption n, Node.visibility n,
   Node.artifact_id n, length (Node.children_ids n)).

(** The profile of the scenario of the specification, and two runs' worth
    of fresh ids. *)
Definition sample_profile : SiteProfile.t :=
  SiteProfile.mk "Test site" 7 1 0.0 2.0 0.0 1.0 0.1 "corporate"
    SiteProfile.default_dir_names SiteProfile.default_file_names
    SiteProfile.default_debris_names.

Definition first_uuids (k : nat) : string := "a" +:+ pretty k.
Definition second_uuids (k : nat) : string := "b" +:+ pretty k.

(** ** Vocabulary of the further properties *)

#[global] Instance Timing_eq_dec : EqDecision EventQueue.Timing.
Proof. solve_decision. Defined.

(** No handler is subscribed twice to one event type. *)
Definition subscribed_once (q : EventQueue.t) : Prop :=
  forall ty, NoDup (handlers_for q ty).

(** Posting the events of a list one after the other. *)
Definition post_all (es : list EventQueue.Event) (q : EventQueue.t)
    : EventQueue.t :=
  foldl (fun q e => EventQueue.post e q) q es.

Definition immediate_among (es : list EventQueue.Event)
    : list EventQueue.Event :=
  filter (fun e => EventQueue.timing e = EventQueue.IMMEDIATE) es.

Definition deferred_among (es : list EventQueue.Event)
    : list EventQueue.Event :=
  filter (fun e => EventQueue.timing e = EventQueue.DEFERRED) es.

(** The event [advance_turn] posts on entering turn [turn]. *)
Definition turn_advanced_event (turn : Z) : EventQueue.Event :=
  EventQueue.mkEvent EventQueue.TURN_ADVANCED
    [("turn"%string, Py.VInt turn)] EventQueue.IMMEDIATE "EventQueue".

(** The events the calls of a handler post. *)
Fixpoint posts_of (cs : list EventQueue.Call) : list EventQueue.Event :=
  match cs with
  | [] => []
  | EventQueue.CallPost e :: cs' => e :: posts_of cs'
  | _ :: cs' => posts_of cs'
  end.

(** A bus with an event waiting for the next turn: the sample bus and a
    deferred log entry. *)
Definition sample_later : EventQueue.Event :=
  EventQueue.mkEvent EventQueue.LOG_ENTRY_ADDED [] EventQueue.DEFERRED "fs".

Definition sample_world_waiting : EventQueue.World :=
  EventQueue.mkWorld 0 (EventQueue.post sample_later sample_bus) [].

(** A handler that takes itself off the list of the type it is called
    for; every other handler does nothing. *)
Definition one_shot_body (h : EventQueue.Handler) (e : EventQueue.Event)
    (o : nat) (q : EventQueue.t) : nat * list EventQueue.Call :=
  match h with
  | 1 => (S o, [EventQueue.CallUnsubscribe (EventQueue.type e) 1])
  | _ => (S o, [])
  end.

#[global] Instance Resource_eq_dec : EqDecision ResourceManager.Resource.
Proof. solve_decision. Defined.

(** The event [Filesystem.carve] posts. *)
Definition carve_event (target : Node.t) (success : bool)
    : EventQueue.Event :=
  EventQueue.mkEvent EventQueue.CARVE_COMPLETE
    (Filesystem.carve_payload target success) EventQueue.IMMEDIATE
    "Filesystem".

(** Two nodes that differ in nothing but the corruption. *)
Definition same_but_corruption (n n' : Node.t) : Prop :=
  Node.set_corruption (Node.corruption n) n' = n.

(** [0 <= x <= 1] *)
Definition in_unit_interval (x : float) : Prop :=
  (0 <=? x)%float = true /\ (x <=? 1)%float = true.

(** The lifecycle of an artifact:
    UNDISCOVERED < FOUND < COLLECTED < SOLD. *)
Definition state_rank (s : Artifact.ArtifactState) : nat :=
  match s with
  | Artifact.UNDISCOVERED => 0
  | Artifact.FOUND => 1
  | Artifact.COLLECTED => 2
  | Artifact.SOLD => 3
  end.

(** [a'] is [a] further on in its lifecycle: the identity is the same and
    the state is not an earlier one. *)
Definition advanced (a a' : Artifact.t) : Prop :=
  Artifact.artifact_id a' = Artifact.artifact_id a
  /\ Artifact.name a' = Artifact.name a
  /\ Artifact.description a' = Artifact.description a
  /\ Artifact.node_id a' = Artifact.node_id a
  /\ Artifact.rarity a' = Artifact.rarity a
  /\ state_rank (Artifact.state a) <= state_rank (Artifact.state a').

(** The calls a session makes on the artifact system. *)
Inductive artifact_call : Type :=
| CallRegister (artifact : Artifact.t)
| CallMarkFound (artifact_id : string)
| CallCollect (artifact_id : string) (node_corruption : float)
| CallSell (artifact_id : string).

Definition run_artifact_call (round1 : float -> float) (c : artifact_call)
    : Sys.M ArtifactSystem.t unit :=
  match c with
  | CallRegister a => ArtifactSystem.register a
  | CallMarkFound i =>
      Sys.bind (ArtifactSystem.mark_found i) (fun _ => Sys.ret tt)
  | CallCollect i c =>
      Sys.bind (ArtifactSystem.collect round1 i c) (fun _ => Sys.ret tt)
  | CallSell i => Sys.bind (ArtifactSystem.sell i) (fun _ => Sys.ret tt)
  end.

(** An artifact registered as the generator leaves it. *)
Definition sample_calls : list artifact_call :=
  [CallMarkFound "arc_corporate_0000"; CallCollect "arc_corporate_0000" 0.24;
   CallSell "arc_corporate_0000"; CallMarkFound "arc_corporate_0000";
   CallCollect "arc_corporate_0000" 0.5; CallSell "arc_corporate_0000"].

(** The event [DaemonSystem.pacify] posts. *)
Definition pacified_event (d : Daemon.t) : EventQueue.Event :=
  EventQueue.mkEvent EventQueue.DAEMON_PACIFIED
    (DaemonSystem.pacified_payload d) EventQueue.IMMEDIATE "DaemonSystem".

(** What [add_daemon] makes of a daemon: the modifiers of its
    personality. *)
Definition with_personality (d : Daemon.t) : Daemon.t :=
  match Daemon.personality d with
  | Daemon.PARANOID =>
      Daemon.set_detection_radius (Daemon.detection_radius d + 1)%Z d
  | Daemon.SLEEPY => Daemon.set_move_cooldown 3%Z d
  | Daemon.AGGRESSIVE => d
  end.

(** What [pacify] makes of a daemon. *)
Definition neutralised (d : Daemon.t) : Daemon.t :=
  Daemon.set_alert_level 0%float
    (Daemon.set_alert_state Daemon.IDLE (Daemon.set_pacified true d)).

(** A daemon to add to the sample site. *)
Definition sample_lurker : Daemon.t :=
  Daemon.mk "LURKER-3" Daemon.PARANOID "id-logs" 2 Daemon.IDLE 0.0
    1 0 false "daemon_3".

(** The tree a registry holds: its keys with the children and the parent
    of the node under each. *)
Definition graph_of (ns : list (string * Node.t))
    : list (string * list string * option string) :=
  map (fun kn => (kn.1, Node.children_ids kn.2, Node.parent_id kn.2)) ns.

(** What no turn changes of a daemon. *)
Definition same_daemon (d d' : Daemon.t) : Prop :=
  Daemon.daemon_id d' = Daemon.daemon_id d
  /\ Daemon.name d' = Daemon.name d
  /\ Daemon.personality d' = Daemon.personality d
  /\ Daemon.detection_radius d' = Daemon.detection_radius d
  /\ Daemon.move_cooldown d' = Daemon.move_cooldown d
  /\ Daemon.pacified d' = Daemon.pacified d.

(** The daemon stayed or went to a node next to its own. *)
Definition at_most_one_hop (ns : list (string * Node.t)) (d d' : Daemon.t)
    : Prop :=
  Daemon.node_id d' = Daemon.node_id d
  \/ Daemon.node_id d' ∈ DaemonSystem._neighbours ns (Daemon.node_id d).

(** [d'] is [d] one turn later. *)
Definition a_turn_later (ns : list (string * Node.t)) (d d' : Daemon.t)
    : Prop :=
  same_daemon d d'
  /\ (Daemon.pacified d = true -> d' = d)
  /\ at_most_one_hop ns d d'.

(** A hunter on the sample site: alerted, in the directory of the logs. *)
Definition sample_hunter : Daemon.t :=
  Daemon.mk "HUNTER-1" Daemon.AGGRESSIVE "id-logs" 2 Daemon.ALERT 0.9
    1 0 false "daemon_4".

Definition sample_hunt : DaemonSystem.t toy_random :=
  DaemonSystem.mk toy_random (ResourceManager.init 100 50 80 1)
    (Filesystem._nodes sample_fs)
    [("daemon_4"%string, sample_hunter)] (Random.seed toy_random 42).

(** A node as the generator makes it: the corruption within [[0, 0.99]];
    the root REVEALED, the other directories DETECTED, files and debris
    HIDDEN; children on directories only; an artifact on a FILE only. *)
Definition node_ok (n : Node.t) : Prop :=
  (0 <=? Node.corruption n)%float = true
  /\ (Node.corruption n <=? 0.99)%float = true
  /\ Node.visibility n
     = match Node.node_type n, Node.parent_id n with
       | Node.DIRECTORY, None => Node.REVEALED
       | Node.DIRECTORY, Some _ => Node.DETECTED
       | _, _ => Node.HIDDEN
       end
  /\ (Node.node_type n <> Node.DIRECTORY -> Node.children_ids n = [])
  /\ (Node.artifact_id n <> None -> Node.node_type n = Node.FILE).

(** The registry of a filesystem holds a tree: the keys are distinct and
    every node is registered under its own id; the root is a REVEALED
    directory without parent and the only such node; every child listed is
    registered and names the node as its parent; every parent named is a
    registered directory that lists the node. *)
Definition well_formed_site (fs : Filesystem.t) : Prop :=
  let ns := Filesystem._nodes fs in
  Filesystem._cwd_id fs = Filesystem._root_id fs
  /\ NoDup (Py.keys ns)
  /\ (exists root,
        Py.get ns (Filesystem._root_id fs) = Some root
        /\ Node.node_type root = Node.DIRECTORY
        /\ Node.parent_id root = None
        /\ Node.visibility root = Node.REVEALED)
  /\ forall k n,
       Py.get ns k = Some n ->
       Node.node_id n = k
       /\ node_ok n
       /\ (Node.parent_id n = None -> k = Filesystem._root_id fs)
       /\ (forall c, c ∈ Node.children_ids n ->
             exists m, Py.get ns c = Some m /\ Node.parent_id m = Some k)
       /\ (forall p, Node.parent_id n = Some p ->
             exists m, Py.get ns p = Some m
                       /\ Node.node_type m = Node.DIRECTORY
                       /\ k ∈ Node.children_ids m).

(** What stays of a node once it is made. *)
Definition core (n : Node.t) :=
  (Node.name n, Node.node_type n, Node.node_id n, Node.parent_id n,
   Node.corruption n, Node.visibility n).

(** The locals of a run of [generate] between two statements of its
    passes.  Ids are drawn in step with the objects, an object carries the
    id of its position, the registry holds objects under their own ids,
    and child lists and parent ids point at each other. *)
Section GeneratedVocabulary.
Context (R : Random.Impl) (uuid4 : nat -> string).
Import SiteGenerator.

Record run_consistent (s : Run R) : Prop := mk_run_consistent {
  rc_uuids : uuids s = length (heap s);
  rc_ids : forall r n, heap s !! r = Some n -> Node.node_id n = uuid4 r;
  rc_ok : forall r n, heap s !! r = Some n -> node_ok n;
  rc_root : forall r n,
    heap s !! r = Some n -> (Node.parent_id n = None <-> r = 0);
  rc_reg : forall k r,
    (k, r) ∈ nodes s -> k = uuid4 r /\ r < length (heap s);
  rc_keys : NoDup (Py.keys (nodes s));
  rc_child : forall r n c,
    heap s !! r = Some n -> c ∈ Node.children_ids n ->
    exists rc nc,
      c = uuid4 rc /\ heap s !! rc = Some nc
      /\ Node.parent_id nc = Some (uuid4 r) /\ (c, rc) ∈ nodes s;
  rc_parent : forall k r n p,
    (k, r) ∈ nodes s -> heap s !! r = Some n -> Node.parent_id n = Some p ->
    exists rp np,
      p = uuid4 rp /\ heap s !! rp = Some np
      /\ Node.node_type np = Node.DIRECTORY
      /\ k ∈ Node.children_ids np /\ (p, rp) ∈ nodes s
}.

(** What a later point of the run keeps of an earlier one: the objects,
    up to their child lists, artifact and metadata, and the registry
    entries. *)
Definition run_extends (s s' : Run R) : Prop :=
  (forall r n,
     heap s !! r = Some n ->
     exists n', heap s' !! r = Some n' /\ core n' = core n
                /\ Node.children_ids n ⊆ Node.children_ids n')
  /\ (forall kr, kr ∈ nodes s -> kr ∈ nodes s').

Definition stable (P : Run R -> Prop) : Prop :=
  forall s s', P s -> run_extends s s' -> P s'.

(** [m], started where [P] holds, raises or returns where [Q] holds. *)
Definition safe {A} (P : Run R -> Prop) (m : Sys.M (Run R) A)
    (Q : A -> Run R -> Prop) : Prop :=
  forall s q,
    run_consistent s -> P s ->
    match m s q with
    | (Sys.Ok a, s', _) => run_consistent s' /\ run_extends s s' /\ Q a s'
    | (Sys.Raise _, _, _) => True
    end.

(** A registered directory object. *)
Definition directory_ref (r : nat) (s : Run R) : Prop :=
  exists n, heap s !! r = Some n /\ Node.node_type n = Node.DIRECTORY
            /\ (uuid4 r, r) ∈ nodes s.

Definition file_ref (r : nat) (s : Run R) : Prop :=
  exists n, heap s !! r = Some n /\ Node.node_type n = Node.FILE.

Definition root_revealed (s : Run R) : Prop :=
  exists n, heap s !! 0 = Some n /\ Node.visibility n = Node.REVEALED
            /\ Node.node_type n = Node.DIRECTORY
            /\ (uuid4 0, 0) ∈ nodes s.

End GeneratedVocabulary.

(** A walk of [n] hops from [a] along [_neighbours]. *)
Inductive walk (ns : list (string * Node.t)) (a : string)
    : string -> nat -> Prop :=
| walk_here : walk ns a a 0
| walk_hop (y z : string) (n : nat) :
    walk ns a y n -> z ∈ DaemonSystem._neighbours ns y -> walk ns a z (S n).

(** The queue of a breadth-first search between two levels: the nodes
    found at [k] hops, then those found at [k + 1]. *)
Definition queue_of (k : nat) (l0 l1 : list string) : list (string * Z) :=
  map (fun x => (x, Z.of_nat k)) l0
  ++ map (fun x => (x, (Z.of_nat k + 1)%Z)) l1.

(** [k] hops reach [x] from [a], and no fewer do. *)
Definition shortest (ns : list (string * Node.t)) (a x : string) (k : nat)
    : Prop :=
  walk ns a x k /\ forall n, walk ns a x n -> k <= n.

(** The search for [t] from [a], between two levels. *)
Record searching (ns : list (string * Node.t)) (a t : string) (k : nat)
    (l0 l1 visited : list string) : Prop := mk_searching {
  sr_level : forall x, x ∈ l0 -> shortest ns a x k;
  sr_next : forall x, x ∈ l1 -> shortest ns a x (S k);
  sr_near : forall y n, walk ns a y n -> n <= k -> y ∈ visited;
  sr_seen : forall y,
    y ∈ visited ->
    y ∈ l0 \/ y ∈ l1
    \/ forall z, z ∈ DaemonSystem._neighbours ns y -> z ∈ visited;
  sr_target : t ∉ visited
}.

(** What [_distance] answers: the least number of hops, or 999 when no
    walk leads there. *)
Definition hop_count (ns : list (string * Node.t)) (a t : string) (d : Z)
    : Prop :=
  (exists k : nat, d = Z.of_nat k /\ shortest ns a t k)
  \/ (d = 999%Z /\ forall n, ~ walk ns a t n).

(* ===================================================================== *)
(** * Part II: properties                                                 *)
(* ===================================================================== *)

(** ** Facts on binary64 comparisons *)

Section FloatFacts.
Local Open Scope float_scope.

Lemma SFcompare_antisym (x y : spec_float) :
  SFcompare y x = option_map CompOpp (SFcompare x y).
Proof.
  destruct x as [[]|[]| |[] m e], y as [[]|[]| |[] m' e'];
    simpl; try reflexivity.
  all: rewrite (Z.compare_antisym e e');
    destruct (e ?= e')%Z; simpl; try reflexivity.
  all: change (Pos.compare_cont Eq m' m) with (Pos.compare m' m);
    change (Pos.compare_cont Eq m m') with (Pos.compare m m');
    rewrite (Pos.compare_antisym m m');
    destruct (m ?= m')%positive; reflexivity.
Qed.

Lemma SFcompare_None (x y : spec_float) :
  SFcompare x y = None -> x = S754_nan \/ y = S754_nan.
Proof.
  destruct x as [[]|[]| |[] m e], y as [[]|[]| |[] m' e'];
    simpl; intros E; try discriminate E; auto.
Qed.

Lemma is_number_not_nan (x : float) :
  is_number x -> Prim2SF x <> S754_nan.
Proof.
  unfold is_number. rewrite FloatAxioms.eqb_spec. intros E N. rewrite N in E.
  discriminate E.
Qed.

Lemma leb_is_number_l (x y : float) : (x <=? y) = true -> is_number x.
Proof.
  unfold is_number. rewrite FloatAxioms.leb_spec, FloatAxioms.eqb_spec. unfold SFleb, SFeqb.
  destruct (Prim2SF x) as [[]|[]| |[] m e], (Prim2SF y) as [[]|[]| |[] m' e'];
    simpl; try congruence.
  all: intros _; rewrite Z.compare_refl, Pos.compare_cont_refl; reflexivity.
Qed.

Lemma leb_is_number_r (x y : float) : (x <=? y) = true -> is_number y.
Proof.
  unfold is_number. rewrite FloatAxioms.leb_spec, FloatAxioms.eqb_spec. unfold SFleb, SFeqb.
  destruct (Prim2SF x) as [[]|[]| |[] m e], (Prim2SF y) as [[]|[]| |[] m' e'];
    simpl; try congruence.
  all: intros _; rewrite Z.compare_refl, Pos.compare_cont_refl; reflexivity.
Qed.

Lemma ltb_leb (x y : float) : (x <? y) = true -> (x <=? y) = true.
Proof.
  rewrite FloatAxioms.ltb_spec, FloatAxioms.leb_spec. unfold SFltb, SFleb.
  destruct (SFcompare _ _) as [[]|]; congruence.
Qed.

Lemma eqb_leb (x y : float) : (x =? y) = true -> (x <=? y) = true.
Proof.
  rewrite FloatAxioms.eqb_spec, FloatAxioms.leb_spec. unfold SFeqb, SFleb.
  destruct (SFcompare _ _) as [[]|]; congruence.
Qed.

Lemma ltb_not_leb (x y : float) : (x <? y) = true -> (y <=? x) = false.
Proof.
  rewrite FloatAxioms.ltb_spec, FloatAxioms.leb_spec. unfold SFltb, SFleb.
  rewrite (SFcompare_antisym (Prim2SF x) (Prim2SF y)).
  destruct (SFcompare _ _) as [[]|]; simpl; congruence.
Qed.

Lemma leb_not_ltb (x y : float) : (x <=? y) = true -> (y <? x) = false.
Proof.
  rewrite FloatAxioms.ltb_spec, FloatAxioms.leb_spec. unfold SFltb, SFleb.
  rewrite (SFcompare_antisym (Prim2SF x) (Prim2SF y)).
  destruct (SFcompare _ _) as [[]|]; simpl; congruence.
Qed.

(** On numbers the order is total. *)
Lemma not_leb_ltb (x y : float) :
  is_number x -> is_number y -> (x <=? y) = false -> (y <? x) = true.
Proof.
  intros Hx%is_number_not_nan Hy%is_number_not_nan.
  rewrite FloatAxioms.ltb_spec, FloatAxioms.leb_spec. unfold SFltb, SFleb.
  rewrite (SFcompare_antisym (Prim2SF x) (Prim2SF y)).
  destruct (SFcompare _ _) as [[]|] eqn:E; simpl; try congruence.
  destruct (SFcompare_None _ _ E); contradiction.
Qed.

Lemma not_ltb_leb (x y : float) :
  is_number x -> is_number y -> (x <? y) = false -> (y <=? x) = true.
Proof.
  intros Hx%is_number_not_nan Hy%is_number_not_nan.
  rewrite FloatAxioms.ltb_spec, FloatAxioms.leb_spec. unfold SFltb, SFleb.
  rewrite (SFcompare_antisym (Prim2SF x) (Prim2SF y)).
  destruct (SFcompare _ _) as [[]|] eqn:E; simpl; try congruence.
  destruct (SFcompare_None _ _ E); contradiction.
Qed.

(** The clamp [max(lo, min(hi, x))] of the source lands in [[lo, hi]]
    whatever [x] is, a NaN included. *)
Lemma clamp_bounds (lo hi x : float) :
  (lo <=? hi) = true ->
  (lo <=? Py.max lo (Py.min hi x)) = true
  /\ (Py.max lo (Py.min hi x) <=? hi) = true.
Proof.
  intros Hlh. unfold Py.max, Py.min.
  assert (Hlo : (lo <=? lo) = true)
    by (apply eqb_leb, (leb_is_number_l _ _ Hlh)).
  assert (Hhi : (hi <=? hi) = true)
    by (apply eqb_leb, (leb_is_number_r _ _ Hlh)).
  destruct (x <? hi) eqn:E1.
  - destruct (lo <? x) eqn:E2.
    + split; apply ltb_leb; assumption.
    + split; assumption.
  - destruct (lo <? hi) eqn:E2; split; assumption.
Qed.
End FloatFacts.

(** ** ResourceManager *)

Section ResourceManagerFacts.
Import Sys ResourceManager.
Local Open Scope float_scope.

Lemma slot_set_slot (r : Resource) (s : ResourceSlot) (rm : t) :
  slot r (set_slot r s rm) = s.
Proof. destruct r; reflexivity. Qed.

Lemma slot_set_slot_ne (r r' : Resource) (s : ResourceSlot) (rm : t) :
  r <> r' -> slot r' (set_slot r s rm) = slot r' rm.
Proof. destruct r, r'; intros Hne; try reflexivity; contradiction. Qed.

Lemma set_slot_set_slot (r : Resource) (s s' : ResourceSlot) (rm : t) :
  set_slot r s' (set_slot r s rm) = set_slot r s' rm.
Proof. destruct r; reflexivity. Qed.

Lemma posted_nil (q : EventQueue.t) : posted [] q = q.
Proof. destruct q; unfold posted; simpl. rewrite app_nil_r. reflexivity. Qed.

Lemma posted_posted (e1 e2 : list EventQueue.Event) (q : EventQueue.t) :
  posted e2 (posted e1 q) = posted (e1 ++ e2) q.
Proof. destruct q; unfold posted; simpl. rewrite app_assoc. reflexivity. Qed.

Lemma post_immediate_posted ty pl src (q : EventQueue.t) :
  EventQueue.post_immediate ty pl src q
  = posted [EventQueue.mkEvent ty pl EventQueue.IMMEDIATE src] q.
Proof. reflexivity. Qed.

(** [consume] when the funds suffice. *)
Lemma consume_enough (r : Resource) (amount : float) (src : string)
    (rm : t) (q : EventQueue.t) :
  (amount <? 0) = false ->
  (current (slot r rm) <? amount) = false ->
  let s' := mkSlot (current (slot r rm) - amount) (maximum (slot r rm)) in
  consume r amount src rm q =
    (Ok true, set_slot r s' rm,
     posted (changed_event r (- amount) src s'
              :: (if is_depleted s' then [depleted_event r src] else [])) q).
Proof.
  intros Hneg Hlt s'. unfold consume. rewrite Hneg.
  unfold bind, gets, modify, _post_changed, post_immediate, when, ret.
  cbn beta iota. rewrite Hlt. cbn beta iota. unfold bind, gets.
  rewrite slot_set_slot. fold s'.
  destruct (is_depleted s'); cbn beta iota;
    rewrite !post_immediate_posted, ?posted_posted; reflexivity.
Qed.

Lemma consume_short (r : Resource) (amount : float) (src : string)
    (rm : t) (q : EventQueue.t) :
  (amount <? 0) = false ->
  (current (slot r rm) <? amount) = true ->
  consume r amount src rm q = (Ok false, rm, q).
Proof.
  intros Hneg Hlt. unfold consume. rewrite Hneg.
  unfold bind, gets, ret. cbn beta iota. rewrite Hlt. reflexivity.
Qed.

Lemma consume_negative (r : Resource) (amount : float) (src : string)
    (rm : t) (q : EventQueue.t) :
  (amount <? 0) = true ->
  consume r amount src rm q = (Raise ValueError, rm, q).
Proof. intros Hneg. unfold consume. rewrite Hneg. reflexivity. Qed.

Lemma restore_ok (r : Resource) (amount : float) (src : string)
    (rm : t) (q : EventQueue.t) :
  (amount <? 0) = false ->
  let s := slot r rm in
  let actual_gain := Py.min amount (maximum s - current s) in
  let s' := mkSlot (current s + actual_gain) (maximum s) in
  restore r amount src rm q =
    (Ok tt, set_slot r s' rm,
     posted (if Py.gtb actual_gain 0
             then [changed_event r actual_gain src s'] else []) q).
Proof.
  intros Hneg s g s'. unfold restore. rewrite Hneg.
  unfold bind, gets, modify, when. cbn beta iota. fold s g s'.
  destruct (Py.gtb g 0).
  - unfold _post_changed, bind, gets, post_immediate. cbn beta iota.
    rewrite slot_set_slot. reflexivity.
  - unfold ret. rewrite posted_nil. reflexivity.
Qed.

Lemma set_maximum_ok (r : Resource) (new_max : float)
    (rm : t) (q : EventQueue.t) :
  (new_max <=? 0) = false ->
  let s' := mkSlot (Py.min (current (slot r rm)) new_max) new_max in
  set_maximum r new_max rm q =
    (Ok tt, set_slot r s' rm,
     posted [changed_event r 0.0 "Upgrade" s'] q).
Proof.
  intros Hpos s'. unfold set_maximum. rewrite Hpos.
  unfold bind, gets, modify, _post_changed, post_immediate.
  cbn beta iota. unfold bind, gets. cbn beta iota.
  rewrite !slot_set_slot, !set_slot_set_slot. reflexivity.
Qed.
End ResourceManagerFacts.

Section ResourceManagerClaims.
Import Sys ResourceManager.
Local Open Scope float_scope.

(** C2.  For every resource kind and every non-negative amount: if the
    gauge's current is at least the amount, [consume] returns [True] and
    decreases that gauge's current by exactly the amount (the other gauges
    and the maximum stay as they are); otherwise (the current is a number
    and is not at least the amount) it returns [False] and leaves the
    manager and the queue unchanged; and a successful consume that brings
    the current exactly to zero also posts a resource-depleted event. *)
Theorem consume_all_or_nothing (r : Resource) (amount : float)
    (src : string) (rm : t) (q : EventQueue.t) :
  (0 <=? amount) = true ->
  let cur := current (slot r rm) in
  ((amount <=? cur) = true ->
     exists evs,
       consume r amount src rm q =
         (Ok true,
          set_slot r (mkSlot (cur - amount) (maximum (slot r rm))) rm,
          posted evs q)
       /\ ((cur - amount =? 0) = true -> depleted_event r src ∈ evs))
  /\ ((amount <=? cur) = false -> is_number cur ->
        consume r amount src rm q = (Ok false, rm, q)).
Proof.
  intros Hnonneg cur.
  assert (Hneg : (amount <? 0) = false) by (apply leb_not_ltb, Hnonneg).
  split.
  - intros Hge. eexists. split.
    + apply consume_enough; [exact Hneg | apply leb_not_ltb, Hge].
    + intros Hz. unfold is_depleted. cbn [current].
      fold cur. rewrite (eqb_leb _ _ Hz). repeat constructor.
  - intros Hlt Hnum. apply consume_short; [exact Hneg |].
    apply not_leb_ltb; [exact (leb_is_number_r _ _ Hnonneg) | exact Hnum
                       | exact Hlt].
Qed.

Lemma consume_all_or_nothing_witness :
  let rm := init 100 50 80 1 in
  (exists evs,
      consume POWER 100 "ScanCommand" rm EventQueue.init =
        (Ok true, set_slot POWER (mkSlot (100 - 100) 100) rm,
         posted evs EventQueue.init)
      /\ ((100 - 100 =? 0) = true -> depleted_event POWER "ScanCommand" ∈ evs))
  /\ consume MEMORY 60 "ArtifactSystem" rm EventQueue.init
     = (Ok false, rm, EventQueue.init).
Proof.
  intros rm. split.
  - apply (consume_all_or_nothing POWER 100 "ScanCommand" rm EventQueue.init);
      reflexivity.
  - apply (consume_all_or_nothing MEMORY 60 "ArtifactSystem" rm
             EventQueue.init); reflexivity.
Defined.

(** C9, as stated, fails: a restore with a positive amount on a gauge that is
    already at its maximum succeeds and posts no event. *)
Lemma restore_at_maximum_posts_nothing :
  Py.gtb 5 0 = true
  /\ current (slot MEMORY (init 100 50 80 1))
     = maximum (slot MEMORY (init 100 50 80 1))
  /\ restore MEMORY 5 "UpgradeSystem" (init 100 50 80 1) EventQueue.init
     = (Ok tt, init 100 50 80 1, EventQueue.init).
Proof. repeat split; reflexivity. Qed.

(** C9, amended.  Every successful [consume] and every [set_maximum] (a
    zero-delta change) posts a resource-changed event that carries the ratio
    current/maximum of the gauge as it results; a [restore] posts it exactly
    when its actual gain [min(amount, maximum - current)] is positive, so a
    restore on a gauge already at its maximum posts no event. *)
Theorem changed_event_carries_resulting_ratio (r : Resource)
    (amount : float) (src : string) (rm : t) (q : EventQueue.t) :
  (forall rm' q', consume r amount src rm q = (Ok true, rm', q') ->
     exists tail,
       q' = posted (changed_event r (- amount) src (slot r rm') :: tail) q)
  /\ (forall rm' q', restore r amount src rm q = (Ok tt, rm', q') ->
       let gain :=
         Py.min amount (maximum (slot r rm) - current (slot r rm)) in
       q' = posted (if Py.gtb gain 0
                    then [changed_event r gain src (slot r rm')]
                    else []) q)
  /\ (forall rm' q', set_maximum r amount rm q = (Ok tt, rm', q') ->
       q' = posted [changed_event r 0 "Upgrade" (slot r rm')] q)
  /\ (forall delta s,
       Py.get (EventQueue.payload (changed_event r delta src s)) "ratio"
       = Some (Py.VFloat (ratio s))).
Proof.
  repeat split.
  - intros rm' q' E. destruct (amount <? 0) eqn:Hneg.
    + rewrite consume_negative in E by exact Hneg. discriminate E.
    + destruct (current (slot r rm) <? amount) eqn:Hlt.
      * rewrite consume_short in E by assumption. discriminate E.
      * rewrite consume_enough in E by assumption.
        injection E as <- <-. rewrite slot_set_slot. eexists. reflexivity.
  - intros rm' q' E gain. destruct (amount <? 0) eqn:Hneg.
    + unfold restore in E. rewrite Hneg in E. discriminate E.
    + rewrite restore_ok in E by exact Hneg.
      injection E as <- <-. rewrite slot_set_slot. reflexivity.
  - intros rm' q' E. destruct (amount <=? 0) eqn:Hpos.
    + unfold set_maximum in E. rewrite Hpos in E. discriminate E.
    + rewrite set_maximum_ok in E by exact Hpos.
      injection E as <- <-. rewrite slot_set_slot. reflexivity.
Qed.

Lemma changed_event_carries_resulting_ratio_witness :
  exists tail,
    (consume POWER 10 "ScanCommand" (init 100 50 80 1) EventQueue.init).2
    = posted (changed_event POWER (- 10) "ScanCommand" (mkSlot 90 100)
               :: tail) EventQueue.init.
Proof.
  destruct (changed_event_carries_resulting_ratio POWER 10 "ScanCommand"
              (init 100 50 80 1) EventQueue.init) as (Hc & _).
  exact (Hc (set_slot POWER (mkSlot 90 100) (init 100 50 80 1)) _ eq_refl).
Defined.
End ResourceManagerClaims.

(** ** Filesystem *)

Section DictFacts.
Context {V : Type}.

Lemma get_app_not_in (d : list (string * V)) (k : string) (v : V) :
  Py.get d k = None -> Py.get (d ++ [(k, v)]) k = Some v.
Proof.
  induction d as [|[k' v'] d IH]; simpl.
  - intros _. rewrite decide_True by reflexivity. reflexivity.
  - destruct (decide (k' = k)); [discriminate | exact IH].
Qed.
End DictFacts.

Section FilesystemFacts.
Import Sys Filesystem.
Local Open Scope float_scope.

Lemma get_alter_node (f : Node.t -> Node.t) (key k : string)
    (ns : list (string * Node.t)) :
  Py.get (alter_node f key ns) k
  = if decide (key = k) then f <$> Py.get ns k else Py.get ns k.
Proof.
  induction ns as [|[k' n] ns IH]; simpl.
  - destruct (decide (key = k)); reflexivity.
  - destruct (decide (k' = key)) as [->|Hne]; simpl.
    + destruct (decide (key = k)); reflexivity.
    + destruct (decide (k' = k)) as [->|Hne'].
      * rewrite decide_False by (intros E; apply Hne; symmetry; exact E).
        reflexivity.
      * exact IH.
Qed.

Lemma keys_alter_node (f : Node.t -> Node.t) (key : string)
    (ns : list (string * Node.t)) :
  Py.keys (alter_node f key ns) = Py.keys ns.
Proof.
  unfold Py.keys. induction ns as [|[k' n] ns IH]; simpl; [reflexivity |].
  destruct (decide (k' = key)); simpl; [reflexivity | rewrite IH; reflexivity].
Qed.

Lemma child_by_name_in_get (ns : list (string * Node.t)) (name : string)
    (cids : list string) (key : string) (target : Node.t) :
  child_by_name_in ns name cids = Some (key, target) ->
  key ∈ cids /\ Py.get ns key = Some target /\ Node.name target = name.
Proof.
  induction cids as [|cid cids IH]; simpl; [discriminate |].
  destruct (Py.get ns cid) as [child|] eqn:G.
  - destruct (decide (Node.name child = name)) as [Hn|Hn].
    + intros [= <- <-]. repeat split; [left | exact G | exact Hn].
    + intros E. destruct (IH E) as (? & ? & ?).
      repeat split; [right | |]; assumption.
  - intros E. destruct (IH E) as (? & ? & ?).
    repeat split; [right | |]; assumption.
Qed.

(** [for_values] with a body that returns and whose effect on an object and
    on the queue is given by [f] and [ev]. *)
Lemma for_values_total {K V : Type} (body : M V unit) (f : V -> V)
    (ev : V -> list EventQueue.Event) :
  (forall v q, body v q = (Ok tt, f v, posted (ev v) q)) ->
  forall (d : list (K * V)) q,
    for_values body d q =
      (Ok tt, map (fun kv => (kv.1, f kv.2)) d,
       posted (flat_map (fun kv => ev kv.2) d) q).
Proof.
  intros Hbody d. induction d as [|[k v] d IH]; intros q; simpl.
  - rewrite posted_nil. reflexivity.
  - rewrite Hbody, IH, posted_posted. reflexivity.
Qed.

Lemma tick_node_spec (n : Node.t) (q : EventQueue.t) :
  tick_node n q = (Ok tt, ticked n, posted (tick_events n) q).
Proof.
  unfold tick_node, ticked, tick_events, bind, get, modify, ret.
  cbn beta iota.
  destruct (decide (Node.visibility n = Node.HIDDEN)) as [Hh|Hh].
  - rewrite posted_nil. reflexivity.
  - cbn beta iota. unfold ticked. rewrite decide_False by exact Hh.
    destruct (first_crossed _ _ _).
    + reflexivity.
    + unfold ret. rewrite posted_nil. reflexivity.
Qed.

(** [first_crossed] returns the first boundary of the list that is crossed. *)
Lemma first_crossed_Some (ts : list float) (before after t : float) :
  first_crossed ts before after = Some t <->
  exists pre post,
    ts = pre ++ t :: post /\ crosses before after t
    /\ forall t', t' ∈ pre -> ~ crosses before after t'.
Proof.
  unfold crosses. induction ts as [|t0 ts IH]; simpl.
  - split; [discriminate |]. intros (pre & post & E & _).
    destruct pre; discriminate E.
  - destruct ((before <? t0) && (t0 <=? after)) eqn:C.
    + apply andb_true_iff in C. split.
      * intros [= <-]. exists [], ts. repeat split; try tauto.
        intros t' Hin. inversion Hin.
      * intros (pre & post & E & Hc & Hpre). destruct pre as [|p pre].
        -- injection E as ->. reflexivity.
        -- injection E as -> ->. exfalso. apply (Hpre p); [left | exact C].
    + rewrite IH. split.
      * intros (pre & post & -> & Hc & Hpre).
        exists (t0 :: pre), post. repeat split; try tauto.
        intros t' [->|Hin]%elem_of_cons; [| apply Hpre, Hin].
        intros [C1 C2]. rewrite C1, C2 in C. discriminate C.
      * intros (pre & post & E & Hc & Hpre). destruct pre as [|p pre].
        -- injection E as -> ->. destruct Hc as [C1 C2].
           rewrite C1, C2 in C. discriminate C.
        -- injection E as -> ->. exists pre, post. repeat split; try tauto.
           intros t' Hin. apply Hpre. right. exact Hin.
Qed.

Lemma first_crossed_None (ts : list float) (before after : float) :
  first_crossed ts before after = None <->
  forall t, t ∈ ts -> ~ crosses before after t.
Proof.
  unfold crosses. induction ts as [|t0 ts IH]; simpl.
  - split; [| reflexivity]. intros _ t Hin. inversion Hin.
  - destruct ((before <? t0) && (t0 <=? after)) eqn:C.
    + apply andb_true_iff in C. split; [discriminate |].
      intros Hn. exfalso. apply (Hn t0); [left | exact C].
    + rewrite IH. split.
      * intros Hn t [->|Hin]%elem_of_cons; [| apply Hn, Hin].
        intros [C1 C2]. rewrite C1, C2 in C. discriminate C.
      * intros Hn t Hin. apply Hn. right. exact Hin.
Qed.
End FilesystemFacts.

Section FilesystemClaims.
Import Sys Filesystem.
Local Open Scope float_scope.


(** The test of the specification: a visible node going from 0.24 to 0.26
    posts exactly one event, for the boundary 0.25. *)
Example tick_from_024_posts_once :
  let n := Node.mk "memo.doc" Node.FILE "n1" (Some "root"%string) [] 0.24
             Node.DETECTED None [] in
  Node.corruption (ticked n) = 0.24 + 0.02
  /\ tick_events n = [corrupted_event (ticked n) 0.25].
Proof. split; reflexivity. Qed.

(** C10.  Whenever [change_directory] raises (the name is that of no child,
    the child is HIDDEN or is not a directory, [".."] at the root, or a
    dangling id), the exception is a [FilesystemError] and the filesystem
    (the working directory and every node) and the queue are as before the
    call. *)
Theorem change_directory_failure_changes_nothing (name : string) (fs fs' : t)
    (q q' : EventQueue.t) (e : Exc) :
  change_directory name fs q = (Raise e, fs', q') ->
  fs' = fs /\ q' = q /\ exists why, e = FilesystemError why.
Proof.
  unfold change_directory, cwd, _node, _child_by_name, bind, gets, ret,
    raise, modify.
  cbn beta iota.
  destruct (Py.get (_nodes fs) (_cwd_id fs)) as [cwd_node|];
    cbn beta iota; [| intros [= <- <- <-]; eauto].
  destruct (decide (name = "..")) as [->|Hname]; cbn beta iota.
  - destruct (Node.parent_id cwd_node) as [pid|]; cbn beta iota;
      [| intros [= <- <- <-]; eauto].
    destruct (Py.get (_nodes fs) pid); cbn beta iota;
      [discriminate | intros [= <- <- <-]; eauto].
  - destruct (child_by_name_in _ _ _) as [[key target]|]; cbn beta iota;
      [| intros [= <- <- <-]; eauto].
    destruct (decide (Node.visibility target = Node.HIDDEN)); cbn beta iota;
      [intros [= <- <- <-]; eauto |].
    destruct (negb (Node.is_directory target)); cbn beta iota;
      [intros [= <- <- <-]; eauto | discriminate].
Qed.

Lemma change_directory_failure_changes_nothing_witness :
  change_directory "cache" sample_fs EventQueue.init
  = (Raise (FilesystemError (NotVisible "cache")), sample_fs, EventQueue.init)
  /\ (sample_fs = sample_fs /\ EventQueue.init = EventQueue.init
      /\ exists why, FilesystemError (NotVisible "cache") = FilesystemError why).
Proof.
  split; [reflexivity |].
  apply (change_directory_failure_changes_nothing "cache" sample_fs sample_fs
           EventQueue.init EventQueue.init
           (FilesystemError (NotVisible "cache"))).
  reflexivity.
Defined.

(** C3, as stated, fails: a scan of an already-REVEALED node is not silent.
    It posts a scan-complete event and, on a FILE that carries an artifact,
    an artifact-found event again, while the filesystem stays as it is. *)
Lemma scan_of_revealed_node_posts_events :
  Node.visibility sample_readme = Node.REVEALED
  /\ scan "readme.txt" sample_fs EventQueue.init
     = (Ok sample_readme, sample_fs,
        posted [artifact_found_event sample_readme;
                scan_complete_event sample_readme] EventQueue.init).
Proof. split; reflexivity. Qed.

(** C3, amended.  For the child of the current directory that the name
    resolves to, [scan] advances the visibility by exactly one step,
    HIDDEN to DETECTED or DETECTED to REVEALED, and never decreases it;
    nothing else in the filesystem changes.  On an already-REVEALED node the
    filesystem is left as it is and no node-revealed event is posted.
    Whenever the node is REVEALED after the scan and is a FILE that carries
    an artifact, an artifact-found event is posted; and a scan-complete
    event is always posted, as the last one. *)
Theorem scan_advances_visibility_one_step (name : string) (fs : t)
    (q : EventQueue.t) (cwd_node : Node.t) (key : string) (target : Node.t) :
  Py.get (_nodes fs) (_cwd_id fs) = Some cwd_node ->
  child_by_name_in (_nodes fs) name (Node.children_ids cwd_node)
  = Some (key, target) ->
  let previous := Node.visibility target in
  let target' := Node.set_visibility (scan_step previous) target in
  let fs' :=
    if decide (previous = Node.REVEALED) then fs
    else set_nodes
           (alter_node (Node.set_visibility (scan_step previous)) key
              (_nodes fs)) fs in
  scan name fs q = (Ok target', fs', posted (scan_events previous target') q)
  /\ Py.get (_nodes fs') key = Some target'
  /\ (forall k, k <> key -> Py.get (_nodes fs') k = Py.get (_nodes fs) k)
  /\ Py.keys (_nodes fs') = Py.keys (_nodes fs)
  /\ _cwd_id fs' = _cwd_id fs
  /\ visibility_rank (Node.visibility target')
     = Nat.min 2 (S (visibility_rank previous))
  /\ visibility_rank previous <= visibility_rank (Node.visibility target')
  /\ (previous = Node.REVEALED ->
      fs' = fs /\ target' = target
      /\ revealed_event target' ∉ scan_events previous target')
  /\ (previous <> Node.REVEALED ->
      revealed_event target' ∈ scan_events previous target')
  /\ (Node.visibility target' = Node.REVEALED ->
      Node.node_type target = Node.FILE ->
      Node.artifact_id target <> None ->
      artifact_found_event target' ∈ scan_events previous target')
  /\ exists evs,
      scan_events previous target' = evs ++ [scan_complete_event target'].
Proof.
  intros Hcwd Hchild previous target' fs'.
  destruct (child_by_name_in_get _ _ _ _ _ Hchild) as (_ & Hget & _).
  assert (Hrun : scan name fs q
                 = (Ok target', fs', posted (scan_events previous target') q)).
  { unfold scan, cwd, _node, _child_by_name, bind, gets, ret.
    cbn beta iota. rewrite Hcwd. cbn beta iota. rewrite Hchild.
    cbn beta iota. fold previous. fold target'.
    unfold scan_events, fs', target', Node.is_file, Node.has_artifact.
    destruct target as [nm ty id pid cs c v a md]. cbn in previous.
    subst previous.
    unfold mutate, modify, when, post_immediate, bind, ret.
    destruct q as [pend dfr subs trn fl].
    destruct v, ty, a; cbn;
      repeat case_bool_decide; repeat case_decide; try congruence;
      try (exfalso; intuition congruence); cbn;
      unfold posted, EventQueue.post_immediate, EventQueue.post,
        EventQueue.set_pending; cbn;
      rewrite ?app_nil_r, <- ?app_assoc; reflexivity. }
  split; [exact Hrun |].
  assert (Hkey : Py.get (_nodes fs') key = Some target').
  { unfold fs'. destruct (decide (previous = Node.REVEALED)) as [Hr|Hr].
    - rewrite Hget. unfold target'. rewrite Hr. f_equal.
      destruct target; cbn in *. subst previous. rewrite Hr. reflexivity.
    - cbn. rewrite get_alter_node, decide_True by reflexivity.
      rewrite Hget. reflexivity. }
  split; [exact Hkey |].
  split.
  { intros k Hk. unfold fs'. destruct (decide (previous = Node.REVEALED));
      [reflexivity |].
    cbn. rewrite get_alter_node, decide_False by (intros E; apply Hk; auto).
    reflexivity. }
  split.
  { unfold fs'. destruct (decide (previous = Node.REVEALED)); [reflexivity |].
    cbn. apply keys_alter_node. }
  split.
  { unfold fs'. destruct (decide (previous = Node.REVEALED)); reflexivity. }
  split; [unfold target', previous; cbn;
          destruct (Node.visibility target); reflexivity |].
  split; [unfold target', previous; cbn;
          destruct (Node.visibility target); cbn; lia |].
  split.
  { intros Hr. unfold fs'. rewrite decide_True by exact Hr.
    assert (Ht : target' = target).
    { unfold target'. rewrite Hr. destruct target; cbn in *.
      subst previous. rewrite Hr. reflexivity. }
    repeat split; [exact Ht |].
    unfold scan_events. rewrite Ht. fold previous.
    rewrite decide_True by reflexivity. cbn.
    intros Hin. apply elem_of_app in Hin as [Hin|Hin].
    - case_decide; [apply list_elem_of_singleton in Hin; discriminate Hin
                   | inversion Hin].
    - apply list_elem_of_singleton in Hin. discriminate Hin. }
  split.
  { intros Hr. unfold scan_events. rewrite decide_False; [left |].
    unfold target', previous in *. cbn.
    destruct (Node.visibility target); cbn; congruence. }
  split.
  { intros Hv Hty Ha. unfold scan_events. apply elem_of_app. right.
    rewrite decide_True
      by (repeat split; [exact Hv | exact Hty | exact Ha]).
    left. }
  unfold scan_events. eexists. rewrite app_assoc. reflexivity.
Qed.

Lemma scan_advances_visibility_one_step_witness :
  scan "memo.doc" sample_fs EventQueue.init
  = (Ok (Node.set_visibility Node.DETECTED sample_memo),
     set_nodes (alter_node (Node.set_visibility Node.DETECTED) "id-memo"
                  (_nodes sample_fs)) sample_fs,
     posted (scan_events Node.HIDDEN
               (Node.set_visibility Node.DETECTED sample_memo))
            EventQueue.init).
Proof.
  exact (proj1 (scan_advances_visibility_one_step "memo.doc" sample_fs
                  EventQueue.init sample_root "id-memo" sample_memo
                  eq_refl eq_refl)).
Defined.
End FilesystemClaims.

(** ** ArtifactSystem *)

Section ArtifactFacts.
Import Sys ArtifactSystem.
Local Open Scope float_scope.

Lemma get_alter_artifact (f : Artifact.t -> Artifact.t) (key k : string)
    (d : list (string * Artifact.t)) :
  Py.get (alter_artifact f key d) k
  = if decide (key = k) then f <$> Py.get d k else Py.get d k.
Proof.
  induction d as [|[k' a] d IH]; simpl.
  - destruct (decide (key = k)); reflexivity.
  - destruct (decide (k' = key)) as [->|Hne]; simpl.
    + destruct (decide (key = k)); reflexivity.
    + destruct (decide (k' = k)) as [->|Hne'].
      * rewrite decide_False by (intros E; apply Hne; symmetry; exact E).
        reflexivity.
      * exact IH.
Qed.

Lemma keys_alter_artifact (f : Artifact.t -> Artifact.t) (key : string)
    (d : list (string * Artifact.t)) :
  Py.keys (alter_artifact f key d) = Py.keys d.
Proof.
  unfold Py.keys. induction d as [|[k' a] d IH]; simpl; [reflexivity |].
  destruct (decide (k' = key)); simpl; [reflexivity | rewrite IH; reflexivity].
Qed.

(** The consume of the memory cost never raises: it fails and changes
    nothing, or succeeds and takes the cost off the memory gauge. *)
Lemma consume_memory_cost (rm : ResourceManager.t) (q : EventQueue.t) :
  let mem := ResourceManager.slot ResourceManager.MEMORY rm in
  ((ResourceManager.current mem <? Artifact.MEMORY_COST) = true
   /\ ResourceManager.consume ResourceManager.MEMORY Artifact.MEMORY_COST
        "ArtifactSystem" rm q = (Ok false, rm, q))
  \/ ((ResourceManager.current mem <? Artifact.MEMORY_COST) = false
      /\ exists evs,
          ResourceManager.consume ResourceManager.MEMORY Artifact.MEMORY_COST
            "ArtifactSystem" rm q =
            (Ok true,
             ResourceManager.set_slot ResourceManager.MEMORY
               (ResourceManager.mkSlot
                  (ResourceManager.current mem - Artifact.MEMORY_COST)
                  (ResourceManager.maximum mem)) rm,
             posted evs q)).
Proof.
  intros mem.
  destruct (ResourceManager.current mem <? Artifact.MEMORY_COST) eqn:E.
  - left. split; [reflexivity |]. apply consume_short; [reflexivity | exact E].
  - right. split; [reflexivity |]. eexists.
    apply consume_enough; [reflexivity | exact E].
Qed.
End ArtifactFacts.

Section ArtifactClaims.
Import Sys ArtifactSystem.
Local Open Scope float_scope.
Variable round1 : float -> float.

(** C6.  [collect] succeeds only when the artifact exists, is FOUND and the
    consume of the fixed memory cost on the memory gauge succeeds.  On
    success the artifact gets [condition = max(0.01, 1 - node_corruption)],
    [sell_value = round(base value * rarity multiplier * condition, 1)] and
    the state COLLECTED.  On failure (unknown id, wrong state, insufficient
    memory) it returns [False] and neither the artifacts, nor the gauges,
    nor the currency change; the insufficient-memory path, and only it,
    posts the reconstruction-failed event. *)
Theorem collect_needs_found_and_memory (artifact_id : string)
    (node_corruption : float) (sys : t) (q : EventQueue.t) :
  (Py.get (_artifacts sys) artifact_id = None ->
     collect round1 artifact_id node_corruption sys q = (Ok false, sys, q))
  /\ (forall a, Py.get (_artifacts sys) artifact_id = Some a ->
        Artifact.state a <> Artifact.FOUND ->
        collect round1 artifact_id node_corruption sys q = (Ok false, sys, q))
  /\ (forall a, Py.get (_artifacts sys) artifact_id = Some a ->
        Artifact.state a = Artifact.FOUND ->
        ResourceManager.consume ResourceManager.MEMORY Artifact.MEMORY_COST
          "ArtifactSystem" (_rm sys) q = (Ok false, _rm sys, q) ->
        collect round1 artifact_id node_corruption sys q
        = (Ok false, sys, posted [reconstruct_failed_event artifact_id] q))
  /\ (forall a rm' q1, Py.get (_artifacts sys) artifact_id = Some a ->
        Artifact.state a = Artifact.FOUND ->
        ResourceManager.consume ResourceManager.MEMORY Artifact.MEMORY_COST
          "ArtifactSystem" (_rm sys) q = (Ok true, rm', q1) ->
        let a' := collected round1 node_corruption a in
        let sys' :=
          mk rm' (alter_artifact (collected round1 node_corruption)
                    artifact_id (_artifacts sys)) (_currency sys) in
        collect round1 artifact_id node_corruption sys q
        = (Ok true, sys', posted [reconstruct_ok_event artifact_id a'] q1)
        /\ Py.get (_artifacts sys') artifact_id = Some a'
        /\ (forall k, k <> artifact_id ->
              Py.get (_artifacts sys') k = Py.get (_artifacts sys) k)
        /\ Artifact.condition a' = Py.max 0.01 (1.0 - node_corruption)
        /\ Artifact.sell_value a'
           = round1 (_BASE_VALUE
                     * Artifact.value_multiplier (Artifact.rarity a)
                     * Artifact.condition a')
        /\ Artifact.state a' = Artifact.COLLECTED)
  /\ (forall sys' q',
        collect round1 artifact_id node_corruption sys q = (Ok true, sys', q') ->
        exists a rm' q1,
          Py.get (_artifacts sys) artifact_id = Some a
          /\ Artifact.state a = Artifact.FOUND
          /\ ResourceManager.consume ResourceManager.MEMORY
               Artifact.MEMORY_COST "ArtifactSystem" (_rm sys) q
             = (Ok true, rm', q1))
  /\ (forall b sys' q',
        collect round1 artifact_id node_corruption sys q = (Ok b, sys', q') ->
        b = false -> sys' = sys)
  /\ (exists b sys' q',
        collect round1 artifact_id node_corruption sys q = (Ok b, sys', q')).
Proof.
  assert (Hnone : Py.get (_artifacts sys) artifact_id = None ->
            collect round1 artifact_id node_corruption sys q
            = (Ok false, sys, q)).
  { intros E. unfold collect, bind, gets, ret. cbn beta iota. rewrite E.
    reflexivity. }
  assert (Hstate : forall a, Py.get (_artifacts sys) artifact_id = Some a ->
            Artifact.state a <> Artifact.FOUND ->
            collect round1 artifact_id node_corruption sys q
            = (Ok false, sys, q)).
  { intros a E Hs. unfold collect, bind, gets, ret. cbn beta iota. rewrite E.
    rewrite bool_decide_eq_false_2 by exact Hs. reflexivity. }
  assert (Hmem : forall a, Py.get (_artifacts sys) artifact_id = Some a ->
            Artifact.state a = Artifact.FOUND ->
            ResourceManager.consume ResourceManager.MEMORY
              Artifact.MEMORY_COST "ArtifactSystem" (_rm sys) q
            = (Ok false, _rm sys, q) ->
            collect round1 artifact_id node_corruption sys q
            = (Ok false, sys, posted [reconstruct_failed_event artifact_id] q)).
  { intros a E Hs Hc. unfold collect, bind, gets, ret, zoom, post_immediate.
    cbn beta iota. rewrite E.
    rewrite bool_decide_eq_true_2 by exact Hs. cbn [negb]. cbn beta iota.
    rewrite Hc. cbn. destruct sys; reflexivity. }
  assert (Hok : forall a rm' q1,
            Py.get (_artifacts sys) artifact_id = Some a ->
            Artifact.state a = Artifact.FOUND ->
            ResourceManager.consume ResourceManager.MEMORY
              Artifact.MEMORY_COST "ArtifactSystem" (_rm sys) q
            = (Ok true, rm', q1) ->
            collect round1 artifact_id node_corruption sys q
            = (Ok true,
               mk rm' (alter_artifact (collected round1 node_corruption)
                         artifact_id (_artifacts sys)) (_currency sys),
               posted [reconstruct_ok_event artifact_id
                         (collected round1 node_corruption a)] q1)).
  { intros a rm' q1 E Hs Hc.
    unfold collect, bind, gets, ret, zoom, post_immediate, mutate, modify.
    cbn beta iota. rewrite E.
    rewrite bool_decide_eq_true_2 by exact Hs. cbn [negb]. cbn beta iota.
    rewrite Hc. reflexivity. }
  split; [exact Hnone |]. split; [exact Hstate |]. split; [exact Hmem |].
  split.
  { intros a rm' q1 E Hs Hc a' sys'. split; [exact (Hok a rm' q1 E Hs Hc) |].
    split.
    { cbn. rewrite get_alter_artifact, decide_True by reflexivity.
      rewrite E. reflexivity. }
    split.
    { intros k Hk. cbn.
      rewrite get_alter_artifact, decide_False by (intros <-; apply Hk; auto).
      reflexivity. }
    repeat split. }
  assert (Hcases :
    (exists sys' q', collect round1 artifact_id node_corruption sys q
                     = (Ok false, sys', q') /\ sys' = sys)
    \/ (exists a rm' q1 sys' q',
          Py.get (_artifacts sys) artifact_id = Some a
          /\ Artifact.state a = Artifact.FOUND
          /\ ResourceManager.consume ResourceManager.MEMORY
               Artifact.MEMORY_COST "ArtifactSystem" (_rm sys) q
             = (Ok true, rm', q1)
          /\ collect round1 artifact_id node_corruption sys q
             = (Ok true, sys', q'))).
  { destruct (Py.get (_artifacts sys) artifact_id) as [a|] eqn:E.
    - destruct (decide (Artifact.state a = Artifact.FOUND)) as [Hs|Hs].
      + destruct (consume_memory_cost (_rm sys) q) as [[_ Hc]|[_ [evs Hc]]].
        * left. do 2 eexists. split; [apply (Hmem a eq_refl Hs Hc) |].
          reflexivity.
        * right. do 5 eexists. repeat split; [exact Hs | exact Hc |].
          apply (Hok a _ _ eq_refl Hs Hc).
      + left. do 2 eexists. split; [apply (Hstate a eq_refl Hs) |].
        reflexivity.
    - left. do 2 eexists. split; [apply (Hnone eq_refl) | reflexivity]. }
  split.
  { intros sys' q' Hrun.
    destruct Hcases as [(s1 & q1 & Hr & _)|(a & rm' & q1 & s1 & q2 & H)].
    - rewrite Hr in Hrun. discriminate Hrun.
    - exists a, rm', q1. tauto. }
  split.
  { intros b sys' q' Hrun ->.
    destruct Hcases as [(s1 & q1 & Hr & Hs)|(a & rm' & q1 & s1 & q2 & H)].
    - rewrite Hr in Hrun. injection Hrun as <- <-. exact Hs.
    - destruct H as (_ & _ & _ & Hr). rewrite Hr in Hrun. discriminate Hrun. }
  destruct Hcases as [(s1 & q1 & Hr & _)|(a & rm' & q1 & s1 & q2 & H)].
  - eauto.
  - destruct H as (_ & _ & _ & Hr). eauto.
Qed.

(** C7.  [sell] on a COLLECTED artifact sets its state to SOLD, adds its
    sell value to the currency, zeroes the sell value, gives the fixed memory
    cost back to the memory gauge (a [restore], which stops at the maximum),
    posts the sale event and returns the value earned; for an unknown id or
    an artifact in any other state it returns 0.0 and changes nothing. *)
Theorem sell_only_collected (artifact_id : string) (sys : t)
    (q : EventQueue.t) :
  (forall a, Py.get (_artifacts sys) artifact_id = Some a ->
     Artifact.state a = Artifact.COLLECTED ->
     let earned := Artifact.sell_value a in
     let mem := ResourceManager.slot ResourceManager.MEMORY (_rm sys) in
     let gain :=
       Py.min Artifact.MEMORY_COST
         (ResourceManager.maximum mem - ResourceManager.current mem) in
     let rm' :=
       ResourceManager.set_slot ResourceManager.MEMORY
         (ResourceManager.mkSlot (ResourceManager.current mem + gain)
            (ResourceManager.maximum mem)) (_rm sys) in
     let sys' :=
       mk rm' (alter_artifact sold artifact_id (_artifacts sys))
          (_currency sys + earned) in
     ResourceManager.restore ResourceManager.MEMORY Artifact.MEMORY_COST
       "ArtifactSystem" (_rm sys) q
     = (Ok tt, rm',
        posted (if Py.gtb gain 0
                then [changed_event ResourceManager.MEMORY gain
                        "ArtifactSystem"
                        (ResourceManager.slot ResourceManager.MEMORY rm')]
                else []) q)
     /\ sell artifact_id sys q
        = (Ok earned, sys',
           posted ((if Py.gtb gain 0
                    then [changed_event ResourceManager.MEMORY gain
                            "ArtifactSystem"
                            (ResourceManager.slot ResourceManager.MEMORY rm')]
                    else [])
                   ++ [sale_event artifact_id a earned]) q)
     /\ Py.get (_artifacts sys') artifact_id = Some (sold a)
     /\ (forall k, k <> artifact_id ->
           Py.get (_artifacts sys') k = Py.get (_artifacts sys) k)
     /\ Artifact.state (sold a) = Artifact.SOLD
     /\ Artifact.sell_value (sold a) = 0.0
     /\ _currency sys' = _currency sys + earned
     /\ ((ResourceManager.maximum mem - ResourceManager.current mem
          <? Artifact.MEMORY_COST) = false ->
         ResourceManager.current
           (ResourceManager.slot ResourceManager.MEMORY (_rm sys'))
         = ResourceManager.current mem + Artifact.MEMORY_COST))
  /\ (Py.get (_artifacts sys) artifact_id = None ->
      sell artifact_id sys q = (Ok 0.0, sys, q))
  /\ (forall a, Py.get (_artifacts sys) artifact_id = Some a ->
      Artifact.state a <> Artifact.COLLECTED ->
      sell artifact_id sys q = (Ok 0.0, sys, q)).
Proof.
  split; [| split].
  - intros a E Hs earned mem gain rm' sys'.
    assert (Hrestore :
      ResourceManager.restore ResourceManager.MEMORY Artifact.MEMORY_COST
        "ArtifactSystem" (_rm sys) q
      = (Ok tt, rm',
         posted (if Py.gtb gain 0
                 then [changed_event ResourceManager.MEMORY gain
                         "ArtifactSystem"
                         (ResourceManager.slot ResourceManager.MEMORY rm')]
                 else []) q)).
    { unfold rm'. rewrite slot_set_slot. apply restore_ok. reflexivity. }
    split; [exact Hrestore |].
    split.
    { unfold sell, bind, gets, ret, zoom, post_immediate, mutate, modify.
      cbn beta iota. rewrite E.
      rewrite bool_decide_eq_true_2 by exact Hs. cbn [negb]. cbn beta iota.
      cbn [_rm set_rm set_currency set_artifacts _artifacts _currency].
      rewrite Hrestore. cbn beta iota zeta.
      rewrite post_immediate_posted, posted_posted. reflexivity. }
    split.
    { cbn. rewrite get_alter_artifact, decide_True by reflexivity.
      rewrite E. reflexivity. }
    split.
    { intros k Hk. cbn.
      rewrite get_alter_artifact, decide_False by (intros <-; apply Hk; auto).
      reflexivity. }
    repeat split.
    intros Hroom. unfold sys', rm'. cbn [_rm]. rewrite slot_set_slot.
    cbn [ResourceManager.current]. unfold gain, Py.min. fold mem.
    rewrite Hroom. reflexivity.
  - intros E. unfold sell, bind, gets, ret. cbn beta iota. rewrite E.
    reflexivity.
  - intros a E Hs. unfold sell, bind, gets, ret. cbn beta iota. rewrite E.
    rewrite bool_decide_eq_false_2 by exact Hs. reflexivity.
Qed.
End ArtifactClaims.

Section ArtifactExamples.
Import Sys ArtifactSystem.
Local Open Scope float_scope.

(** A found relic on a node of corruption 0.24 is collected in condition
    0.76 for 228.0; with the memory gauge at 0 the collect fails, posts the
    reconstruction-failed event and leaves the system as it is. *)
Lemma collect_needs_found_and_memory_witness :
  collect Py.round_tenths "arc_corporate_0000" 0.24
    (sample_arts Artifact.FOUND 0) EventQueue.init
  = (Ok false, sample_arts Artifact.FOUND 0,
     posted [reconstruct_failed_event "arc_corporate_0000"] EventQueue.init)
  /\ (collect Py.round_tenths "arc_corporate_0000" 0.24
        (sample_arts Artifact.FOUND 50) EventQueue.init).1.1 = Ok true
  /\ Artifact.sell_value
       (collected Py.round_tenths 0.24 (sample_relic Artifact.FOUND))
     = 228.0.
Proof.
  destruct (collect_needs_found_and_memory Py.round_tenths
              "arc_corporate_0000" 0.24 (sample_arts Artifact.FOUND 0)
              EventQueue.init) as (_ & _ & Hmem & _).
  split; [exact (Hmem (sample_relic Artifact.FOUND) eq_refl eq_refl eq_refl) |].
  split; reflexivity.
Defined.

(** Selling a collected relic worth 228.0 earns it; selling a relic that
    is only FOUND earns 0.0 and changes nothing. *)
Lemma sell_only_collected_witness :
  sell "arc_corporate_0000" (sample_arts Artifact.FOUND 50) EventQueue.init
  = (Ok 0.0, sample_arts Artifact.FOUND 50, EventQueue.init).
Proof.
  destruct (sell_only_collected "arc_corporate_0000"
              (sample_arts Artifact.FOUND 50) EventQueue.init)
    as (_ & _ & Hstate).
  apply (Hstate (sample_relic Artifact.FOUND) eq_refl). discriminate.
Defined.
End ArtifactExamples.

(** ** Operations that return: a relational Hoare rule set *)

Section Runs.
Import Sys.
Context {S : Type}.

(** [m] never raises and relates the state before to the result and the
    state after by [Rel]. *)
Definition runs {A} (m : M S A) (Rel : S -> A -> S -> Prop) : Prop :=
  forall s q, exists a s' q', m s q = (Ok a, s', q') /\ Rel s a s'.

Lemma runs_weaken {A} (m : M S A) (Rel Rel' : S -> A -> S -> Prop) :
  runs m Rel -> (forall s a s', Rel s a s' -> Rel' s a s') -> runs m Rel'.
Proof.
  intros Hm Hw s q. destruct (Hm s q) as (a & s' & q' & E & HR).
  exists a, s', q'. split; [exact E | apply Hw, HR].
Qed.

Lemma runs_ret {A} (a : A) : runs (ret a) (fun s b s' => b = a /\ s' = s).
Proof. intros s q. exists a, s, q. repeat split. Qed.

Lemma runs_get : runs get (fun s b s' => b = s /\ s' = s).
Proof. intros s q. exists s, s, q. repeat split. Qed.

Lemma runs_gets {A} (f : S -> A) :
  runs (gets f) (fun s b s' => b = f s /\ s' = s).
Proof. intros s q. exists (f s), s, q. repeat split. Qed.

Lemma runs_modify (f : S -> S) : runs (modify f) (fun s _ s' => s' = f s).
Proof. intros s q. exists tt, (f s), q. repeat split. Qed.

Lemma runs_post ty pl src :
  runs (post_immediate (S := S) ty pl src) (fun s _ s' => s' = s).
Proof. intros s q. eexists tt, s, _. repeat split. Qed.

Lemma runs_bind {A B} (m : M S A) (k : A -> M S B)
    (R1 : S -> A -> S -> Prop) (R2 : A -> S -> B -> S -> Prop) :
  runs m R1 -> (forall a, runs (k a) (R2 a)) ->
  runs (bind m k) (fun s b s'' => exists a s', R1 s a s' /\ R2 a s' b s'').
Proof.
  intros Hm Hk s q. destruct (Hm s q) as (a & s' & q' & E & H1).
  destruct (Hk a s' q') as (b & s'' & q'' & E' & H2).
  exists b, s'', q''. unfold bind. rewrite E. split; [exact E' | eauto].
Qed.

(** A preorder on states kept by every step is kept by a sequence. *)
Lemma runs_bind_pre {A B} (m : M S A) (k : A -> M S B) (Pre : S -> S -> Prop) :
  (forall s1 s2 s3, Pre s1 s2 -> Pre s2 s3 -> Pre s1 s3) ->
  runs m (fun s _ s' => Pre s s') ->
  (forall a, runs (k a) (fun s _ s' => Pre s s')) ->
  runs (bind m k) (fun s _ s' => Pre s s').
Proof.
  intros Htrans Hm Hk.
  eapply runs_weaken; [apply (runs_bind _ _ _ _ Hm Hk) |].
  intros s b s' (a & s1 & H1 & H2). exact (Htrans _ _ _ H1 H2).
Qed.

Lemma runs_when (b : bool) (m : M S unit) (Pre : S -> S -> Prop) :
  (forall s, Pre s s) ->
  runs m (fun s _ s' => Pre s s') ->
  runs (when b m) (fun s _ s' => Pre s s').
Proof.
  intros Hrefl Hm. destruct b; [exact Hm |].
  intros s q. exists tt, s, q. split; [reflexivity | apply Hrefl].
Qed.

Lemma runs_zoom {T A} (proj : S -> T) (inj : T -> S -> S) (m : M T A)
    (Pre : S -> S -> Prop) :
  (forall s t', Pre s (inj t' s)) ->
  (forall t q, exists a t' q', m t q = (Ok a, t', q')) ->
  runs (zoom proj inj m) (fun s _ s' => Pre s s').
Proof.
  intros Hinj Hm s q. destruct (Hm (proj s) q) as (a & t' & q' & E).
  exists a, (inj t' s), q'. unfold zoom. rewrite E. split; [reflexivity |].
  apply Hinj.
Qed.
End Runs.

(** ** DaemonSystem *)

Section SearchFacts.
Import DaemonSystem.

Lemma contains_keys {V} (d : list (string * V)) (k : string) :
  Py.contains d k = true -> k ∈ Py.keys d.
Proof.
  unfold Py.contains, Py.keys. induction d as [|[k' v] d IH]; simpl.
  - discriminate.
  - destruct (decide (k' = k)) as [->|Hne]; intros H; [left |].
    right. apply IH, H.
Qed.

Lemma neighbours_registered (ns : list (string * Node.t)) (i x : string) :
  x ∈ _neighbours ns i -> x ∈ Py.keys ns.
Proof.
  unfold _neighbours. destruct (Py.get ns i); [| intros H; inversion H].
  intros [H _]%list_elem_of_filter. apply contains_keys, H.
Qed.

(** One round of [visit] adds to the queue exactly what it adds to the
    marked nodes, which stay pairwise distinct and within [universe]. *)
Lemma visit_None (universe : list string) (to_id : string) (dist : Z)
    (nbrs visited : list string) (queue : list (string * Z))
    (visited' : list string) (queue' : list (string * Z)) :
  visit to_id dist nbrs visited queue = (None, visited', queue') ->
  (forall x, x ∈ nbrs -> x ∈ universe) ->
  NoDup visited -> (forall x, x ∈ visited -> x ∈ universe) ->
  NoDup visited' /\ (forall x, x ∈ visited' -> x ∈ universe)
  /\ length queue' + length visited = length queue + length visited'
  /\ length visited <= length visited'.
Proof.
  revert visited queue.
  induction nbrs as [|nid nbrs IH]; intros visited queue; simpl.
  - intros [= <- <-] _ Hnd Hsub. repeat split; try assumption; lia.
  - destruct (decide (nid = to_id)); [discriminate |].
    case_bool_decide as Hin; intros E Hn Hnd Hsub.
    + apply (IH _ _ E); try assumption.
      intros x Hx. apply Hn. right. exact Hx.
    + destruct (IH _ _ E) as (H1 & H2 & H3 & H4).
      * intros x Hx. apply Hn. right. exact Hx.
      * apply NoDup_app. repeat split; try assumption.
        -- intros x Hx [->|Hx']%elem_of_cons; [contradiction | inversion Hx'].
        -- apply NoDup_singleton.
      * intros x [Hx|Hx]%elem_of_app; [apply Hsub, Hx |].
        apply list_elem_of_singleton in Hx as ->. apply Hn. left.
      * repeat rewrite length_app in H3. rewrite length_app in H4.
        simpl in H3, H4. repeat split; try assumption; lia.
Qed.

Lemma search_fuel_enough_gen (ns : list (string * Node.t))
    (from_id to_id : string) (fuel : nat) :
  forall (visited : list string) (queue : list (string * Z)),
    NoDup visited ->
    (forall x, x ∈ visited -> x ∈ from_id :: Py.keys ns) ->
    length queue + (S (length ns) - length visited) < fuel ->
    is_Some (search fuel ns to_id visited queue).
Proof.
  induction fuel as [|fuel IH]; intros visited queue Hnd Hsub Hlt; [lia |].
  simpl. destruct queue as [|[c d] queue]; [eexists; reflexivity |].
  destruct (visit to_id d (_neighbours ns c) visited queue)
    as [[[r|] v'] q'] eqn:E; [eexists; reflexivity |].
  destruct (visit_None (from_id :: Py.keys ns) _ _ _ _ _ _ _ E)
    as (H1 & H2 & H3 & H4); try assumption.
  { intros x Hx. right. eapply neighbours_registered, Hx. }
  apply IH; try assumption.
  assert (Hbound : length v' <= S (length ns)).
  { transitivity (length (from_id :: Py.keys ns)).
    - apply submseteq_length, NoDup_submseteq; assumption.
    - simpl. unfold Py.keys. rewrite length_map. lia. }
  simpl in Hlt. lia.
Qed.

(** The fuel [_distance] gives the search is enough: the search returns. *)
Lemma search_fuel_enough (ns : list (string * Node.t))
    (from_id to_id : string) :
  is_Some (search (length ns + 2) ns to_id [from_id] [(from_id, 0%Z)]).
Proof.
  apply (search_fuel_enough_gen ns from_id).
  - apply NoDup_singleton.
  - intros x ->%list_elem_of_singleton. left.
  - simpl. lia.
Qed.
End SearchFacts.

Section DaemonFacts.
Import Sys DaemonSystem.
Local Open Scope float_scope.
Context (R : Random.Impl).
Hypothesis randbelow_lt :
  forall n s, (0 < n)%nat -> ((Random._randbelow R n s).1 < n)%nat.

(** What the movement, contact and corruption steps keep of a daemon. *)
Definition same_alert (d d' : Daemon.t) : Prop :=
  Daemon.pacified d' = Daemon.pacified d
  /\ Daemon.alert_level d' = Daemon.alert_level d
  /\ Daemon.alert_state d' = Daemon.alert_state d.

(** The level is a clamped value and the state is the one of the level. *)
Definition alert_recomputed (d : Daemon.t) : Prop :=
  (exists x, Daemon.alert_level d = Py.max 0.0 (Py.min 1.0 x))
  /\ Daemon.alert_state d = state_of_level (Daemon.alert_level d).

Definition ticked_daemon (d d' : Daemon.t) : Prop :=
  Daemon.pacified d' = Daemon.pacified d
  /\ (Daemon.pacified d = false -> alert_recomputed d').

(** Only the daemon at position [i] changes, and by [F]. *)
Definition frame (i : nat) (F : Daemon.t -> Daemon.t -> Prop)
    (s s' : t R) : Prop :=
  length (_daemons s') = length (_daemons s)
  /\ (forall j, j <> i -> _daemons s' !! j = _daemons s !! j)
  /\ (forall kd, _daemons s !! i = Some kd ->
        exists d', _daemons s' !! i = Some (kd.1, d') /\ F kd.2 d').

Lemma frame_same_daemons (i : nat) (F : Daemon.t -> Daemon.t -> Prop)
    (s s' : t R) :
  (forall d, F d d) -> _daemons s' = _daemons s -> frame i F s s'.
Proof.
  intros Hrefl E. unfold frame. rewrite E. repeat split.
  intros [k d] Hkd. exists d. split; [exact Hkd | apply Hrefl].
Qed.

Lemma frame_trans (i : nat) (F1 F2 F3 : Daemon.t -> Daemon.t -> Prop)
    (s1 s2 s3 : t R) :
  (forall a b c, F1 a b -> F2 b c -> F3 a c) ->
  frame i F1 s1 s2 -> frame i F2 s2 s3 -> frame i F3 s1 s3.
Proof.
  intros Hcomp (L1 & O1 & I1) (L2 & O2 & I2). repeat split.
  - congruence.
  - intros j Hj. rewrite (O2 j Hj). apply O1, Hj.
  - intros kd Hkd. destruct (I1 kd Hkd) as (d1 & E1 & H1).
    destruct (I2 _ E1) as (d2 & E2 & H2). exists d2.
    split; [exact E2 | exact (Hcomp _ _ _ H1 H2)].
Qed.

Lemma same_alert_refl (d : Daemon.t) : same_alert d d.
Proof. repeat split. Qed.

Lemma same_alert_trans (a b c : Daemon.t) :
  same_alert a b -> same_alert b c -> same_alert a c.
Proof. unfold same_alert. intuition congruence. Qed.

Lemma frame_same_trans (i : nat) (s1 s2 s3 : t R) :
  frame i same_alert s1 s2 -> frame i same_alert s2 s3 ->
  frame i same_alert s1 s3.
Proof. apply frame_trans, same_alert_trans. Qed.

Lemma frame_same_refl (i : nat) (s : t R) : frame i same_alert s s.
Proof. apply frame_same_daemons; [apply same_alert_refl | reflexivity]. Qed.

Lemma runs_mutate (i : nat) (f : Daemon.t -> Daemon.t) :
  runs (mutate R i f) (fun s _ s' => frame i (fun d d' => d' = f d) s s').
Proof.
  intros s q. eexists tt, _, q. split; [reflexivity |].
  change (_daemons (set_daemons R
            (alter (fun kd => (kd.1, f kd.2)) i (_daemons s)) s))
    with (alter (fun kd : string * Daemon.t => (kd.1, f kd.2)) i
            (_daemons s)).
  unfold frame.
  change (_daemons (set_daemons R
            (alter (fun kd => (kd.1, f kd.2)) i (_daemons s)) s))
    with (alter (fun kd : string * Daemon.t => (kd.1, f kd.2)) i
            (_daemons s)).
  repeat split.
  - apply length_alter.
  - intros j Hj. apply list_lookup_alter_ne. auto.
  - intros [k d] Hkd. exists (f d). rewrite list_lookup_alter_eq, Hkd.
    split; reflexivity.
Qed.

Lemma runs_mutate_same (i : nat) (f : Daemon.t -> Daemon.t) :
  (forall d, same_alert d (f d)) ->
  runs (mutate R i f) (fun s _ s' => frame i same_alert s s').
Proof.
  intros Hf. eapply runs_weaken; [apply runs_mutate |].
  intros s _ s' (L & O & I). repeat split; try assumption.
  intros kd Hkd. destruct (I kd Hkd) as (d' & E & ->). eauto.
Qed.

Ltac same_step :=
  lazymatch goal with
  | |- runs (bind _ _) _ =>
      apply runs_bind_pre; [apply frame_same_trans | | intros ?]
  | |- runs (ret _) _ =>
      eapply runs_weaken; [apply runs_ret |];
      intros ? ? ? [_ ->]; apply frame_same_refl
  | |- runs (gets _) _ =>
      eapply runs_weaken; [apply runs_gets |];
      intros ? ? ? [_ ->]; apply frame_same_refl
  | |- runs get _ =>
      eapply runs_weaken; [apply runs_get |];
      intros ? ? ? [_ ->]; apply frame_same_refl
  | |- runs (post_immediate _ _ _) _ =>
      eapply runs_weaken; [apply runs_post |];
      intros ? ? ? ->; apply frame_same_refl
  | |- runs (modify _) _ =>
      eapply runs_weaken; [apply runs_modify |];
      intros ? ? ? ->; apply frame_same_daemons;
      [apply same_alert_refl | reflexivity]
  | |- runs (mutate _ _ _) _ =>
      apply runs_mutate_same; intros ?; repeat split
  end.

Lemma choice_nonempty {A} (x : A) (l : list A) (g : Random.state R) :
  is_Some (Random.choice R (x :: l) g).1.
Proof.
  unfold Random.choice.
  pose proof (randbelow_lt (length (x :: l)) g) as Hlt.
  destruct (Random._randbelow R (length (x :: l)) g) as [k g'].
  cbn [fst] in *. apply lookup_lt_is_Some_2, Hlt. simpl. lia.
Qed.

Lemma maybe_move_runs (i : nat) (daemon : Daemon.t) (player : string) :
  runs (_maybe_move R i daemon player)
       (fun s _ s' => frame i same_alert s s').
Proof.
  unfold _maybe_move. same_step; [same_step |].
  destruct (_ <? _)%Z; [same_step |].
  same_step; [same_step |]. same_step; [same_step |].
  destruct (_neighbours a1 (Daemon.node_id daemon)) as [|n0 others];
    [same_step |].
  same_step; [| same_step].
  destruct (_ && _).
  - same_step.
  - same_step; [same_step |].
    pose proof (choice_nonempty n0 others a2) as Hsome.
    destruct (Random.choice R (n0 :: others) a2) as [picked g'].
    destruct Hsome as [target Ht]. cbn [fst] in Ht. subst picked.
    same_step; same_step.
Qed.

Lemma contact_runs (i : nat) (daemon : Daemon.t) (player : string) :
  runs (_apply_contact_effects R daemon player)
       (fun s _ s' => frame i same_alert s s').
Proof.
  unfold _apply_contact_effects. destruct (negb _); [same_step |].
  same_step; [| same_step].
  apply runs_zoom.
  - intros s rm'. apply frame_same_daemons;
      [apply same_alert_refl | reflexivity].
  - intros rm q.
    destruct (ResourceManager.current
                (ResourceManager.slot ResourceManager.POWER rm)
              <? _CONTACT_DRAIN) eqn:E.
    + do 3 eexists. apply consume_short; [reflexivity | exact E].
    + do 3 eexists. apply consume_enough; [reflexivity | exact E].
Qed.

Lemma corrupt_runs (i : nat) (daemon : Daemon.t) :
  runs (_corrupt_current_node R daemon)
       (fun s _ s' => frame i same_alert s s').
Proof. unfold _corrupt_current_node. same_step. Qed.

Lemma post_alert_event_runs (i : nat) (daemon : Daemon.t)
    (previous : Daemon.AlertState) :
  runs (_post_alert_event R daemon previous)
       (fun s _ s' => frame i same_alert s s').
Proof.
  unfold _post_alert_event. destruct (_ && _); [same_step |].
  destruct (bool_decide _); same_step.
Qed.

Lemma frame_mutated (i : nat) (f : Daemon.t -> Daemon.t)
    (F : Daemon.t -> Daemon.t -> Prop) (s : t R) :
  (forall d, F d (f d)) ->
  frame i F s
    (set_daemons R (alter (fun kd => (kd.1, f kd.2)) i (_daemons s)) s).
Proof.
  intros HF. destruct (runs_mutate i f s EventQueue.init)
    as (u & s' & q' & E & (L & O & I)).
  injection E as <- <-. repeat split; try assumption.
  intros kd Hkd. destruct (I kd Hkd) as (d' & E' & ->). eauto.
Qed.

Lemma update_alert_runs (i : nat) (daemon : Daemon.t) (player : string)
    (noise : option string) :
  runs (_update_alert R i daemon player noise)
       (fun s _ s' =>
          frame i (fun d d' => Daemon.pacified d' = Daemon.pacified d
                               /\ alert_recomputed d') s s').
Proof.
  intros s q.
  unfold _update_alert, bind, gets, mutate, modify, when,
    _post_alert_event, post_immediate, ret.
  cbn beta iota.
  set (lv := Py.max 0 (Py.min 1 (Daemon.alert_level daemon
                                 + alert_gain (_nodes s) daemon player noise))).
  set (s1 := set_daemons R
               (alter (fun kd => (kd.1, Daemon.set_alert_level lv kd.2)) i
                  (_daemons s)) s).
  assert (Hframe :
    frame i (fun d d' => Daemon.pacified d' = Daemon.pacified d
                         /\ alert_recomputed d') s
      (set_daemons R
         (alter (fun kd => (kd.1, Daemon.set_alert_state
                                    (state_of_level lv) kd.2)) i
            (_daemons s1)) s1)).
  { eapply (frame_trans i (fun d d' => d' = Daemon.set_alert_level lv d)
              (fun d d' => d' = Daemon.set_alert_state
                                  (state_of_level lv) d)).
    - intros a b c -> ->. split; [reflexivity |].
      split; [exists (Daemon.alert_level daemon
                      + alert_gain (_nodes s) daemon player noise) |];
        reflexivity.
    - apply frame_mutated. reflexivity.
    - apply frame_mutated. reflexivity. }
  destruct (negb _); [destruct (_ && _); [| destruct (bool_decide _)] |];
    (eexists tt, _, _; split; [reflexivity | exact Hframe]).
Qed.

Lemma tick_daemon_runs (player : string) (noise : option string) (i : nat) :
  runs (tick_daemon R player noise i)
       (fun s _ s' => frame i ticked_daemon s s').
Proof.
  unfold tick_daemon. intros s q.
  assert (Hrefl : forall d, Daemon.pacified d = true -> ticked_daemon d d).
  { intros d Hp. split; [reflexivity | congruence]. }
  unfold bind at 1, get at 1.
  destruct (daemon_at i s) as [daemon0|] eqn:Hat.
  2:{ exists tt, s, q. split; [reflexivity |]. repeat split.
      intros kd Hkd. unfold daemon_at in Hat. rewrite Hkd in Hat.
      discriminate Hat. }
  destruct (Daemon.pacified daemon0) eqn:Hp.
  { exists tt, s, q. split; [reflexivity |]. repeat split.
    intros [k d] Hkd. unfold daemon_at in Hat. rewrite Hkd in Hat.
    injection Hat as <-. exists d. split; [exact Hkd | apply Hrefl, Hp]. }
  assert (Hrest : forall d,
    runs (daemon1 <- current_daemon R i d ;;
          _maybe_move R i daemon1 player ;;;
          daemon2 <- current_daemon R i daemon1 ;;
          _apply_contact_effects R daemon2 player ;;;
          daemon3 <- current_daemon R i daemon2 ;;
          _corrupt_current_node R daemon3)%sys
         (fun s _ s' => frame i same_alert s s')).
  { intros d. unfold current_daemon.
    same_step; [same_step; same_step |].
    same_step; [apply maybe_move_runs |].
    same_step; [same_step; same_step |].
    same_step; [apply contact_runs |].
    same_step; [same_step; same_step |].
    apply corrupt_runs. }
  destruct (runs_bind _ _ _ _
              (update_alert_runs i daemon0 player noise)
              (fun _ => Hrest daemon0) s q)
    as (a & s' & q' & E & (u & s1 & H1 & H2)).
  exists a, s', q'. split; [destruct a; exact E |].
  eapply frame_trans; [| exact H1 | exact H2].
  cbn beta. intros d d1 d2 [Hp1 Hr] (Hp2 & Hl & Hs). split; [congruence |].
  intros _. destruct Hr as [[x Hx] Hst]. split.
  - exists x. congruence.
  - congruence.
Qed.
End DaemonFacts.

Section DaemonClaims.
Import Sys DaemonSystem.
Local Open Scope float_scope.
Context (R : Random.Impl).
Hypothesis randbelow_lt :
  forall n s, (0 < n)%nat -> ((Random._randbelow R n s).1 < n)%nat.

Lemma tick_loop_runs (player : string) (noise : option string)
    (positions : list nat) :
  NoDup positions ->
  runs (for_each positions (tick_daemon R player noise))
       (fun s _ s' =>
          length (_daemons s') = length (_daemons s)
          /\ (forall j, j ∉ positions -> _daemons s' !! j = _daemons s !! j)
          /\ (forall j kd, j ∈ positions -> _daemons s !! j = Some kd ->
                exists d', _daemons s' !! j = Some (kd.1, d')
                           /\ ticked_daemon kd.2 d')).
Proof.
  induction positions as [|i positions IH]; intros Hnd.
  - intros s q. exists tt, s, q. split; [reflexivity |]. repeat split.
    intros j kd Hj. inversion Hj.
  - apply NoDup_cons in Hnd as [Hi Hnd]. specialize (IH Hnd).
    intros s q.
    destruct (tick_daemon_runs R randbelow_lt player noise i s q)
      as (u & s1 & q1 & E1 & (L1 & O1 & I1)).
    destruct (IH s1 q1) as (u2 & s2 & q2 & E2 & (L2 & O2 & I2)).
    exists u2, s2, q2. split.
    { cbn [for_each]. unfold bind. rewrite E1. exact E2. }
    repeat split.
    + congruence.
    + intros j Hj. apply not_elem_of_cons in Hj as [Hji Hj].
      rewrite (O2 j Hj). apply O1, Hji.
    + intros j kd [->|Hj]%elem_of_cons Hkd.
      * destruct (I1 kd Hkd) as (d' & E' & Ht). exists d'.
        rewrite (O2 i Hi). split; assumption.
      * assert (Hji : j <> i) by (intros ->; contradiction).
        apply (I2 j kd Hj). rewrite (O1 j Hji). exact Hkd.
Qed.

Lemma alert_recomputed_invariant (d : Daemon.t) :
  alert_recomputed d -> alert_in_bounds d /\ alert_state_by_thresholds d.
Proof.
  intros [[x Hx] Hst].
  assert (Hb : alert_in_bounds d).
  { unfold alert_in_bounds. rewrite Hx. apply clamp_bounds. reflexivity. }
  split; [exact Hb |]. destruct Hb as [Hlo Hhi].
  unfold alert_state_by_thresholds. rewrite Hst.
  unfold state_of_level, Py.geb, Daemon._ALERT_THRESHOLD,
    Daemon._SUSPICIOUS_THRESHOLD.
  repeat split.
  - intros ->. reflexivity.
  - intros H4 H75. rewrite (ltb_not_leb _ _ H75), H4. reflexivity.
  - intros H75 [H4|Hlt].
    + rewrite H75, H4. reflexivity.
    + rewrite (not_ltb_leb _ 0.75 (leb_is_number_r _ _ Hlo) eq_refl Hlt)
        in H75. discriminate H75.
Qed.

(** C8.  [DaemonSystem.tick] returns, and after it every non-pacified
    daemon has its alert level within [[0, 1]] and its alert state given by
    the level and the two thresholds: ALERT when the level is at least
    0.75, SUSPICIOUS when it is at least 0.4 and below 0.75, and IDLE
    otherwise. *)
Theorem tick_keeps_alert_invariant (player : string) (noise : option string)
    (s : t R) (q : EventQueue.t) :
  exists s' q',
    tick R player noise s q = (Ok tt, s', q')
    /\ forall k d, (k, d) ∈ _daemons s' -> Daemon.pacified d = false ->
         alert_in_bounds d /\ alert_state_by_thresholds d.
Proof.
  unfold tick, bind, gets. cbn beta iota.
  destruct (tick_loop_runs player noise (seq 0 (length (_daemons s)))
              (NoDup_seq _ _) s q) as ([] & s' & q' & E & (L & O & I)).
  exists s', q'. split; [exact E |].
  intros k d [j Hj]%list_elem_of_lookup_1 Hp.
  assert (Hlt : (j < length (_daemons s))%nat)
    by (rewrite <- L; apply lookup_lt_is_Some_1; eauto).
  destruct (lookup_lt_is_Some_2 _ _ Hlt) as [kd Hkd].
  destruct (I j kd) as (d' & E' & [Hpac Hrec]); [| exact Hkd |].
  { apply elem_of_seq. lia. }
  rewrite Hj in E'. injection E' as _ <-.
  apply alert_recomputed_invariant, Hrec. congruence.
Qed.
End DaemonClaims.

Lemma toy_randbelow_lt (n : nat) (s : Random.state toy_random) :
  (0 < n)%nat -> ((Random._randbelow toy_random n s).1 < n)%nat.
Proof.
  intros Hn. cbn.
  pose proof (Z.mod_pos_bound (toy_next s) (Z.of_nat n)). lia.
Qed.

(** On the sample site the watchdog, two hops from the player, goes from
    0.7 to 0.9 and enters ALERT; the pacified sleeper is left alone. *)
Lemma tick_keeps_alert_invariant_witness :
  exists s' q',
    DaemonSystem.tick toy_random "id-memo" None sample_daemons EventQueue.init
    = (Sys.Ok tt, s', q')
    /\ forall k d, (k, d) ∈ DaemonSystem._daemons s' ->
         Daemon.pacified d = false ->
         alert_in_bounds d /\ alert_state_by_thresholds d.
Proof.
  exact (tick_keeps_alert_invariant toy_random toy_randbelow_lt
           "id-memo" None sample_daemons EventQueue.init).
Defined.

Example tick_sample_daemons :
  Py.values
    (DaemonSystem._daemons
       (DaemonSystem.tick toy_random "id-memo" None sample_daemons
          EventQueue.init).1.2)
  = [Daemon.mk "WATCHDOG-7" Daemon.AGGRESSIVE "id-root" 2 Daemon.ALERT
       (0.7 + 0.2) 1 0 false "daemon_1";
     sample_sleeper].
Proof. vm_compute. reflexivity. Qed.

(** ** EventQueue *)

Section FlushFacts.
Import EventQueue.
Context {H : Type} (body : Handler -> Event -> H -> t -> H * list Call).

Lemma post_flushing (e : Event) (q : t) : _flushing (post e q) = _flushing q.
Proof. unfold post. destruct (timing e); reflexivity. Qed.

Lemma post_subscribers (e : Event) (q : t) :
  _subscribers (post e q) = _subscribers q.
Proof. unfold post. destruct (timing e); reflexivity. Qed.

Lemma post_pending (e : Event) (q : t) :
  _pending (post e q) = _pending q ++ immediate_posts [CallPost e].
Proof.
  unfold post. simpl. destruct (timing e); simpl;
    [reflexivity | rewrite app_nil_r; reflexivity].
Qed.

Lemma immediate_posts_cons (c : Call) (cs : list Call) :
  immediate_posts (c :: cs) = immediate_posts [c] ++ immediate_posts cs.
Proof.
  destruct c; simpl; try reflexivity. destruct (timing event); reflexivity.
Qed.

(** The flushing flag is set and the subscriptions are those of [q0]. *)
Definition flushing_with (q0 : t) (w : @World H) : Prop :=
  _flushing (queue w) = true
  /\ _subscribers (queue w) = _subscribers q0.

Section Quiet.
Hypothesis quiet : forall h e o q, Forall only_posts (body h e o q).2.
Variable flush_rec : @World H -> option (@World H).
Hypothesis flush_rec_nested :
  forall w, _flushing (queue w) = true -> flush_rec w = Some w.
Variable q0 : t.

Lemma run_calls_quiet (cs : list Call) :
  Forall only_posts cs ->
  forall w, flushing_with q0 w ->
    exists w', run_calls flush_rec cs w = Some w'
      /\ flushing_with q0 w'
      /\ outside w' = outside w /\ trace w' = trace w
      /\ _pending (queue w') = _pending (queue w) ++ immediate_posts cs.
Proof.
  induction 1 as [|c cs Hc _ IH]; intros w [Hf Hs].
  - exists w. simpl. rewrite app_nil_r. repeat split; assumption.
  - destruct c; try contradiction.
    + destruct (IH (with_queue (post event) w)) as (w' & E & Hfw & Ho & Ht & Hp).
      { split; cbn; [rewrite post_flushing | rewrite post_subscribers];
          assumption. }
      exists w'. cbn [run_calls run_call]. rewrite E.
      split; [reflexivity |]. split; [exact Hfw |].
      split; [exact Ho |]. split; [exact Ht |].
      rewrite Hp. cbn [queue with_queue]. rewrite post_pending.
      rewrite (immediate_posts_cons (CallPost event) cs), app_assoc.
      reflexivity.
    + destruct (IH w (conj Hf Hs)) as (w' & E & Hfw & Ho & Ht & Hp).
      exists w'. cbn [run_calls run_call].
      rewrite (flush_rec_nested w Hf), E.
      split; [reflexivity |]. split; [exact Hfw |].
      split; [exact Ho |]. split; [exact Ht | exact Hp].
Qed.

Lemma call_handler_quiet (h : Handler) (e : Event) (w : World) :
  flushing_with q0 w ->
  exists w' cs, call_handler body flush_rec h e w = Some w'
    /\ flushing_with q0 w'
    /\ calls_of_body body (e, h, cs)
    /\ trace w' = trace w ++ [(e, h, cs)]
    /\ _pending (queue w') = _pending (queue w) ++ immediate_posts cs.
Proof.
  intros Hw. unfold call_handler.
  pose proof (quiet h e (outside w) (queue w)) as Hq.
  assert (Hb : calls_of_body body (e, h, (body h e (outside w) (queue w)).2))
    by (exists (outside w), (queue w); reflexivity).
  destruct (body h e (outside w) (queue w)) as [o cs]. cbn [snd] in Hq, Hb.
  destruct (run_calls_quiet cs Hq
              {| outside := o; queue := queue w;
                 trace := trace w ++ [(e, h, cs)] |} Hw)
    as (w' & E & Hfw & _ & Ht & Hp).
  exists w', cs. split; [exact E |]. split; [exact Hfw |].
  split; [exact Hb |]. split; [exact Ht | exact Hp].
Qed.

(** The loop over the subscribers of one event, from position [j] on. *)
Lemma for_handlers_quiet (ty : EventType) (e : Event) (fuel : nat) :
  forall (j : nat) (w w' : World),
    flushing_with q0 w ->
    for_handlers body flush_rec fuel ty e j w = Some w' ->
    flushing_with q0 w'
    /\ exists tr,
        trace w' = trace w ++ tr
        /\ Forall (calls_of_body body) tr
        /\ map fst tr = map (pair e) (drop j (handlers_for q0 ty))
        /\ _pending (queue w')
           = _pending (queue w) ++ flat_map (fun d => immediate_posts d.2) tr.
Proof.
  induction fuel as [|fuel IH]; intros j w w' Hw; [discriminate |].
  cbn [for_handlers].
  fold (handlers_for (queue w) ty).
  assert (Hhs : handlers_for (queue w) ty = handlers_for q0 ty)
    by (unfold handlers_for; rewrite (proj2 Hw); reflexivity).
  rewrite Hhs.
  destruct (handlers_for q0 ty !! j) as [h|] eqn:Hj.
  - destruct (call_handler_quiet h e w Hw)
      as (w1 & cs & E & Hw1 & Hb & Ht & Hp).
    rewrite E. intros Hrun.
    destruct (IH (S j) w1 w' Hw1 Hrun) as (Hw' & tr & Ht' & Hb' & Hm & Hp').
    split; [exact Hw' |]. exists ((e, h, cs) :: tr).
    split; [rewrite Ht', Ht, <- app_assoc; reflexivity |].
    split; [constructor; assumption |].
    split.
    + rewrite (drop_S _ _ _ Hj). simpl. rewrite Hm. reflexivity.
    + rewrite Hp', Hp, <- app_assoc. reflexivity.
  - intros [= <-]. split; [exact Hw |]. exists [].
    split; [rewrite app_nil_r; reflexivity |].
    split; [constructor |].
    split.
    + rewrite drop_ge by (apply lookup_ge_None_1, Hj). reflexivity.
    + rewrite app_nil_r. reflexivity.
Qed.

Lemma for_handlers_returns (ty : EventType) (e : Event) (fuel : nat) :
  forall (j : nat) (w : World),
    flushing_with q0 w ->
    length (handlers_for q0 ty) - j < fuel ->
    is_Some (for_handlers body flush_rec fuel ty e j w).
Proof.
  induction fuel as [|fuel IH]; intros j w Hw Hlt; [lia |].
  cbn [for_handlers].
  fold (handlers_for (queue w) ty).
  assert (Hhs : handlers_for (queue w) ty = handlers_for q0 ty)
    by (unfold handlers_for; rewrite (proj2 Hw); reflexivity).
  rewrite Hhs.
  destruct (handlers_for q0 ty !! j) as [h|] eqn:Hj; [| eexists; reflexivity].
  destruct (call_handler_quiet h e w Hw) as (w1 & cs & E & Hw1 & _).
  rewrite E. apply IH; [exact Hw1 |].
  apply lookup_lt_Some in Hj. lia.
Qed.

(** The loop over the pending list, from position [i] on: when it exits,
    everything in the list from [i] on has been dispatched, and the list
    has grown by what the handlers posted. *)
Lemma while_pending_quiet (fuel : nat) :
  forall (i : nat) (w w' : World),
    flushing_with q0 w ->
    while_pending body flush_rec fuel i w = Some w' ->
    flushing_with q0 w'
    /\ exists tr,
        trace w' = trace w ++ tr
        /\ Forall (calls_of_body body) tr
        /\ map fst tr = dispatches_of q0 (drop i (_pending (queue w')))
        /\ _pending (queue w')
           = _pending (queue w) ++ flat_map (fun d => immediate_posts d.2) tr.
Proof.
  induction fuel as [|fuel IH]; intros i w w' Hw; [discriminate |].
  cbn [while_pending].
  destruct (_pending (queue w) !! i) as [event|] eqn:Hi.
  - fold (handlers_for (queue w) (type event)).
    assert (Hcont : forall w1 tr1,
      flushing_with q0 w1 ->
      trace w1 = trace w ++ tr1 ->
      Forall (calls_of_body body) tr1 ->
      map fst tr1 = map (pair event) (handlers_for q0 (type event)) ->
      _pending (queue w1)
      = _pending (queue w) ++ flat_map (fun d => immediate_posts d.2) tr1 ->
      while_pending body flush_rec fuel (S i) w1 = Some w' ->
      flushing_with q0 w'
      /\ exists tr,
          trace w' = trace w ++ tr
          /\ Forall (calls_of_body body) tr
          /\ map fst tr = dispatches_of q0 (drop i (_pending (queue w')))
          /\ _pending (queue w')
             = _pending (queue w)
               ++ flat_map (fun d => immediate_posts d.2) tr).
    { intros w1 tr1 Hw1 Ht1 Hb1 Hm1 Hp1 Hnext.
      destruct (IH (S i) w1 w' Hw1 Hnext)
        as (Hw' & tr2 & Ht2 & Hb2 & Hm2 & Hp2).
      split; [exact Hw' |]. exists (tr1 ++ tr2).
      split; [rewrite Ht2, Ht1, <- app_assoc; reflexivity |].
      split; [apply Forall_app; split; assumption |].
      split.
      + assert (Hev : _pending (queue w') !! i = Some event).
        { rewrite Hp2, Hp1. apply lookup_app_l_Some, lookup_app_l_Some, Hi. }
        unfold Dispatch in *.
        rewrite map_app, Hm1, Hm2, (drop_S _ _ _ Hev). reflexivity.
      + rewrite Hp2, Hp1, flat_map_app, <- app_assoc. reflexivity. }
    assert (Hhs : handlers_for (queue w) (type event)
                  = handlers_for q0 (type event))
      by (unfold handlers_for; rewrite (proj2 Hw); reflexivity).
    destruct (handlers_for (queue w) (type event)) as [|h hs] eqn:Hh.
    + intros Hrun. apply (Hcont w []); try assumption.
      * rewrite app_nil_r. reflexivity.
      * constructor.
      * rewrite <- Hhs. reflexivity.
      * rewrite app_nil_r. reflexivity.
    + destruct (for_handlers body flush_rec fuel (type event) event 0 w)
        as [w1|] eqn:Hfor; [| discriminate].
      destruct (for_handlers_quiet _ _ _ _ _ _ Hw Hfor)
        as (Hw1 & tr1 & Ht & Hb & Hm & Hp).
      rewrite drop_0 in Hm. intros Hrun. apply (Hcont w1 tr1); assumption.
  - intros [= <-]. split; [exact Hw |]. exists [].
    split; [rewrite app_nil_r; reflexivity |].
    split; [constructor |].
    split.
    + rewrite drop_ge by (apply lookup_ge_None_1, Hi). reflexivity.
    + rewrite app_nil_r. reflexivity.
Qed.

(** With handlers that post no immediate event the loop returns. *)
Hypothesis silent : forall h e o q, immediate_posts (body h e o q).2 = [].

Lemma silent_trace (tr : list (Event * Handler * list Call)) :
  Forall (calls_of_body body) tr ->
  flat_map (fun d : Event * Handler * list Call => immediate_posts d.2) tr
  = [].
Proof.
  induction 1 as [|[[e h] cs] tr (o & q & Hd) _ IH]; [reflexivity |].
  simpl in *. rewrite IH, Hd, silent. reflexivity.
Qed.

Lemma handlers_for_bound (ty : EventType) :
  length (handlers_for q0 ty) <= subscriptions q0.
Proof.
  unfold handlers_for, subscriptions.
  induction (_subscribers q0) as [|[k hs] d IH]; simpl; [lia |].
  rewrite length_app. destruct (decide (k = ty)); simpl; lia.
Qed.

Lemma while_pending_returns (fuel : nat) :
  forall (i : nat) (w : World),
    flushing_with q0 w ->
    length (_pending (queue w)) - i + subscriptions q0 + 1 < fuel ->
    is_Some (while_pending body flush_rec fuel i w).
Proof.
  induction fuel as [|fuel IH]; intros i w Hw Hlt; [lia |].
  cbn [while_pending].
  destruct (_pending (queue w) !! i) as [event|] eqn:Hi;
    [| eexists; reflexivity].
  apply lookup_lt_Some in Hi.
  destruct (default [] _) as [|h hs] eqn:Hh.
  - apply IH; [exact Hw | lia].
  - pose proof (handlers_for_bound (type event)) as Hb.
    destruct (for_handlers_returns (type event) event fuel 0 w Hw)
      as [w1 Hfor]; [lia |].
    rewrite Hfor.
    destruct (for_handlers_quiet _ _ _ _ _ _ Hw Hfor)
      as (Hw1 & tr & _ & Hcalls & _ & Hp).
    rewrite (silent_trace tr Hcalls), app_nil_r in Hp.
    apply IH; [exact Hw1 | rewrite Hp; lia].
Qed.
End Quiet.
End FlushFacts.

Section FlushClaims.
Import EventQueue.
Context {H : Type} (body : Handler -> Event -> H -> t -> H * list Call).

Lemma flush_nested (fuel : nat) (w : World) :
  _flushing (queue w) = true -> flush body fuel w = Some w.
Proof. intros Hf. destruct fuel; simpl; rewrite Hf; reflexivity. Qed.

End FlushClaims.

Lemma sample_body_only_posts (h : EventQueue.Handler) (e : EventQueue.Event)
    (o : nat) (q : EventQueue.t) :
  Forall only_posts (sample_body h e o q).2.
Proof.
  destruct h as [|[|h]]; simpl; repeat constructor.
Qed.


Example flush_sample_trace :
  (fun w => (map fst (EventQueue.trace w),
             EventQueue._pending (EventQueue.queue w),
             EventQueue.outside w))
    <$> EventQueue.flush sample_body 10 sample_world
  = Some ([(sample_found, 1); (sample_found, 2); (sample_logged, 3)], [], 3).
Proof. vm_compute. reflexivity. Qed.

(** ** SiteGenerator: two runs differ in the node ids only *)

Section Simulation.
Import Sys SiteGenerator.
Local Open Scope float_scope.
Context (R : Random.Impl) (u1 u2 : nat -> string) (self : SiteGenerator.t).
Hypothesis u1_inj : Inj (=) (=) u1.
Hypothesis u2_inj : Inj (=) (=) u2.

(** The two ids are the [k]-th id of their run, for the same [k]. *)
Definition idR (a b : string) : Prop := exists k, a = u1 k /\ b = u2 k.

Lemma idR_eq (a b a' b' : string) :
  idR a b -> idR a' b' -> (a = a' <-> b = b').
Proof.
  intros (k & -> & ->) (k' & -> & ->). split; intros E.
  - apply u1_inj in E. congruence.
  - apply u2_inj in E. congruence.
Qed.

Definition node_sim (n1 n2 : Node.t) : Prop :=
  Node.name n1 = Node.name n2
  /\ Node.node_type n1 = Node.node_type n2
  /\ idR (Node.node_id n1) (Node.node_id n2)
  /\ option_Forall2 idR (Node.parent_id n1) (Node.parent_id n2)
  /\ Forall2 idR (Node.children_ids n1) (Node.children_ids n2)
  /\ Node.corruption n1 = Node.corruption n2
  /\ Node.visibility n1 = Node.visibility n2
  /\ Node.artifact_id n1 = Node.artifact_id n2
  /\ Node.metadata n1 = Node.metadata n2.

Definition entry_sim (e1 e2 : string * nat) : Prop :=
  idR e1.1 e2.1 /\ e1.2 = e2.2.

Definition run_sim (s1 s2 : Run R) : Prop :=
  rng s1 = rng s2 /\ uuids s1 = uuids s2
  /\ Forall2 node_sim (heap s1) (heap s2)
  /\ Forall2 entry_sim (nodes s1) (nodes s2).

(** The two computations go the same way from related states: both return
    related results or both raise the same exception, in related states,
    and neither touches the event queue. *)
Definition msim {A B} (RA : A -> B -> Prop)
    (m1 : M (Run R) A) (m2 : M (Run R) B) : Prop :=
  forall s1 s2 q, run_sim s1 s2 ->
    match m1 s1 q, m2 s2 q with
    | (Ok a, s1', q1), (Ok b, s2', q2) =>
        RA a b /\ run_sim s1' s2' /\ q1 = q /\ q2 = q
    | (Raise e1, s1', q1), (Raise e2, s2', q2) =>
        e1 = e2 /\ run_sim s1' s2' /\ q1 = q /\ q2 = q
    | _, _ => False
    end.

Lemma msim_ret {A B} (RA : A -> B -> Prop) (a : A) (b : B) :
  RA a b -> msim RA (ret a) (ret b).
Proof. intros Hab s1 s2 q Hs. cbn. auto. Qed.

Lemma msim_raise {A B} (RA : A -> B -> Prop) (e : Exc) :
  msim RA (raise e) (raise e).
Proof. intros s1 s2 q Hs. cbn. auto. Qed.

Lemma msim_bind {A B A' B'} (RA : A -> B -> Prop) (RB : A' -> B' -> Prop)
    (m1 : M (Run R) A) (m2 : M (Run R) B)
    (k1 : A -> M (Run R) A') (k2 : B -> M (Run R) B') :
  msim RA m1 m2 ->
  (forall a b, RA a b -> msim RB (k1 a) (k2 b)) ->
  msim RB (bind m1 k1) (bind m2 k2).
Proof.
  intros Hm Hk s1 s2 q Hs. unfold bind. specialize (Hm s1 s2 q Hs).
  destruct (m1 s1 q) as [[[a|e1] s1'] q1], (m2 s2 q) as [[[b|e2] s2'] q2];
    try contradiction.
  - destruct Hm as (Hab & Hs' & -> & ->). apply (Hk a b Hab s1' s2' q Hs').
  - exact Hm.
Qed.

Lemma msim_get : msim run_sim get get.
Proof. intros s1 s2 q Hs. cbn. auto. Qed.

Lemma msim_gets {A} (f : Run R -> A) :
  (forall s1 s2, run_sim s1 s2 -> f s1 = f s2) -> msim eq (gets f) (gets f).
Proof.
  intros Hf s1 s2 q Hs. unfold gets.
  split; [apply Hf, Hs | split; [exact Hs | split; reflexivity]].
Qed.

Lemma msim_for_each {X} (xs : list X) (b1 b2 : X -> M (Run R) unit) :
  (forall x, msim eq (b1 x) (b2 x)) ->
  msim eq (for_each xs b1) (for_each xs b2).
Proof.
  intros Hb. induction xs as [|x xs IH]; simpl.
  - apply msim_ret. reflexivity.
  - eapply msim_bind; [apply Hb |]. intros _ _ _. exact IH.
Qed.

Lemma msim_draw {A} (f : Random.state R -> A * Random.state R) :
  msim eq (draw R f) (draw R f).
Proof.
  intros s1 s2 q (Hg & Hu & Hh & Hn). unfold draw. rewrite Hg.
  destruct (f (rng s2)) as [a g']. cbn. unfold run_sim. cbn. repeat split; assumption.
Qed.

Lemma msim_fresh_uuid : msim idR (fresh_uuid R u1) (fresh_uuid R u2).
Proof.
  intros s1 s2 q (Hg & Hu & Hh & Hn). unfold fresh_uuid, run_sim. cbn.
  rewrite Hu. repeat split; try assumption.
  exists (uuids s2). split; reflexivity.
Qed.

Lemma msim_alloc (n1 n2 : Node.t) :
  node_sim n1 n2 -> msim eq (alloc R n1) (alloc R n2).
Proof.
  intros Hn s1 s2 q (Hg & Hu & Hh & Hd). unfold alloc, run_sim. cbn.
  repeat split; try assumption.
  - apply (Forall2_length _ _ _ Hh).
  - apply Forall2_app; [exact Hh | constructor; [exact Hn | constructor]].
Qed.

Lemma deref_sim (r : nat) (s1 s2 : Run R) :
  run_sim s1 s2 -> option_Forall2 node_sim (deref r s1) (deref r s2).
Proof.
  intros (_ & _ & Hh & _). unfold deref.
  apply (proj1 (Forall2_lookup _ _ _) Hh r).
Qed.

Lemma msim_read (r : nat) : msim node_sim (read R r) (read R r).
Proof.
  unfold read. eapply msim_bind; [apply msim_get |].
  intros s1 s2 Hs. destruct (deref_sim r s1 s2 Hs).
  - apply msim_ret. assumption.
  - apply msim_raise.
Qed.

Lemma msim_update (r : nat) (f1 f2 : Node.t -> Node.t) :
  (forall n1 n2, node_sim n1 n2 -> node_sim (f1 n1) (f2 n2)) ->
  msim eq (update R r f1) (update R r f2).
Proof.
  intros Hf s1 s2 q (Hg & Hu & Hh & Hd). unfold update, modify, run_sim. cbn.
  repeat split; try assumption.
  apply Forall2_alter; [exact Hh |]. intros x y _ _. apply Hf.
Qed.

Lemma get_sim (d1 d2 : list (string * nat)) (k1 k2 : string) :
  Forall2 entry_sim d1 d2 -> idR k1 k2 -> Py.get d1 k1 = Py.get d2 k2.
Proof.
  intros Hd Hk. induction Hd as [|[a r] [b r'] d1 d2 [Hab Hr] _ IH];
    simpl; [reflexivity |].
  cbn in Hab, Hr. subst r'.
  destruct (decide (a = k1)) as [E|E], (decide (b = k2)) as [E'|E'];
    try reflexivity; try exact IH.
  - exfalso. apply E'. apply (idR_eq _ _ _ _ Hab Hk), E.
  - exfalso. apply E. apply (idR_eq _ _ _ _ Hab Hk), E'.
Qed.

Lemma setitem_sim (d1 d2 : list (string * nat)) (k1 k2 : string) (r : nat) :
  Forall2 entry_sim d1 d2 -> idR k1 k2 ->
  Forall2 entry_sim (Py.setitem d1 k1 r) (Py.setitem d2 k2 r).
Proof.
  intros Hd Hk. induction Hd as [|[a x] [b y] d1 d2 [Hab Hr] Hd IH]; simpl.
  - repeat constructor. exact Hk.
  - cbn in Hab, Hr.
    destruct (decide (a = k1)) as [E|E], (decide (b = k2)) as [E'|E'].
    + constructor; [split; [exact Hk | reflexivity] | exact Hd].
    + exfalso. apply E'. apply (idR_eq _ _ _ _ Hab Hk), E.
    + exfalso. apply E. apply (idR_eq _ _ _ _ Hab Hk), E'.
    + constructor; [split; assumption | exact IH].
Qed.

Lemma msim_register (k1 k2 : string) (r : nat) :
  idR k1 k2 -> msim eq (register R k1 r) (register R k2 r).
Proof.
  intros Hk s1 s2 q (Hg & Hu & Hh & Hd). unfold register, modify, run_sim. cbn.
  repeat split; try assumption. apply setitem_sim; assumption.
Qed.

Lemma elem_of_sim (cs1 cs2 : list string) (c1 c2 : string) :
  Forall2 idR cs1 cs2 -> idR c1 c2 -> (c1 ∈ cs1 <-> c2 ∈ cs2).
Proof.
  intros Hcs Hc. induction Hcs as [|a b cs1 cs2 Hab _ IH].
  - split; intros Hin; inversion Hin.
  - rewrite !elem_of_cons, IH, (idR_eq _ _ _ _ Hc Hab). reflexivity.
Qed.

Lemma add_child_sim (c1 c2 : string) (n1 n2 : Node.t) :
  idR c1 c2 -> node_sim n1 n2 ->
  option_Forall2 node_sim (Node.add_child c1 n1) (Node.add_child c2 n2).
Proof.
  intros Hc Hn.
  pose proof Hn as (Hname & Hty & Hid & Hp & Hcs & Hco & Hv & Ha & Hm).
  unfold Node.add_child, Node.is_directory. rewrite Hty.
  destruct (negb _); [constructor |].
  rewrite (bool_decide_ext _ _ (elem_of_sim _ _ _ _ Hcs Hc)).
  destruct (bool_decide _); constructor; [exact Hn |].
  repeat split; try assumption. cbn.
  apply Forall2_app; [exact Hcs | repeat constructor; exact Hc].
Qed.

Lemma msim_add_child (r : nat) (c1 c2 : string) :
  idR c1 c2 -> msim eq (add_child R r c1) (add_child R r c2).
Proof.
  intros Hc. unfold add_child. eapply msim_bind; [apply msim_read |].
  intros n1 n2 Hn. destruct (add_child_sim c1 c2 n1 n2 Hc Hn) as [n1' n2' Hn'|].
  - apply msim_update. intros _ _ _. exact Hn'.
  - apply msim_raise.
Qed.

Lemma msim_rounded_count (x : float) :
  msim eq (rounded_count R x) (rounded_count R x).
Proof.
  unfold rounded_count. destruct (Py.round x);
    [apply msim_ret; reflexivity | apply msim_raise | apply msim_raise].
Qed.

Lemma msim_pick (pool : list string) (i : nat) :
  msim eq (pick R pool i) (pick R pool i).
Proof.
  unfold pick. destruct pool; [apply msim_raise | apply msim_ret; reflexivity].
Qed.

Lemma msim_make_node (name : string) (ty : Node.NodeType)
    (p1 p2 : option string) :
  option_Forall2 idR p1 p2 ->
  msim eq (_make_node R u1 self name ty p1) (_make_node R u2 self name ty p2).
Proof.
  intros Hp. unfold _make_node.
  eapply msim_bind; [apply msim_draw |]. intros u _ <-.
  eapply msim_bind; [apply msim_fresh_uuid |]. intros i1 i2 Hi.
  apply msim_alloc.
  destruct (decide _); unfold node_sim; cbn;
    repeat split; try reflexivity; try assumption; constructor.
Qed.

Lemma registered_sim (p : Node.t -> bool) (s1 s2 : Run R) (k1 k2 : string) :
  (forall n1 n2, node_sim n1 n2 -> p n1 = p n2) ->
  run_sim s1 s2 -> idR k1 k2 -> registered R p s1 k1 = registered R p s2 k2.
Proof.
  intros Hp Hs Hk. unfold registered.
  rewrite (get_sim _ _ _ _ (proj2 (proj2 (proj2 Hs))) Hk).
  destruct (Py.get (nodes s2) k2) as [r|]; [| reflexivity].
  destruct (deref_sim r s1 s2 Hs); [apply Hp; assumption | reflexivity].
Qed.

Lemma omap_sim {X Y Z} (RX : X -> Y -> Prop) (f : X -> option Z)
    (g : Y -> option Z) (l1 : list X) (l2 : list Y) :
  Forall2 RX l1 l2 -> (forall x y, RX x y -> f x = g y) ->
  omap f l1 = omap g l2.
Proof.
  intros Hl Hfg. induction Hl as [|x y l1 l2 Hxy _ IH]; simpl; [reflexivity |].
  rewrite (Hfg x y Hxy). destruct (g y); [f_equal |]; exact IH.
Qed.

Lemma existsb_sim {X Y} (RX : X -> Y -> Prop) (f : X -> bool) (g : Y -> bool)
    (l1 : list X) (l2 : list Y) :
  Forall2 RX l1 l2 -> (forall x y, RX x y -> f x = g y) ->
  existsb f l1 = existsb g l2.
Proof.
  intros Hl Hfg. induction Hl as [|x y l1 l2 Hxy _ IH]; simpl; [reflexivity |].
  rewrite (Hfg x y Hxy), IH. reflexivity.
Qed.

Lemma msim_lookup_child_name (name : string) (parent : nat) :
  msim eq (_lookup_child_name R name parent)
          (_lookup_child_name R name parent).
Proof.
  unfold _lookup_child_name. eapply msim_bind; [apply msim_read |].
  intros n1 n2 Hn. eapply msim_bind; [apply msim_get |].
  intros s1 s2 Hs. apply msim_ret.
  apply (omap_sim idR); [apply Hn |]. intros c1 c2 Hc.
  rewrite (registered_sim _ s1 s2 c1 c2); [reflexivity | | exact Hs | exact Hc].
  intros m1 m2 Hm. destruct Hm as (-> & _). reflexivity.
Qed.

Lemma msim_attach (parent child : nat) :
  msim eq (attach R parent child) (attach R parent child).
Proof.
  unfold attach. eapply msim_bind; [apply msim_read |].
  intros n1 n2 Hn. pose proof Hn as (_ & _ & Hid & _).
  eapply msim_bind; [apply msim_register, Hid |]. intros _ _ _.
  apply msim_add_child, Hid.
Qed.

Lemma msim_build_tree (remaining : nat) :
  forall parent,
    msim eq (_build_tree R u1 self remaining parent)
            (_build_tree R u2 self remaining parent).
Proof.
  induction remaining as [|remaining IH]; intros parent; simpl.
  - apply msim_ret. reflexivity.
  - eapply msim_bind; [apply msim_draw |]. intros g _ <-.
    eapply msim_bind; [apply msim_rounded_count |]. intros n _ <-.
    eapply msim_bind; [apply msim_draw |]. intros pool _ <-.
    apply msim_for_each. intros i.
    eapply msim_bind; [apply msim_pick |]. intros name0 _ <-.
    eapply msim_bind; [apply msim_lookup_child_name |]. intros clash _ <-.
    eapply msim_bind; [apply msim_read |]. intros p1 p2 Hp.
    eapply msim_bind.
    { apply msim_make_node. constructor. apply Hp. }
    intros child _ <-.
    eapply msim_bind; [apply msim_attach |]. intros _ _ _.
    apply IH.
Qed.

Lemma values_sim (d1 d2 : list (string * nat)) :
  Forall2 entry_sim d1 d2 -> Py.values d1 = Py.values d2.
Proof.
  unfold Py.values. induction 1 as [|[a x] [b y] d1 d2 [_ E] _ IH];
    simpl; [reflexivity |].
  cbn in E. rewrite E, IH. reflexivity.
Qed.

Lemma leaf_dirs_sim (s1 s2 : Run R) :
  run_sim s1 s2 -> leaf_dirs R s1 = leaf_dirs R s2.
Proof.
  intros Hs. unfold leaf_dirs.
  rewrite (values_sim _ _ (proj2 (proj2 (proj2 Hs)))).
  apply list_filter_iff. intros r. unfold is_leaf_dir.
  destruct (deref_sim r s1 s2 Hs) as [n1 n2 Hn|]; [| reflexivity].
  pose proof Hn as (_ & Hty & _ & _ & Hcs & _).
  unfold Node.is_directory at 1 3. rewrite Hty.
  rewrite (existsb_sim idR _ (registered R Node.is_directory s2) _ _ Hcs);
    [reflexivity |].
  intros c1 c2 Hc. apply registered_sim; [| exact Hs | exact Hc].
  intros m1 m2 (_ & Hm & _). unfold Node.is_directory. rewrite Hm.
  reflexivity.
Qed.

Lemma file_nodes_sim (s1 s2 : Run R) :
  run_sim s1 s2 -> file_nodes R s1 = file_nodes R s2.
Proof.
  intros Hs. unfold file_nodes.
  rewrite (values_sim _ _ (proj2 (proj2 (proj2 Hs)))).
  apply list_filter_iff. intros r. unfold is_file_node.
  destruct (deref_sim r s1 s2 Hs) as [n1 n2 (_ & Hty & _)|]; [| reflexivity].
  unfold Node.is_file. rewrite Hty. reflexivity.
Qed.

Lemma msim_populate :
  msim eq (_populate R u1 self) (_populate R u2 self).
Proof.
  unfold _populate.
  eapply msim_bind; [apply msim_gets, leaf_dirs_sim |].
  intros leaves _ <-. apply msim_for_each. intros leaf.
  eapply msim_bind; [apply msim_draw |]. intros g _ <-.
  eapply msim_bind; [apply msim_rounded_count |]. intros n _ <-.
  eapply msim_bind; [apply msim_draw |]. intros fpool _ <-.
  eapply msim_bind; [apply msim_draw |]. intros dpool _ <-.
  apply msim_for_each. intros i.
  eapply msim_bind; [apply msim_draw |]. intros u _ <-.
  eapply (msim_bind eq).
  { destruct (u <? _); apply msim_pick. }
  intros name _ <-.
  eapply msim_bind; [apply msim_read |]. intros p1 p2 Hp.
  eapply msim_bind.
  { apply msim_make_node. constructor. apply Hp. }
  intros child _ <-. apply msim_attach.
Qed.

Lemma msim_seed_artifacts :
  msim eq (_seed_artifacts R self) (_seed_artifacts R self).
Proof.
  unfold _seed_artifacts.
  eapply msim_bind; [apply msim_gets, file_nodes_sim |].
  intros files _ <-. apply msim_for_each. intros [i node].
  eapply msim_bind; [apply msim_draw |]. intros u _ <-.
  destruct (u <? _); [| apply msim_ret; reflexivity].
  eapply msim_bind.
  { apply msim_update. intros n1 n2 Hn. repeat split; apply Hn. }
  intros _ _ _. apply msim_update.
  intros n1 n2 (Hname & Hty & Hid & Hp & Hcs & Hco & Hv & Ha & Hm).
  repeat split; try assumption. cbn. rewrite Hm. reflexivity.
Qed.

(** The filesystems handed out have the same nodes up to the ids. *)
Definition fs_sim (f1 f2 : Filesystem.t) : Prop :=
  Forall2 (fun e1 e2 => idR e1.1 e2.1 /\ node_sim e1.2 e2.2)
          (Filesystem._nodes f1) (Filesystem._nodes f2)
  /\ idR (Filesystem._root_id f1) (Filesystem._root_id f2)
  /\ idR (Filesystem._cwd_id f1) (Filesystem._cwd_id f2).

Lemma registry_sim (s1 s2 : Run R) :
  run_sim s1 s2 ->
  Forall2 (fun e1 e2 => idR e1.1 e2.1 /\ node_sim e1.2 e2.2)
          (registry R s1) (registry R s2).
Proof.
  intros Hs. unfold registry.
  pose proof (proj2 (proj2 (proj2 Hs))) as Hd.
  induction Hd as [|[a x] [b y] d1 d2 [Hab E] _ IH]; simpl; [constructor |].
  cbn in Hab, E. subst y.
  destruct (deref_sim x s1 s2 Hs) as [n1 n2 Hn|]; simpl.
  - constructor; [split; assumption | exact IH].
  - exact IH.
Qed.

Lemma msim_generate_run :
  msim fs_sim (generate_run R u1 self) (generate_run R u2 self).
Proof.
  unfold generate_run.
  eapply msim_bind; [apply msim_make_node; constructor |]. intros root _ <-.
  eapply msim_bind.
  { apply msim_update. intros n1 n2 Hn. repeat split; apply Hn. }
  intros _ _ _.
  eapply msim_bind; [apply msim_read |]. intros r1 r2 Hr.
  eapply msim_bind; [apply msim_register, Hr |]. intros _ _ _.
  eapply msim_bind; [apply msim_build_tree |]. intros _ _ _.
  eapply msim_bind; [apply msim_populate |]. intros _ _ _.
  eapply msim_bind; [apply msim_seed_artifacts |]. intros _ _ _.
  eapply msim_bind; [apply msim_read |]. intros n1 n2 Hn.
  eapply msim_bind; [apply msim_get |]. intros s1 s2 Hs.
  pose proof Hn as (_ & Hty & Hid & _).
  unfold Filesystem.init, Node.is_directory. rewrite Hty.
  destruct (negb _); [apply msim_raise |].
  apply msim_ret. repeat split; try assumption.
  apply registry_sim, Hs.
Qed.

Lemma shape_sim (n1 n2 : Node.t) : node_sim n1 n2 -> shape n1 = shape n2.
Proof.
  intros (Hname & Hty & Hid & Hp & Hcs & Hco & Hv & Ha & Hm).
  unfold shape. rewrite Hname, Hty, Hco, Hv, Ha, (Forall2_length _ _ _ Hcs).
  reflexivity.
Qed.

Lemma shapes_sim (l1 l2 : list Node.t) :
  Forall2 node_sim l1 l2 -> map shape l1 = map shape l2.
Proof.
  induction 1 as [|n1 n2 l1 l2 Hn _ IH]; simpl; [reflexivity |].
  rewrite (shape_sim _ _ Hn), IH. reflexivity.
Qed.

Lemma all_nodes_sim (f1 f2 : Filesystem.t) :
  fs_sim f1 f2 ->
  Forall2 node_sim (Filesystem.all_nodes f1) (Filesystem.all_nodes f2).
Proof.
  intros (Hn & _). unfold Filesystem.all_nodes, Py.values.
  induction Hn as [|[a x] [b y] d1 d2 [_ Hxy] _ IH]; simpl; constructor;
    assumption.
Qed.

Lemma start_sim : run_sim (start R self) (start R self).
Proof. repeat split; constructor. Qed.

(** C1.  Two calls of [generate] on the same generator (the same profile
    and seed), whatever the pseudo-random algorithm, differ in nothing but
    the node ids, as long as each call draws ids that are distinct from one
    another: the nodes created are, one by one in the order of creation, of
    the same name, type, corruption, visibility, artifact id and number of
    children (so there are as many of them); and either both calls return
    a filesystem, with as many registered nodes, which agree one by one in
    the same way, or both raise the same exception. *)
Theorem generate_is_deterministic :
  map shape (generate R u1 self).2 = map shape (generate R u2 self).2
  /\ match (generate R u1 self).1, (generate R u2 self).1 with
     | Ok f1, Ok f2 =>
         length (Filesystem.all_nodes f1) = length (Filesystem.all_nodes f2)
         /\ map shape (Filesystem.all_nodes f1)
            = map shape (Filesystem.all_nodes f2)
     | Raise e1, Raise e2 => e1 = e2
     | _, _ => False
     end.
Proof.
  unfold generate.
  pose proof (msim_generate_run (start R self) (start R self)
                EventQueue.init start_sim) as H.
  destruct (generate_run R u1 self (start R self) EventQueue.init)
    as [[[f1|e1] s1] q1],
    (generate_run R u2 self (start R self) EventQueue.init)
    as [[[f2|e2] s2] q2]; try contradiction; cbn [fst snd].
  - destruct H as (Hf & (_ & _ & Hh & _) & _).
    split; [apply shapes_sim, Hh |].
    pose proof (all_nodes_sim f1 f2 Hf) as Ha.
    split; [apply (Forall2_length _ _ _ Ha) | apply shapes_sim, Ha].
  - destruct H as (He & (_ & _ & Hh & _) & _).
    split; [apply shapes_sim, Hh | exact He].
Qed.
End Simulation.

Lemma first_uuids_inj : Inj (=) (=) first_uuids.
Proof.
  intros j k E. unfold first_uuids in E. cbn in E. injection E as E.
  apply (inj pretty), E.
Qed.

Lemma second_uuids_inj : Inj (=) (=) second_uuids.
Proof.
  intros j k E. unfold second_uuids in E. cbn in E. injection E as E.
  apply (inj pretty), E.
Qed.

(** The site of the sample profile, generated twice with two families of
    ids. *)
Lemma generate_is_deterministic_witness :
  let gen := SiteGenerator.init sample_profile None in
  let first := SiteGenerator.generate toy_random first_uuids gen in
  let second := SiteGenerator.generate toy_random second_uuids gen in
  map shape first.2 = map shape second.2
  /\ match first.1, second.1 with
     | Sys.Ok f1, Sys.Ok f2 =>
         length (Filesystem.all_nodes f1) = length (Filesystem.all_nodes f2)
         /\ map shape (Filesystem.all_nodes f1)
            = map shape (Filesystem.all_nodes f2)
     | Sys.Raise e1, Sys.Raise e2 => e1 = e2
     | _, _ => False
     end.
Proof.
  exact (generate_is_deterministic toy_random first_uuids second_uuids
           (SiteGenerator.init sample_profile None)
           first_uuids_inj second_uuids_inj).
Defined.

Example generate_sample_site :
  map (fun n => (Node.name n, Node.node_type n, Node.visibility n,
                 Node.artifact_id n))
    (SiteGenerator.generate toy_random first_uuids
       (SiteGenerator.init sample_profile None)).2
  = [("root", Node.DIRECTORY, Node.REVEALED, None);
     ("index.dat", Node.FILE, Node.HIDDEN, Some "arc_corporate_0000");
     ("notes.txt", Node.FILE, Node.HIDDEN, Some "arc_corporate_0001")].
Proof. vm_compute. reflexivity. Qed.

(* ===================================================================== *)
(** * Part III: further properties of the code                            *)
(* ===================================================================== *)

(** ** EventQueue: subscriptions and the turn *)

Section DictLookup.
Context {K V : Type} `{EqDecision K}.

Lemma get_setitem (d : list (K * V)) (k k' : K) (v : V) :
  Py.get (Py.setitem d k v) k'
  = if decide (k = k') then Some v else Py.get d k'.
Proof.
  induction d as [|[k0 v0] d IH]; simpl.
  - destruct (decide (k = k')); reflexivity.
  - destruct (decide (k0 = k)) as [->|Hne]; simpl.
    + destruct (decide (k = k')); reflexivity.
    + destruct (decide (k0 = k')) as [->|Hne'].
      * rewrite decide_False by (intros E; apply Hne; symmetry; exact E).
        reflexivity.
      * exact IH.
Qed.

Lemma keys_setitem (d : list (K * V)) (k : K) (v : V) :
  Py.keys (Py.setitem d k v)
  = if Py.contains d k then Py.keys d else Py.keys d ++ [k].
Proof.
  unfold Py.keys, Py.contains. induction d as [|[k0 v0] d IH]; simpl.
  - reflexivity.
  - destruct (decide (k0 = k)) as [->|Hne]; simpl; [reflexivity |].
    rewrite IH. destruct (Py.get d k); reflexivity.
Qed.
End DictLookup.

Section SubscriptionFacts.
Import EventQueue.

Lemma list_remove_absent (h : Handler) (hs : list Handler) :
  h ∉ hs -> list_remove h hs = None.
Proof.
  induction hs as [|a hs IH]; simpl; [reflexivity |].
  intros Hn. apply not_elem_of_cons in Hn as [Hne Hn].
  rewrite decide_False by (intros E; apply Hne; symmetry; exact E).
  rewrite (IH Hn). reflexivity.
Qed.

Lemma list_remove_last (h : Handler) (hs : list Handler) :
  h ∉ hs -> list_remove h (hs ++ [h]) = Some hs.
Proof.
  induction hs as [|a hs IH]; simpl.
  - intros _. rewrite decide_True by reflexivity. reflexivity.
  - intros Hn. apply not_elem_of_cons in Hn as [Hne Hn].
    rewrite decide_False by (intros E; apply Hne; symmetry; exact E).
    rewrite (IH Hn). reflexivity.
Qed.

Lemma filter_ne_absent (h : Handler) (hs : list Handler) :
  h ∉ hs -> filter (fun x => x <> h) hs = hs.
Proof.
  induction hs as [|a hs IH]; [reflexivity |].
  intros Hn. apply not_elem_of_cons in Hn as [Hne Hn].
  rewrite filter_cons_True by (intros E; apply Hne; symmetry; exact E).
  rewrite (IH Hn). reflexivity.
Qed.

(** On a list without repetition, dropping the first occurrence drops
    every occurrence. *)
Lemma list_remove_filter (h : Handler) (hs : list Handler) :
  NoDup hs ->
  default hs (list_remove h hs) = filter (fun x => x <> h) hs.
Proof.
  induction hs as [|a hs IH]; [reflexivity |].
  intros [Ha Hnd]%NoDup_cons. simpl.
  destruct (decide (a = h)) as [->|Hne].
  - rewrite filter_cons_False by (intros E; apply E; reflexivity).
    simpl. symmetry. apply filter_ne_absent, Ha.
  - rewrite filter_cons_True by exact Hne.
    specialize (IH Hnd). destruct (list_remove h hs); simpl in *;
      f_equal; exact IH.
Qed.

Lemma handlers_for_subscribe (ty : EventType) (h : Handler) (q : t)
    (ty' : EventType) :
  handlers_for (subscribe ty h q) ty'
  = if decide (ty = ty')
    then if bool_decide (h ∈ handlers_for q ty) then handlers_for q ty
         else handlers_for q ty ++ [h]
    else handlers_for q ty'.
Proof.
  unfold subscribe, subscribers_getitem, handlers_for, handler_in.
  destruct (Py.get (_subscribers q) ty) as [hs|] eqn:G; cbn [default from_option id].
  - destruct (bool_decide (h ∈ hs)).
    + destruct (decide (ty = ty')) as [<-|]; [rewrite G |]; reflexivity.
    + cbn [_subscribers set_subscribers]. rewrite get_setitem.
      destruct (decide (ty = ty')); reflexivity.
  - rewrite bool_decide_eq_false_2 by (intros Hin; inversion Hin).
    cbn [_subscribers set_subscribers]. rewrite !get_setitem.
    destruct (decide (ty = ty')); reflexivity.
Qed.

Lemma handlers_for_unsubscribe (ty : EventType) (h : Handler) (q : t)
    (ty' : EventType) :
  handlers_for (unsubscribe ty h q) ty'
  = if decide (ty = ty')
    then default (handlers_for q ty) (list_remove h (handlers_for q ty))
    else handlers_for q ty'.
Proof.
  unfold unsubscribe, subscribers_getitem, handlers_for.
  destruct (Py.get (_subscribers q) ty) as [hs|] eqn:G; cbn [default from_option id].
  - destruct (list_remove h hs) as [hs'|]; cbn [default from_option id].
    + cbn [_subscribers set_subscribers]. rewrite get_setitem.
      destruct (decide (ty = ty')); reflexivity.
    + destruct (decide (ty = ty')) as [<-|]; [rewrite G |]; reflexivity.
  - cbn [list_remove _subscribers set_subscribers]. rewrite get_setitem.
    destruct (decide (ty = ty')); reflexivity.
Qed.

Lemma handlers_for_unsubscribe_all (h : Handler) (q : t) (ty : EventType) :
  handlers_for (unsubscribe_all h q) ty
  = default (handlers_for q ty) (list_remove h (handlers_for q ty)).
Proof.
  unfold unsubscribe_all, handlers_for. cbn [_subscribers set_subscribers].
  induction (_subscribers q) as [|[k hs] d IH]; simpl; [reflexivity |].
  destruct (decide (k = ty)); [| exact IH].
  cbn [default from_option id]. destruct (list_remove h hs); reflexivity.
Qed.

Lemma NoDup_removed (h : Handler) (hs : list Handler) :
  NoDup hs -> NoDup (default hs (list_remove h hs)).
Proof.
  intros Hnd. rewrite (list_remove_filter h hs Hnd).
  apply NoDup_filter, Hnd.
Qed.

Lemma subscribe_once (ty : EventType) (h : Handler) (q : t) :
  subscribed_once q -> subscribed_once (subscribe ty h q).
Proof.
  intros Hq ty'. rewrite handlers_for_subscribe.
  destruct (decide (ty = ty')); [| apply Hq].
  case_bool_decide as Hin; [apply Hq |].
  apply NoDup_app. repeat split; [apply Hq | | apply NoDup_singleton].
  intros x Hx ->%list_elem_of_singleton. contradiction.
Qed.

Lemma unsubscribe_once (ty : EventType) (h : Handler) (q : t) :
  subscribed_once q -> subscribed_once (unsubscribe ty h q).
Proof.
  intros Hq ty'. rewrite handlers_for_unsubscribe.
  destruct (decide (ty = ty')); [apply NoDup_removed |]; apply Hq.
Qed.

Lemma unsubscribe_all_once (h : Handler) (q : t) :
  subscribed_once q -> subscribed_once (unsubscribe_all h q).
Proof.
  intros Hq ty. rewrite handlers_for_unsubscribe_all.
  apply NoDup_removed, Hq.
Qed.

Lemma init_once : subscribed_once init.
Proof. intros ty. apply NoDup_nil_2. Qed.

Lemma post_all_app (es es' : list Event) (q : t) :
  post_all (es ++ es') q = post_all es' (post_all es q).
Proof. unfold post_all. apply foldl_app. Qed.

Lemma post_all_fields (es : list Event) (q : t) :
  _pending (post_all es q) = _pending q ++ immediate_among es
  /\ _deferred (post_all es q) = _deferred q ++ deferred_among es
  /\ _subscribers (post_all es q) = _subscribers q
  /\ _turn (post_all es q) = _turn q
  /\ _flushing (post_all es q) = _flushing q.
Proof.
  revert q. induction es as [|e es IH]; intros q.
  - unfold immediate_among, deferred_among. simpl.
    rewrite !app_nil_r. repeat split.
  - change (post_all (e :: es) q) with (post_all es (post e q)).
    destruct (IH (post e q)) as (Hp & Hd & Hs & Ht & Hf).
    rewrite Hp, Hd, Hs, Ht, Hf. unfold immediate_among, deferred_among, post.
    destruct (timing e) eqn:E.
    + rewrite filter_cons_True by exact E.
      rewrite filter_cons_False by (rewrite E; discriminate).
      cbn. rewrite <- app_assoc. repeat split.
    + rewrite filter_cons_False by (rewrite E; discriminate).
      rewrite filter_cons_True by exact E.
      cbn. rewrite <- app_assoc. repeat split.
Qed.
End SubscriptionFacts.

Section SubscriptionProperties.
Import EventQueue.

(** X1.  [subscribe] registers a handler once: a handler that is already
    subscribed to the type is not added again, a new one goes to the end of
    the type's list, the subscribers of the other types and the events held
    are untouched, and subscribing twice is subscribing once. *)
Theorem subscribe_registers_once (ty : EventType) (h : Handler) (q : t) :
  handlers_for (subscribe ty h q) ty
  = (if bool_decide (h ∈ handlers_for q ty) then handlers_for q ty
     else handlers_for q ty ++ [h])
  /\ h ∈ handlers_for (subscribe ty h q) ty
  /\ (forall ty', ty' <> ty ->
        handlers_for (subscribe ty h q) ty' = handlers_for q ty')
  /\ subscribe ty h (subscribe ty h q) = subscribe ty h q
  /\ _pending (subscribe ty h q) = _pending q
  /\ _deferred (subscribe ty h q) = _deferred q
  /\ _turn (subscribe ty h q) = _turn q.
Proof.
  assert (Hty : handlers_for (subscribe ty h q) ty
                = (if bool_decide (h ∈ handlers_for q ty)
                   then handlers_for q ty else handlers_for q ty ++ [h])).
  { rewrite handlers_for_subscribe, decide_True by reflexivity. reflexivity. }
  assert (Hin : h ∈ handlers_for (subscribe ty h q) ty).
  { rewrite Hty. case_bool_decide as Hh; [exact Hh |].
    apply elem_of_app. right. left. }
  split; [exact Hty |]. split; [exact Hin |].
  split.
  { intros ty' Hne. rewrite handlers_for_subscribe.
    rewrite decide_False by (intros E; apply Hne; symmetry; exact E).
    reflexivity. }
  split.
  { revert Hin. generalize (subscribe ty h q). intros q1 Hin.
    unfold handlers_for in Hin. unfold subscribe, subscribers_getitem.
    destruct (Py.get (_subscribers q1) ty) as [hs|]; cbn [default from_option id] in Hin.
    - unfold handler_in. rewrite bool_decide_eq_true_2 by exact Hin.
      reflexivity.
    - inversion Hin. }
  unfold subscribe, subscribers_getitem.
  destruct (Py.get (_subscribers q) ty);
    [destruct (handler_in h _) | destruct (handler_in h _)];
    repeat split.
Qed.

(** X2.  No sequence of operations of the queue subscribes a handler twice
    to one type: the empty queue has no double subscription and [subscribe],
    [unsubscribe], [unsubscribe_all], [post] and [advance_turn] keep it
    so. *)
Theorem subscriptions_stay_unique :
  subscribed_once init
  /\ forall q, subscribed_once q ->
       (forall ty h, subscribed_once (subscribe ty h q))
       /\ (forall ty h, subscribed_once (unsubscribe ty h q))
       /\ (forall h, subscribed_once (unsubscribe_all h q))
       /\ (forall e, subscribed_once (post e q))
       /\ subscribed_once (advance_turn q).
Proof.
  split; [apply init_once |]. intros q Hq.
  split; [intros ty h; apply subscribe_once, Hq |].
  split; [intros ty h; apply unsubscribe_once, Hq |].
  split; [intros h; apply unsubscribe_all_once, Hq |].
  split.
  - intros e ty. unfold handlers_for. rewrite post_subscribers. apply Hq.
  - intros ty. apply Hq.
Qed.


(** X4.  [unsubscribe_all] takes the handler off the list of every type:
    where a list holds no double subscription the handler is gone from it
    and the other handlers keep their order; the events held and the turn
    are untouched. *)
Theorem unsubscribe_all_removes_everywhere (h : Handler) (q : t)
    (ty : EventType) :
  (NoDup (handlers_for q ty) ->
     handlers_for (unsubscribe_all h q) ty
     = filter (fun x => x <> h) (handlers_for q ty)
     /\ h ∉ handlers_for (unsubscribe_all h q) ty)
  /\ (h ∉ handlers_for q ty ->
      handlers_for (unsubscribe_all h q) ty = handlers_for q ty)
  /\ _pending (unsubscribe_all h q) = _pending q
  /\ _deferred (unsubscribe_all h q) = _deferred q
  /\ _turn (unsubscribe_all h q) = _turn q.
Proof.
  rewrite handlers_for_unsubscribe_all. split.
  { intros Hnd. rewrite (list_remove_filter _ _ Hnd). split; [reflexivity |].
    intros [Hne _]%list_elem_of_filter. apply Hne. reflexivity. }
  split; [| repeat split].
  intros Hn. rewrite (list_remove_absent _ _ Hn). reflexivity.
Qed.

(** X5.  The events posted during a turn and the turn boundary: immediate
    events join the pending list at once, deferred ones wait; [advance_turn]
    then moves the waiting events, in the order posted, behind everything
    already pending, announces the new turn after them with its number,
    and leaves nothing waiting. *)
Theorem advance_turn_promotes_deferred (es : list Event) (q : t) :
  _pending (post_all es q) = _pending q ++ immediate_among es
  /\ _deferred (post_all es q) = _deferred q ++ deferred_among es
  /\ _pending (advance_turn (post_all es q))
     = _pending q ++ immediate_among es
       ++ _deferred q ++ deferred_among es
       ++ [turn_advanced_event (_turn q + 1)]
  /\ _deferred (advance_turn (post_all es q)) = []
  /\ _turn (advance_turn (post_all es q)) = (_turn q + 1)%Z
  /\ _subscribers (advance_turn (post_all es q)) = _subscribers q.
Proof.
  destruct (post_all_fields es q) as (Hp & Hd & Hs & Ht & Hf).
  split; [exact Hp |]. split; [exact Hd |].
  unfold advance_turn, post_immediate, post. cbn.
  rewrite Hp, Hd, Hs, Ht, <- !app_assoc. repeat split.
Qed.
End SubscriptionProperties.

(** ** EventQueue: deferred events across a flush, and handlers that
    unsubscribe while they are called *)

Section DeferredFacts.
Import EventQueue.
Context {H : Type} (body : Handler -> Event -> H -> t -> H * list Call).
Hypothesis quiet : forall h e o q, Forall only_posts (body h e o q).2.
Variable flush_rec : @World H -> option (@World H).
Hypothesis flush_rec_nested :
  forall w, _flushing (queue w) = true -> flush_rec w = Some w.

(** What a flush in progress keeps: the flag, the turn; and what waits. *)
Definition waiting_grows (w w' : @World H) (es : list Event) : Prop :=
  _flushing (queue w') = true
  /\ _turn (queue w') = _turn (queue w)
  /\ _deferred (queue w') = _deferred (queue w) ++ deferred_among es.

Lemma run_calls_deferred (cs : list Call) :
  Forall only_posts cs ->
  forall w w', _flushing (queue w) = true ->
    run_calls flush_rec cs w = Some w' ->
    trace w' = trace w /\ waiting_grows w w' (posts_of cs).
Proof.
  induction 1 as [|c cs Hc _ IH]; intros w w' Hf.
  - intros [= <-]. split; [reflexivity |]. repeat split; try assumption.
    unfold deferred_among. simpl. rewrite app_nil_r. reflexivity.
  - destruct c; try contradiction; cbn [run_calls run_call posts_of].
    + intros Hrun.
      destruct (IH (with_queue (post event) w) w') as (Ht & Hf' & Htn & Hd).
      { cbn. rewrite post_flushing. exact Hf. }
      { exact Hrun. }
      split; [exact Ht |]. split; [exact Hf' |].
      cbn in Htn, Hd. unfold post in Htn, Hd. unfold deferred_among.
      destruct (timing event) eqn:E.
      * rewrite filter_cons_False by (rewrite E; discriminate).
        split; assumption.
      * rewrite filter_cons_True by exact E.
        cbn in Htn, Hd. rewrite <- app_assoc in Hd. split; assumption.
    + rewrite (flush_rec_nested w Hf). apply IH, Hf.
Qed.

Lemma call_handler_deferred (h : Handler) (e : Event) (w w' : World) :
  _flushing (queue w) = true ->
  call_handler body flush_rec h e w = Some w' ->
  exists cs, trace w' = trace w ++ [(e, h, cs)]
             /\ waiting_grows w w' (posts_of cs).
Proof.
  intros Hf. unfold call_handler.
  pose proof (quiet h e (outside w) (queue w)) as Hq.
  destruct (body h e (outside w) (queue w)) as [o cs]. cbn [snd] in Hq.
  intros Hrun.
  destruct (run_calls_deferred cs Hq
              {| outside := o; queue := queue w;
                 trace := trace w ++ [(e, h, cs)] |} w' Hf Hrun)
    as (Ht & Hg).
  exists cs. split; [exact Ht | exact Hg].
Qed.

Lemma waiting_grows_trans (w1 w2 w3 : @World H) (es es' : list Event) :
  waiting_grows w1 w2 es -> waiting_grows w2 w3 es' ->
  waiting_grows w1 w3 (es ++ es').
Proof.
  intros (_ & Ht & Hd) (Hf & Ht' & Hd'). split; [exact Hf |].
  split; [congruence |].
  rewrite Hd', Hd. unfold deferred_among.
  rewrite filter_app, <- app_assoc. reflexivity.
Qed.

Lemma waiting_grows_refl (w : @World H) :
  _flushing (queue w) = true -> waiting_grows w w [].
Proof.
  intros Hf. repeat split; [exact Hf |].
  unfold deferred_among. simpl. rewrite app_nil_r. reflexivity.
Qed.

Lemma for_handlers_deferred (ty : EventType) (e : Event) (fuel : nat) :
  forall (j : nat) (w w' : World),
    _flushing (queue w) = true ->
    for_handlers body flush_rec fuel ty e j w = Some w' ->
    exists tr, trace w' = trace w ++ tr
               /\ waiting_grows w w' (flat_map (fun d => posts_of d.2) tr).
Proof.
  induction fuel as [|fuel IH]; intros j w w' Hf; [discriminate |].
  cbn [for_handlers].
  destruct (default [] (Py.get (_subscribers (queue w)) ty) !! j) as [h|].
  - destruct (call_handler body flush_rec h e w) as [w1|] eqn:E;
      [| discriminate].
    destruct (call_handler_deferred h e w w1 Hf E) as (cs & Ht & Hg).
    intros Hrun.
    destruct (IH (S j) w1 w' (proj1 Hg) Hrun) as (tr & Ht' & Hg').
    exists ((e, h, cs) :: tr).
    split; [rewrite Ht', Ht, <- app_assoc; reflexivity |].
    exact (waiting_grows_trans _ _ _ _ _ Hg Hg').
  - intros [= <-]. exists []. rewrite app_nil_r.
    split; [reflexivity | apply waiting_grows_refl, Hf].
Qed.

Lemma while_pending_deferred (fuel : nat) :
  forall (i : nat) (w w' : World),
    _flushing (queue w) = true ->
    while_pending body flush_rec fuel i w = Some w' ->
    exists tr, trace w' = trace w ++ tr
               /\ waiting_grows w w' (flat_map (fun d => posts_of d.2) tr).
Proof.
  induction fuel as [|fuel IH]; intros i w w' Hf; [discriminate |].
  cbn [while_pending].
  destruct (_pending (queue w) !! i) as [event|].
  - destruct (default [] _) as [|h hs].
    + apply IH, Hf.
    + destruct (for_handlers body flush_rec fuel (type event) event 0 w)
        as [w1|] eqn:Hfor; [| discriminate].
      destruct (for_handlers_deferred _ _ _ _ _ _ Hf Hfor)
        as (tr1 & Ht1 & Hg1).
      intros Hrun.
      destruct (IH (S i) w1 w' (proj1 Hg1) Hrun) as (tr2 & Ht2 & Hg2).
      exists (tr1 ++ tr2).
      split; [rewrite Ht2, Ht1, <- app_assoc; reflexivity |].
      rewrite flat_map_app. exact (waiting_grows_trans _ _ _ _ _ Hg1 Hg2).
  - intros [= <-]. exists []. rewrite app_nil_r.
    split; [reflexivity | apply waiting_grows_refl, Hf].
Qed.
End DeferredFacts.

Section TurnCycle.
Import EventQueue.
Context {H : Type} (body : Handler -> Event -> H -> t -> H * list Call).

End TurnCycle.


Section SelfUnsubscribe.
Import EventQueue.
Context {H : Type} (body : Handler -> Event -> H -> t -> H * list Call).
Variable flush_rec : @World H -> option (@World H).

(** The loop over the subscribers from position [j] on, when the handlers
    left make no call. *)
Lemma for_handlers_silent (ty : EventType) (e : Event) (fuel : nat) :
  forall (j : nat) (w : World),
    (forall x o q, x ∈ drop j (handlers_for (queue w) ty) ->
                   (body x e o q).2 = []) ->
    length (handlers_for (queue w) ty) - j < fuel ->
    exists w',
      for_handlers body flush_rec fuel ty e j w = Some w'
      /\ queue w' = queue w
      /\ trace w'
         = trace w
           ++ map (fun x => (e, x, [])) (drop j (handlers_for (queue w) ty)).
Proof.
  induction fuel as [|fuel IH]; intros j w Hs Hlt; [lia |].
  cbn [for_handlers]. fold (handlers_for (queue w) ty).
  destruct (handlers_for (queue w) ty !! j) as [h|] eqn:Hj.
  - unfold call_handler.
    assert (Hh : h ∈ drop j (handlers_for (queue w) ty))
      by (rewrite (drop_S _ _ _ Hj); left).
    pose proof (Hs h (outside w) (queue w) Hh) as Hb.
    destruct (body h e (outside w) (queue w)) as [o cs]. cbn [snd] in Hb.
    subst cs. cbn [run_calls].
    destruct (IH (S j) {| outside := o; queue := queue w;
                          trace := trace w ++ [(e, h, [])] |})
      as (w' & E & Hq & Ht).
    { cbn [queue]. intros x o' q' Hx. apply Hs.
      rewrite (drop_S _ _ _ Hj). right. exact Hx. }
    { cbn [queue]. apply lookup_lt_Some in Hj. lia. }
    exists w'. split; [exact E |]. split; [exact Hq |].
    rewrite Ht. cbn [queue trace]. rewrite (drop_S _ _ _ Hj).
    rewrite <- app_assoc. reflexivity.
  - exists w. split; [reflexivity |]. split; [reflexivity |].
    rewrite drop_ge by (apply lookup_ge_None_1, Hj).
    rewrite app_nil_r. reflexivity.
Qed.
Lemma for_handlers_next (ty : EventType) (e : Event) (fuel j : nat)
    (w : World) (h : Handler) :
  handlers_for (queue w) ty !! j = Some h ->
  for_handlers body flush_rec (S fuel) ty e j w
  = match call_handler body flush_rec h e w with
    | Some w' => for_handlers body flush_rec fuel ty e (S j) w'
    | None => None
    end.
Proof.
  intros Hj. cbn [for_handlers]. fold (handlers_for (queue w) ty).
  rewrite Hj. reflexivity.
Qed.

Lemma while_pending_next (fuel i : nat) (w : World) (ev : Event)
    (h : Handler) (hs : list Handler) :
  _pending (queue w) !! i = Some ev ->
  handlers_for (queue w) (type ev) = h :: hs ->
  while_pending body flush_rec (S fuel) i w
  = match for_handlers body flush_rec fuel (type ev) ev 0 w with
    | Some w' => while_pending body flush_rec fuel (S i) w'
    | None => None
    end.
Proof.
  intros Hi Hhs. cbn [while_pending]. rewrite Hi.
  fold (handlers_for (queue w) (type ev)). rewrite Hhs. reflexivity.
Qed.

Lemma while_pending_done (fuel i : nat) (w : World) :
  _pending (queue w) !! i = None ->
  while_pending body flush_rec (S fuel) i w = Some w.
Proof. intros Hi. cbn [while_pending]. rewrite Hi. reflexivity. Qed.
End SelfUnsubscribe.

Section SelfUnsubscribeProperty.
Import EventQueue.
Context {H : Type} (body : Handler -> Event -> H -> t -> H * list Call).

(** X7.  A handler that unsubscribes itself while it is called makes the
    subscriber after it miss the event.  The loop of [flush] walks the live
    list of subscribers by position: when the first subscriber [h] of the
    type of the pending event takes itself off the list, the second
    subscriber [h'] moves to the position already visited and is not
    called; the subscribers after it are called as usual. *)
Theorem self_unsubscribe_skips_next (w : @World H) (e : Event)
    (h h' : Handler) (rest : list Handler) :
  _flushing (queue w) = false ->
  _pending (queue w) = [e] ->
  handlers_for (queue w) (type e) = h :: h' :: rest ->
  (forall o q, (body h e o q).2 = [CallUnsubscribe (type e) h]) ->
  (forall x o q, x ∈ rest -> (body x e o q).2 = []) ->
  exists w',
    flush body (length rest + 4) w = Some w'
    /\ map fst (trace w') = map fst (trace w) ++ (e, h) :: map (pair e) rest
    /\ handlers_for (queue w') (type e) = h' :: rest
    /\ _pending (queue w') = [].
Proof.
  intros Hf Hp Hhs Hself Hrest.
  set (n := length rest + 1).
  replace (length rest + 4) with (S (S (S n))) by (unfold n; lia).
  assert (Hflush : forall fuel,
            flush body (S fuel) w
            = match while_pending body (flush body fuel) fuel 0
                      (with_queue (set_flushing true) w) with
              | Some w' =>
                  Some (with_queue
                          (fun q => set_flushing false (set_pending [] q)) w')
              | None => None
              end)
    by (intros fuel; cbn [flush]; rewrite Hf; reflexivity).
  rewrite Hflush. clear Hflush.
  set (rec := flush body (S (S n))).
  set (w0 := with_queue (set_flushing true) w).
  assert (Hhs0 : handlers_for (queue w0) (type e) = h :: h' :: rest)
    by exact Hhs.
  rewrite (while_pending_next body rec (S n) 0 w0 e h (h' :: rest))
    by (try exact Hhs0; cbn; rewrite Hp; reflexivity).
  rewrite (for_handlers_next body rec (type e) e n 0 w0 h)
    by (rewrite Hhs0; reflexivity).
  unfold call_handler at 1.
  pose proof (Hself (outside w0) (queue w0)) as Hb.
  destruct (body h e (outside w0) (queue w0)) as [o cs].
  cbn [snd] in Hb. subst cs. cbn [run_calls run_call].
  set (w1 := with_queue (unsubscribe (type e) h)
               {| outside := o; queue := queue w0;
                  trace := trace w0
                           ++ [(e, h, [CallUnsubscribe (type e) h])] |}).
  assert (Hhs1 : handlers_for (queue w1) (type e) = h' :: rest).
  { unfold w1. cbn [queue with_queue].
    rewrite handlers_for_unsubscribe, decide_True by reflexivity.
    fold (queue w0). rewrite Hhs0. cbn [list_remove].
    rewrite decide_True by reflexivity. reflexivity. }
  assert (Hp1 : _pending (queue w1) = [e]).
  { unfold w1. cbn [queue with_queue]. unfold unsubscribe, subscribers_getitem.
    destruct (Py.get _ _); [destruct (list_remove h _) |]; exact Hp. }
  destruct (for_handlers_silent body rec (type e) e n 1 w1)
    as (w2 & E & Hq & Ht).
  { rewrite Hhs1. cbn [drop]. rewrite drop_0. intros x o' q' Hx.
    apply Hrest, Hx. }
  { rewrite Hhs1. cbn [length]. unfold n. lia. }
  rewrite E.
  assert (n = S (length rest)) as -> by (unfold n; lia).
  rewrite while_pending_done by (rewrite Hq, Hp1; reflexivity).
  eexists. split; [reflexivity |].
  cbn [queue with_queue trace]. rewrite Hq.
  split.
  { rewrite Ht, Hhs1. unfold w1. cbn [trace with_queue drop].
    rewrite drop_0, !map_app, map_map. cbn [map fst].
    rewrite <- app_assoc. reflexivity. }
  split; [| reflexivity].
  change (handlers_for (set_flushing false (set_pending [] (queue w1)))
            (type e))
    with (handlers_for (queue w1) (type e)).
  exact Hhs1.
Qed.
End SelfUnsubscribeProperty.

(** With handlers 1 and 2 subscribed to ARTIFACT_FOUND, handler 1
    unsubscribing itself: handler 2 is never called for the artifact. *)
Lemma self_unsubscribe_skips_next_witness :
  exists w',
    EventQueue.flush one_shot_body 4 sample_world = Some w'
    /\ map fst (EventQueue.trace w') = [(sample_found, 1)]
    /\ handlers_for (EventQueue.queue w') EventQueue.ARTIFACT_FOUND = [2]
    /\ EventQueue._pending (EventQueue.queue w') = [].
Proof.
  exact (self_unsubscribe_skips_next one_shot_body sample_world sample_found
           1 2 [] eq_refl eq_refl eq_refl (fun _ _ => eq_refl)
           (fun x _ _ (Hx : x ∈ []) =>
              match not_elem_of_nil x Hx with end)).
Defined.

(** ** ResourceManager: the ratio, the maximum, the passive drain *)

Section ResourceManagerProperties.
Import Sys ResourceManager.
Local Open Scope float_scope.

(** X8.  The ratio of a gauge lies within [[0, 1]] whatever the gauge
    holds: a maximum that is not positive gives 0, and otherwise the
    quotient is clamped (a quotient that is not a number gives 1). *)
Theorem ratio_within_unit_interval (s : ResourceSlot) :
  (0 <=? ratio s) = true /\ (ratio s <=? 1) = true.
Proof.
  unfold ratio. destruct (maximum s <=? 0).
  - split; reflexivity.
  - apply clamp_bounds. reflexivity.
Qed.

(** X9.  [set_maximum] refuses a maximum that is not positive with a
    [ValueError] and changes nothing; given a positive one it sets the
    maximum of the gauge and lowers the current value to it when it was
    above: afterwards the current value of a gauge that held a number does
    not exceed the maximum, a current value that was within the new maximum
    is kept, and the other gauges are untouched. *)
Theorem set_maximum_caps_current (r : Resource) (new_max : float) (rm : t)
    (q : EventQueue.t) :
  let cur := current (slot r rm) in
  ((new_max <=? 0) = true ->
     set_maximum r new_max rm q = (Raise ValueError, rm, q))
  /\ ((0 <? new_max) = true ->
      exists rm',
        set_maximum r new_max rm q
        = (Ok tt, rm', posted [changed_event r 0 "Upgrade" (slot r rm')] q)
        /\ maximum (slot r rm') = new_max
        /\ current (slot r rm') = Py.min cur new_max
        /\ (is_number cur -> (current (slot r rm') <=? new_max) = true)
        /\ ((cur <=? new_max) = true -> current (slot r rm') = cur)
        /\ (forall r', r' <> r -> slot r' rm' = slot r' rm)
        /\ _energy_drain rm' = _energy_drain rm).
Proof.
  intros cur. split.
  - intros Hle. unfold set_maximum. rewrite Hle. reflexivity.
  - intros Hpos.
    assert (Hle : (new_max <=? 0) = false) by (apply ltb_not_leb, Hpos).
    assert (Hnum : is_number new_max)
      by (apply (leb_is_number_r 0), ltb_leb, Hpos).
    exists (set_slot r (mkSlot (Py.min cur new_max) new_max) rm).
    rewrite !slot_set_slot. cbn [maximum current].
    split; [rewrite set_maximum_ok by exact Hle; reflexivity |].
    split; [reflexivity |]. split; [reflexivity |].
    split.
    { intros Hcur. unfold Py.min. destruct (new_max <? cur) eqn:E.
      - apply eqb_leb, Hnum.
      - apply not_ltb_leb; assumption. }
    split.
    { intros Hc. unfold Py.min. rewrite (leb_not_ltb _ _ Hc). reflexivity. }
    split.
    { intros r' Hne. apply slot_set_slot_ne.
      intros E. apply Hne. symmetry. exact E. }
    destruct r; reflexivity.
Qed.

(** X10.  The passive drain of a turn is taken in full or not at all.
    With a drain that is not negative [tick] returns; when the energy is
    at least the drain it is lowered by exactly the drain and a
    resource-changed event is posted first; when the energy is short of
    the drain nothing is taken and nothing is posted, so that the gauge
    keeps its remainder and no depletion is announced.  A negative drain
    makes every [tick] raise [ValueError]. *)
Theorem tick_drains_in_full_or_not_at_all (rm : t) (q : EventQueue.t) :
  let drain := _energy_drain rm in
  let energy := slot ENERGY rm in
  ((drain <? 0) = true -> tick rm q = (Raise ValueError, rm, q))
  /\ ((0 <=? drain) = true -> (drain <=? current energy) = true ->
      exists tail,
        tick rm q
        = (Ok tt,
           set_slot ENERGY
             (mkSlot (current energy - drain) (maximum energy)) rm,
           posted
             (changed_event ENERGY (- drain) "PassiveDrain"
                (mkSlot (current energy - drain) (maximum energy)) :: tail)
             q))
  /\ ((0 <=? drain) = true -> (current energy <? drain) = true ->
      tick rm q = (Ok tt, rm, q)).
Proof.
  intros drain energy. unfold tick, bind, gets. cbn beta iota. fold drain.
  split; [| split].
  - intros Hneg. rewrite consume_negative by exact Hneg. reflexivity.
  - intros H0 Hge.
    rewrite consume_enough by (apply leb_not_ltb; assumption).
    eexists. reflexivity.
  - intros H0 Hlt.
    rewrite consume_short by (try apply leb_not_ltb; assumption).
    reflexivity.
Qed.
End ResourceManagerProperties.

(** ** CommandHandler: a command is paid in full or not at all *)

Section CheckAndSpendFacts.
Import Sys ResourceManager CommandHandler.
Local Open Scope float_scope.
Variable fmt_0f : float -> string.

Lemma check_costs_fails (verb : string) (rm : t) (q : EventQueue.t)
    (costs : list (Resource * float)) :
  (exists r a, (r, a) ∈ costs /\ can_afford r a rm = false) ->
  exists result,
    check_costs fmt_0f verb costs rm q = (Ok (Some result), rm, q)
    /\ success result = false /\ command result = verb.
Proof.
  induction costs as [|[r0 a0] costs IH]; intros (r & a & Hin & Hno).
  - inversion Hin.
  - cbn [check_costs]. unfold bind, get. cbn beta iota.
    destruct (can_afford r0 a0 rm) eqn:E; cbn [negb].
    + apply IH. apply elem_of_cons in Hin as [[= -> ->]|Hin];
        [congruence | eauto].
    + eexists. split; [reflexivity |]. split; reflexivity.
Qed.

Lemma check_costs_passes (verb : string) (rm : t) (q : EventQueue.t)
    (costs : list (Resource * float)) :
  (forall r a, (r, a) ∈ costs -> can_afford r a rm = true) ->
  check_costs fmt_0f verb costs rm q = (Ok None, rm, q).
Proof.
  induction costs as [|[r0 a0] costs IH]; intros Hall; [reflexivity |].
  cbn [check_costs]. unfold bind, get. cbn beta iota.
  rewrite (Hall r0 a0) by left. cbn [negb]. apply IH.
  intros r a Hin. apply Hall. right. exact Hin.
Qed.

Lemma get_not_key {V} (d : list (Resource * V)) (r : Resource) :
  r ∉ map fst d -> Py.get d r = None.
Proof.
  induction d as [|[k v] d IH]; simpl; [reflexivity |].
  intros [Hne Hn]%not_elem_of_cons.
  rewrite decide_False by (intros E; apply Hne; symmetry; exact E).
  apply IH, Hn.
Qed.

(** The second loop: it takes every cost from its gauge. *)
Lemma spend_all (verb : string) (costs : list (Resource * float)) :
  NoDup (map fst costs) ->
  Forall (fun c => (c.2 <? 0) = false) costs ->
  forall (rm : t) (q : EventQueue.t),
    (forall r a, (r, a) ∈ costs -> can_afford r a rm = true) ->
    exists rm' evs,
      for_each costs
        (fun '(resource, amount) =>
           bind (consume resource amount verb) (fun _ => ret tt)) rm q
      = (Ok tt, rm', posted evs q)
      /\ (forall r,
            slot r rm'
            = match Py.get costs r with
              | Some a => mkSlot (current (slot r rm) - a)
                            (maximum (slot r rm))
              | None => slot r rm
              end)
      /\ _energy_drain rm' = _energy_drain rm
      /\ length costs <= length evs.
Proof.
  induction costs as [|[r0 a0] costs IH]; intros Hnd Hpos rm q Hall.
  - exists rm, []. rewrite posted_nil. repeat split. simpl. lia.
  - cbn [map fst] in Hnd. apply NoDup_cons in Hnd as [Hr0 Hnd].
    apply Forall_cons in Hpos as [Hp0 Hpos]. cbn [snd] in Hp0.
    cbn [for_each]. unfold bind at 1 2.
    assert (Hge : can_afford r0 a0 rm = true) by (apply Hall; left).
    unfold can_afford, Py.geb in Hge.
    rewrite consume_enough
      by first [assumption | apply leb_not_ltb; assumption].
    set (s0 := mkSlot (current (slot r0 rm) - a0) (maximum (slot r0 rm))).
    cbn beta iota. unfold ret at 1.
    destruct (IH Hnd Hpos (set_slot r0 s0 rm)
                (posted (changed_event r0 (- a0) verb s0
                          :: (if is_depleted s0
                              then [depleted_event r0 verb] else [])) q))
      as (rm' & evs & E & Hslots & Hdrain & Hlen).
    { intros r a Hin. unfold can_afford.
      rewrite slot_set_slot_ne; [apply Hall; right; exact Hin |].
      intros ->. apply Hr0. apply list_elem_of_fmap. exists (r, a).
      split; [reflexivity | exact Hin]. }
    exists rm'. eexists. split; [rewrite E, posted_posted; reflexivity |].
    split.
    { intros r. rewrite (Hslots r). cbn [Py.get].
      destruct (decide (r0 = r)) as [<-|Hne].
      - rewrite (get_not_key _ _ Hr0), slot_set_slot. reflexivity.
      - rewrite (slot_set_slot_ne _ _ _ _ Hne). reflexivity. }
    split.
    { rewrite Hdrain. destruct r0; reflexivity. }
    rewrite length_app. simpl. lia.
Qed.

Lemma costs_table (verb : string) :
  let costs := default [] (Py.get _COSTS verb) in
  NoDup (map fst costs) /\ Forall (fun c => (c.2 <? 0) = false) costs.
Proof.
  cbn [_COSTS Py.get].
  destruct (decide ("SCAN"%string = verb));
    [| destruct (decide ("CARVE"%string = verb));
       [| destruct (decide ("RECON"%string = verb))]];
    cbn [default from_option id map fst]; (split; [| repeat constructor]).
  - apply NoDup_singleton.
  - apply NoDup_cons. split; [| apply NoDup_singleton].
    rewrite list_elem_of_singleton. discriminate.
  - apply NoDup_singleton.
  - apply NoDup_nil_2.
Qed.
End CheckAndSpendFacts.

Section CheckAndSpendProperty.
Import Sys ResourceManager CommandHandler.
Local Open Scope float_scope.
Variable fmt_0f : float -> string.

(** X11.  The resource gate of the commands charges a command in full or
    not at all.  When one of the costs of the verb cannot be afforded,
    [_check_and_spend] returns a failure for the verb and spends and posts
    nothing, also of the costs that could be afforded.  When every cost can
    be afforded it returns [None] and has taken each cost from its gauge;
    the gauges the verb does not charge are untouched, and a verb without
    costs changes nothing. *)
Theorem check_and_spend_in_full_or_not_at_all (verb : string) (rm : t)
    (q : EventQueue.t) :
  let costs := default [] (Py.get _COSTS verb) in
  ((exists r a, (r, a) ∈ costs /\ can_afford r a rm = false) ->
     exists result,
       _check_and_spend fmt_0f verb rm q = (Ok (Some result), rm, q)
       /\ success result = false /\ command result = verb)
  /\ ((forall r a, (r, a) ∈ costs -> can_afford r a rm = true) ->
      exists rm' evs,
        _check_and_spend fmt_0f verb rm q = (Ok None, rm', posted evs q)
        /\ (forall r,
              slot r rm'
              = match Py.get costs r with
                | Some a => mkSlot (current (slot r rm) - a)
                              (maximum (slot r rm))
                | None => slot r rm
                end)
        /\ _energy_drain rm' = _energy_drain rm
        /\ length costs <= length evs).
Proof.
  intros costs. split.
  - intros Hshort.
    destruct (check_costs_fails fmt_0f verb rm q costs Hshort)
      as (result & E & Hs & Hc).
    exists result. unfold _check_and_spend. fold costs. unfold bind at 1.
    rewrite E. repeat split; assumption.
  - intros Hall. destruct (costs_table verb) as [Hnd Hpos]. fold costs in Hnd, Hpos.
    destruct (spend_all verb costs Hnd Hpos rm q Hall)
      as (rm' & evs & E & Hslots & Hdrain & Hlen).
    exists rm', evs. unfold _check_and_spend. fold costs. unfold bind at 1.
    rewrite (check_costs_passes fmt_0f verb rm q costs Hall).
    unfold bind at 1. rewrite E. repeat split; assumption.
Qed.
End CheckAndSpendProperty.

(** ** Node: the list of children *)

Section NodeProperties.

Lemma remove_first_absent (x : string) (l : list string) :
  x ∉ l -> Node.remove_first x l = l.
Proof.
  induction l as [|y l IH]; simpl; [reflexivity |].
  intros [Hne Hn]%not_elem_of_cons.
  rewrite decide_False by (intros E; apply Hne; symmetry; exact E).
  rewrite (IH Hn). reflexivity.
Qed.

Lemma remove_first_last (x : string) (l : list string) :
  x ∉ l -> Node.remove_first x (l ++ [x]) = l.
Proof.
  induction l as [|y l IH]; simpl.
  - intros _. rewrite decide_True by reflexivity. reflexivity.
  - intros [Hne Hn]%not_elem_of_cons.
    rewrite decide_False by (intros E; apply Hne; symmetry; exact E).
    rewrite (IH Hn). reflexivity.
Qed.

Lemma remove_first_subseteq (x : string) (l : list string) :
  forall y, y ∈ Node.remove_first x l -> y ∈ l.
Proof.
  induction l as [|z l IH]; simpl; intros y Hy; [exact Hy |].
  destruct (decide (z = x)); [right; exact Hy |].
  apply elem_of_cons in Hy as [->|Hy]; [left | right; apply IH, Hy].
Qed.

Lemma remove_first_NoDup (x : string) (l : list string) :
  NoDup l -> (x ∉ Node.remove_first x l) /\ NoDup (Node.remove_first x l).
Proof.
  induction l as [|z l IH]; simpl.
  - intros _. split; [intros Hin; inversion Hin | apply NoDup_nil_2].
  - intros [Hz Hnd]%NoDup_cons. destruct (decide (z = x)) as [->|Hne].
    + split; assumption.
    + destruct (IH Hnd) as [Hx Hnd']. split.
      * intros [E|Hin]%elem_of_cons; [apply Hne; symmetry; exact E |].
        apply Hx, Hin.
      * apply NoDup_cons. split; [| exact Hnd'].
        intros Hin. apply Hz, (remove_first_subseteq x l z Hin).
Qed.

(** X12.  The children of a node.  [add_child] raises on a node that is
    not a directory; on a directory it records the child once: a child that
    is already listed is not listed again, a new one goes to the end, a
    list without repetition stays so, and adding twice is adding once.
    [remove_child] undoes the [add_child] of a child that was not listed,
    leaves a node that does not list the child as it is, and takes the
    child off a list without repetition. *)
Theorem add_child_lists_a_child_once (child_id : string) (n : Node.t) :
  (Node.is_directory n = false -> Node.add_child child_id n = None)
  /\ (Node.is_directory n = true ->
      exists n',
        Node.add_child child_id n = Some n'
        /\ Node.children_ids n'
           = (if bool_decide (child_id ∈ Node.children_ids n)
              then Node.children_ids n
              else Node.children_ids n ++ [child_id])
        /\ child_id ∈ Node.children_ids n'
        /\ (NoDup (Node.children_ids n) -> NoDup (Node.children_ids n'))
        /\ Node.add_child child_id n' = Some n'
        /\ (child_id ∉ Node.children_ids n ->
            Node.remove_child child_id n' = n))
  /\ (child_id ∉ Node.children_ids n -> Node.remove_child child_id n = n)
  /\ (NoDup (Node.children_ids n) ->
      (child_id ∉ Node.children_ids (Node.remove_child child_id n))
      /\ NoDup (Node.children_ids (Node.remove_child child_id n))).
Proof.
  split; [| split; [| split]].
  - intros Hd. unfold Node.add_child. rewrite Hd. reflexivity.
  - intros Hd. unfold Node.add_child. rewrite Hd. cbn [negb].
    case_bool_decide as Hin.
    + exists n. split; [reflexivity |]. split; [reflexivity |].
      split; [exact Hin |]. split; [tauto |].
      split; [| contradiction].
      rewrite Hd. cbn [negb]. rewrite bool_decide_eq_true_2 by exact Hin.
      reflexivity.
    + eexists. split; [reflexivity |]. cbn [Node.children_ids Node.set_children_ids].
      split; [reflexivity |].
      assert (Hnew : child_id ∈ Node.children_ids n ++ [child_id])
        by (apply elem_of_app; right; left).
      split; [exact Hnew |].
      split.
      { intros Hnd. apply NoDup_app. repeat split;
          [exact Hnd | | apply NoDup_singleton].
        intros x Hx ->%list_elem_of_singleton. contradiction. }
      split.
      { unfold Node.is_directory in *. cbn [Node.node_type Node.set_children_ids].
        rewrite Hd. cbn [negb Node.children_ids].
        rewrite bool_decide_eq_true_2 by exact Hnew. reflexivity. }
      intros _. unfold Node.remove_child.
      cbn [Node.children_ids Node.set_children_ids].
      rewrite (remove_first_last _ _ Hin). destruct n; reflexivity.
  - intros Hn. unfold Node.remove_child.
    rewrite (remove_first_absent _ _ Hn). destruct n; reflexivity.
  - intros Hnd. unfold Node.remove_child.
    cbn [Node.children_ids Node.set_children_ids].
    apply remove_first_NoDup, Hnd.
Qed.
End NodeProperties.

(** ** Filesystem: carve, navigation, the tick *)

Section FilesystemMoreFacts.
Import Sys Filesystem.
Local Open Scope float_scope.

Lemma get_map_values {V W : Type} (g : V -> W) (d : list (string * V))
    (k : string) :
  Py.get (map (fun kv => (kv.1, g kv.2)) d) k = g <$> Py.get d k.
Proof.
  induction d as [|[k' v] d IH]; simpl; [reflexivity |].
  destruct (decide (k' = k)); [reflexivity | exact IH].
Qed.

Lemma keys_map_values {V W : Type} (g : V -> W) (d : list (string * V)) :
  Py.keys (map (fun kv => (kv.1, g kv.2)) d) = Py.keys d.
Proof.
  unfold Py.keys. rewrite map_map. reflexivity.
Qed.

(** Looking a child up by name in a registry where the object under [key]
    was mutated by [f], which keeps the names. *)
Lemma child_by_name_in_alter (f : Node.t -> Node.t) (key : string)
    (ns : list (string * Node.t)) (name : string) (cids : list string) :
  (forall n, Node.name (f n) = Node.name n) ->
  child_by_name_in (alter_node f key ns) name cids
  = (fun kn => (kn.1, if decide (key = kn.1) then f kn.2 else kn.2))
      <$> child_by_name_in ns name cids.
Proof.
  intros Hname. induction cids as [|cid cids IH]; simpl; [reflexivity |].
  rewrite get_alter_node.
  destruct (decide (key = cid)) as [->|Hne].
  - destruct (Py.get ns cid) as [child|]; simpl; [| exact IH].
    rewrite Hname. destruct (decide (Node.name child = name)); [| exact IH].
    simpl. rewrite decide_True by reflexivity. reflexivity.
  - destruct (Py.get ns cid) as [child|]; [| exact IH].
    destruct (decide (Node.name child = name)); [| exact IH].
    simpl. rewrite decide_False by exact Hne. reflexivity.
Qed.

(** What [scan] returns and the filesystem it leaves. *)
Lemma scan_result (name : string) (fs : t) (q : EventQueue.t)
    (cwd_node : Node.t) (key : string) (target : Node.t) :
  Py.get (_nodes fs) (_cwd_id fs) = Some cwd_node ->
  child_by_name_in (_nodes fs) name (Node.children_ids cwd_node)
  = Some (key, target) ->
  let step := Node.set_visibility (scan_step (Node.visibility target)) in
  exists q',
    scan name fs q
    = (Ok (step target), set_nodes (alter_node step key (_nodes fs)) fs, q').
Proof.
  intros Hcwd Hchild step.
  assert (Hsame : Node.visibility target = Node.REVEALED ->
                  alter_node step key (_nodes fs) = _nodes fs).
  { intros Hr. unfold step. rewrite Hr. cbn [scan_step].
    destruct (child_by_name_in_get _ _ _ _ _ Hchild) as (_ & Hget & _).
    clear Hchild Hcwd. revert Hget.
    induction (_nodes fs) as [|[k n] ns IH]; simpl; [reflexivity |].
    destruct (decide (k = key)) as [->|Hne].
    - intros [= ->]. destruct target; cbn in *. subst. reflexivity.
    - intros Hget. rewrite (IH Hget). reflexivity. }
  unfold scan, cwd, _node, _child_by_name, bind, gets, ret.
  cbn beta iota. rewrite Hcwd. cbn beta iota. rewrite Hchild.
  cbn beta iota. unfold mutate, modify, when, post_immediate, bind, ret.
  destruct (Node.visibility target) eqn:Hv; cbn beta iota;
    try (rewrite (Hsame eq_refl); destruct fs);
    repeat lazymatch goal with
           | |- context [if ?c then _ else _] => destruct c
           end;
    eexists; reflexivity.
Qed.

Lemma change_directory_into (name : string) (fs : t) (q : EventQueue.t)
    (cwd_node : Node.t) (key : string) (target : Node.t) :
  name <> ".."%string ->
  Py.get (_nodes fs) (_cwd_id fs) = Some cwd_node ->
  child_by_name_in (_nodes fs) name (Node.children_ids cwd_node)
  = Some (key, target) ->
  Node.visibility target <> Node.HIDDEN ->
  Node.node_type target = Node.DIRECTORY ->
  change_directory name fs q
  = (Ok target, set_cwd_id (Node.node_id target) fs, q).
Proof.
  intros Hname Hcwd Hchild Hv Hty.
  unfold change_directory, cwd, _node, _child_by_name, bind, gets, ret,
    raise, modify.
  cbn beta iota. rewrite Hcwd. cbn beta iota.
  rewrite decide_False by exact Hname.
  cbn beta iota. rewrite Hchild. cbn beta iota.
  rewrite decide_False by exact Hv.
  unfold Node.is_directory. rewrite bool_decide_eq_true_2 by exact Hty.
  reflexivity.
Qed.
End FilesystemMoreFacts.

Section FilesystemMoreProperties.
Import Sys Filesystem.
Local Open Scope float_scope.



(** X14.  [change_directory] only ever enters a visible directory.  When it
    returns, the queue is untouched, no node has changed and the node
    returned is either the one registered under the parent id of the
    current directory (for [".."]) or a child of the current directory of
    the name given that is registered, is not HIDDEN and is a DIRECTORY;
    the current directory becomes the [node_id] of that node. *)
Theorem change_directory_enters_visible_directories (name : string)
    (fs fs' : t) (q q' : EventQueue.t) (target : Node.t) :
  change_directory name fs q = (Ok target, fs', q') ->
  q' = q
  /\ fs' = set_cwd_id (Node.node_id target) fs
  /\ exists cwd_node,
       Py.get (_nodes fs) (_cwd_id fs) = Some cwd_node
       /\ (name = ".."%string ->
           exists pid, Node.parent_id cwd_node = Some pid
                       /\ Py.get (_nodes fs) pid = Some target)
       /\ (name <> ".."%string ->
           exists key, key ∈ Node.children_ids cwd_node
                       /\ Py.get (_nodes fs) key = Some target
                       /\ Node.name target = name
                       /\ Node.visibility target <> Node.HIDDEN
                       /\ Node.node_type target = Node.DIRECTORY).
Proof.
  unfold change_directory, cwd, _node, _child_by_name, bind, gets, ret,
    raise, modify.
  cbn beta iota.
  destruct (Py.get (_nodes fs) (_cwd_id fs)) as [cwd_node|];
    cbn beta iota; [| discriminate].
  destruct (decide (name = "..")) as [->|Hname]; cbn beta iota.
  - destruct (Node.parent_id cwd_node) as [pid|] eqn:Hpar; cbn beta iota;
      [| discriminate].
    destruct (Py.get (_nodes fs) pid) as [p|] eqn:Hp; cbn beta iota;
      [| discriminate].
    intros [= <- <- <-]. split; [reflexivity |]. split; [reflexivity |].
    exists cwd_node. split; [reflexivity |].
    split; [intros _; exists pid; split; assumption
           | intros Hne; contradiction].
  - destruct (child_by_name_in _ _ _) as [[key t0]|] eqn:Hchild;
      cbn beta iota; [| discriminate].
    destruct (decide (Node.visibility t0 = Node.HIDDEN)) as [|Hv];
      cbn beta iota; [discriminate |].
    destruct (Node.is_directory t0) eqn:Hd; cbn [negb];
      [| discriminate].
    intros [= <- <- <-]. split; [reflexivity |]. split; [reflexivity |].
    exists cwd_node. split; [reflexivity |].
    split; [intros E; contradiction |]. intros _.
    destruct (child_by_name_in_get _ _ _ _ _ Hchild) as (Hin & Hget & Hn).
    exists key. repeat split; try assumption.
    unfold Node.is_directory in Hd. apply bool_decide_eq_true_1 in Hd.
    exact Hd.
Qed.

Lemma change_directory_enters_visible_directories_witness :
  change_directory "logs" sample_fs EventQueue.init
  = (Ok sample_logs, set_cwd_id "id-logs" sample_fs, EventQueue.init)
  /\ Node.visibility sample_logs <> Node.HIDDEN
  /\ Node.node_type sample_logs = Node.DIRECTORY.
Proof.
  split; [reflexivity |].
  destruct (change_directory_enters_visible_directories "logs" sample_fs
              (set_cwd_id "id-logs" sample_fs) EventQueue.init
              EventQueue.init sample_logs eq_refl)
    as (_ & _ & cwd_node & _ & _ & Hchild).
  destruct Hchild as (key & _ & _ & _ & Hv & Hty); [discriminate |].
  split; assumption.
Defined.

(** X15.  A scan makes a directory enterable.  For a child of the current
    directory that is a DIRECTORY, whatever its visibility, a [scan] of its
    name followed by a [change_directory] to that name returns the scanned
    node and makes it the current directory. *)
Theorem scan_then_change_directory (name : string) (fs : t)
    (q : EventQueue.t) (cwd_node : Node.t) (key : string) (target : Node.t) :
  name <> ".."%string ->
  Py.get (_nodes fs) (_cwd_id fs) = Some cwd_node ->
  child_by_name_in (_nodes fs) name (Node.children_ids cwd_node)
  = Some (key, target) ->
  Node.node_type target = Node.DIRECTORY ->
  exists scanned fs1 q1,
    scan name fs q = (Ok scanned, fs1, q1)
    /\ Node.visibility scanned = scan_step (Node.visibility target)
    /\ Node.visibility scanned <> Node.HIDDEN
    /\ change_directory name fs1 q1
       = (Ok scanned, set_cwd_id (Node.node_id target) fs1, q1).
Proof.
  intros Hname Hcwd Hchild Hty.
  destruct (scan_result name fs q cwd_node key target Hcwd Hchild)
    as (q1 & Hscan).
  set (step := Node.set_visibility (scan_step (Node.visibility target))) in *.
  exists (step target), (set_nodes (alter_node step key (_nodes fs)) fs), q1.
  split; [exact Hscan |]. split; [reflexivity |].
  assert (Hvis : Node.visibility (step target) <> Node.HIDDEN)
    by (unfold step; cbn; destruct (Node.visibility target); discriminate).
  split; [exact Hvis |].
  set (cwd1 := if decide (key = _cwd_id fs) then step cwd_node
               else cwd_node).
  assert (Hkids : Node.children_ids cwd1 = Node.children_ids cwd_node)
    by (unfold cwd1; destruct (decide _); reflexivity).
  apply (change_directory_into name _ q1 cwd1 key (step target)).
  - exact Hname.
  - cbn [_nodes _cwd_id set_nodes]. rewrite get_alter_node, Hcwd.
    unfold cwd1. destruct (decide _); reflexivity.
  - cbn [_nodes set_nodes]. rewrite Hkids.
    rewrite child_by_name_in_alter by reflexivity.
    rewrite Hchild. cbn. rewrite decide_True by reflexivity. reflexivity.
  - exact Hvis.
  - exact Hty.
Qed.

(** The hidden directory of the sample site can be entered after one
    scan. *)
Lemma scan_then_change_directory_witness :
  exists scanned fs1 q1,
    scan "cache" sample_fs EventQueue.init = (Ok scanned, fs1, q1)
    /\ Node.visibility scanned = Node.DETECTED
    /\ Node.visibility scanned <> Node.HIDDEN
    /\ change_directory "cache" fs1 q1
       = (Ok scanned, set_cwd_id "id-cache" fs1, q1).
Proof.
  exact (scan_then_change_directory "cache" sample_fs EventQueue.init
           sample_root "id-cache" sample_cache
           ltac:(discriminate) eq_refl eq_refl eq_refl).
Defined.

(** X16.  Going down and up again.  In a registry that holds the current
    directory and the child under their own ids, with the child pointing
    to the current directory as its parent, entering a visible child
    directory and then [".."] returns to the directory one started from and
    leaves the filesystem exactly as it was. *)
Theorem change_directory_down_and_up (name : string) (fs : t)
    (q : EventQueue.t) (cwd_node : Node.t) (key : string) (target : Node.t) :
  name <> ".."%string ->
  Py.get (_nodes fs) (_cwd_id fs) = Some cwd_node ->
  child_by_name_in (_nodes fs) name (Node.children_ids cwd_node)
  = Some (key, target) ->
  Node.visibility target <> Node.HIDDEN ->
  Node.node_type target = Node.DIRECTORY ->
  Node.node_id target = key ->
  Node.node_id cwd_node = _cwd_id fs ->
  Node.parent_id target = Some (_cwd_id fs) ->
  change_directory name fs q = (Ok target, set_cwd_id key fs, q)
  /\ change_directory ".." (set_cwd_id key fs) q = (Ok cwd_node, fs, q).
Proof.
  intros Hname Hcwd Hchild Hv Hty Hid Hcid Hparent.
  destruct (child_by_name_in_get _ _ _ _ _ Hchild) as (_ & Hget & _).
  split.
  - rewrite <- Hid.
    apply (change_directory_into name fs q cwd_node key target);
      assumption.
  - unfold change_directory, cwd, _node, _child_by_name, bind, gets, ret,
      raise, modify.
    cbn beta iota.
    cbn [_nodes _cwd_id set_cwd_id]. rewrite Hget. cbn beta iota.
    rewrite decide_True by reflexivity. cbn beta iota.
    rewrite Hparent. cbn beta iota. cbn [_nodes set_cwd_id].
    rewrite Hcwd. cbn beta iota.
    rewrite Hcid. destruct fs; reflexivity.
Qed.

Lemma change_directory_down_and_up_witness :
  change_directory "logs" sample_fs EventQueue.init
  = (Ok sample_logs, set_cwd_id "id-logs" sample_fs, EventQueue.init)
  /\ change_directory ".." (set_cwd_id "id-logs" sample_fs) EventQueue.init
     = (Ok sample_root, sample_fs, EventQueue.init).
Proof.
  exact (change_directory_down_and_up "logs" sample_fs EventQueue.init
           sample_root "id-logs" sample_logs
           ltac:(discriminate) eq_refl eq_refl ltac:(discriminate)
           eq_refl eq_refl eq_refl eq_refl).
Defined.

(** X17.  The tick of the filesystem changes corruption values and nothing
    else, and keeps them in range.  It always returns; the current
    directory, the root, the keys of the registry and their order are as
    before; every node keeps its name, type, ids, children, visibility,
    artifact and metadata; a HIDDEN node is exactly as before; and the
    corruption of every other node lies within [[0, 1]] afterwards,
    whatever it was before. *)
Theorem tick_changes_corruption_only (fs : t) (q : EventQueue.t) :
  exists fs' q',
    tick fs q = (Ok tt, fs', q')
    /\ _cwd_id fs' = _cwd_id fs
    /\ _root_id fs' = _root_id fs
    /\ Py.keys (_nodes fs') = Py.keys (_nodes fs)
    /\ forall k,
         match Py.get (_nodes fs) k, Py.get (_nodes fs') k with
         | Some n, Some n' =>
             same_but_corruption n n'
             /\ (Node.visibility n = Node.HIDDEN -> n' = n)
             /\ (Node.visibility n <> Node.HIDDEN ->
                 in_unit_interval (Node.corruption n'))
         | None, None => True
         | _, _ => False
         end.
Proof.
  eexists _, _. split.
  { unfold tick, zoom.
    rewrite (for_values_total tick_node ticked tick_events tick_node_spec).
    reflexivity. }
  cbn [_cwd_id _root_id _nodes set_nodes].
  split; [reflexivity |]. split; [reflexivity |].
  split; [apply keys_map_values |].
  intros k. rewrite get_map_values.
  destruct (Py.get (_nodes fs) k) as [n|]; cbn; [| exact I].
  unfold ticked. destruct (decide (Node.visibility n = Node.HIDDEN)) as [Hh|Hh].
  - split; [destruct n; reflexivity |]. split; [reflexivity | contradiction].
  - split; [destruct n; reflexivity |]. split; [contradiction |].
    intros _. apply clamp_bounds. reflexivity.
Qed.
End FilesystemMoreProperties.

(** ** ArtifactSystem: the registry and the lifecycle *)

Section ArtifactMoreFacts.
Import Sys ArtifactSystem.
Local Open Scope float_scope.
Variable round1 : float -> float.

(** The two ways [collect] can go. *)
Lemma collect_cases (artifact_id : string) (node_corruption : float)
    (sys : t) (q : EventQueue.t) :
  (exists q', collect round1 artifact_id node_corruption sys q
              = (Ok false, sys, q'))
  \/ (exists a rm' q',
        Py.get (_artifacts sys) artifact_id = Some a
        /\ Artifact.state a = Artifact.FOUND
        /\ (ResourceManager.current
              (ResourceManager.slot ResourceManager.MEMORY (_rm sys))
            <? Artifact.MEMORY_COST) = false
        /\ collect round1 artifact_id node_corruption sys q
           = (Ok true,
              mk rm' (alter_artifact (collected round1 node_corruption)
                        artifact_id (_artifacts sys)) (_currency sys),
              q')).
Proof.
  unfold collect, bind, gets, ret, zoom, post_immediate, mutate, modify.
  cbn beta iota.
  destruct (Py.get (_artifacts sys) artifact_id) as [a|] eqn:E;
    [| left; eexists; reflexivity].
  destruct (decide (Artifact.state a = Artifact.FOUND)) as [Hs|Hs].
  - rewrite bool_decide_eq_true_2 by exact Hs. cbn [negb]. cbn beta iota.
    destruct (consume_memory_cost (_rm sys) q) as [[_ Hc]|[Hm [evs Hc]]];
      rewrite Hc; cbn beta iota.
    + left. destruct sys. eexists. reflexivity.
    + right. exists a. do 2 eexists. repeat split; try assumption.
  - rewrite bool_decide_eq_false_2 by exact Hs. left. eexists. reflexivity.
Qed.

(** The two ways [sell] can go. *)
Lemma sell_cases (artifact_id : string) (sys : t) (q : EventQueue.t) :
  (sell artifact_id sys q = (Ok 0.0, sys, q)
   /\ forall a, Py.get (_artifacts sys) artifact_id = Some a ->
                Artifact.state a <> Artifact.COLLECTED)
  \/ (exists a rm' q',
        Py.get (_artifacts sys) artifact_id = Some a
        /\ Artifact.state a = Artifact.COLLECTED
        /\ sell artifact_id sys q
           = (Ok (Artifact.sell_value a),
              mk rm' (alter_artifact sold artifact_id (_artifacts sys))
                 (_currency sys + Artifact.sell_value a),
              q')).
Proof.
  unfold sell, bind, gets, ret, zoom, post_immediate, mutate, modify.
  cbn beta iota.
  destruct (Py.get (_artifacts sys) artifact_id) as [a|] eqn:E;
    [| left; split; [reflexivity | discriminate]].
  destruct (decide (Artifact.state a = Artifact.COLLECTED)) as [Hs|Hs].
  - rewrite bool_decide_eq_true_2 by exact Hs. cbn [negb]. cbn beta iota.
    cbn [_rm set_currency set_artifacts _artifacts _currency].
    rewrite restore_ok by reflexivity. cbn beta iota.
    right. exists a. do 2 eexists. repeat split; try assumption.
  - rewrite bool_decide_eq_false_2 by exact Hs. left.
    split; [reflexivity |]. intros a' [= <-]. exact Hs.
Qed.

Lemma advanced_refl (a : Artifact.t) : advanced a a.
Proof. repeat split. apply le_n. Qed.

Lemma advanced_trans (a b c : Artifact.t) :
  advanced a b -> advanced b c -> advanced a c.
Proof.
  unfold advanced. intros (?&?&?&?&?&?) (?&?&?&?&?&?).
  repeat split; try congruence. lia.
Qed.

(** A mutation that moves the object under [key] on moves on whatever is
    looked up. *)
Lemma get_alter_advanced (f : Artifact.t -> Artifact.t) (key k : string)
    (d : list (string * Artifact.t)) (a : Artifact.t) :
  (forall x, Py.get d key = Some x -> advanced x (f x)) ->
  Py.get d k = Some a ->
  exists a', Py.get (alter_artifact f key d) k = Some a' /\ advanced a a'.
Proof.
  intros Hf Hget. rewrite get_alter_artifact.
  destruct (decide (key = k)) as [->|Hne].
  - rewrite Hget. exists (f a). split; [reflexivity | apply Hf, Hget].
  - exists a. split; [exact Hget | apply advanced_refl].
Qed.

Lemma run_artifact_call_advances (c : artifact_call) (sys : t)
    (q : EventQueue.t) (k : string) (a : Artifact.t) :
  Py.get (_artifacts sys) k = Some a ->
  exists sys' q' a',
    run_artifact_call round1 c sys q = (Ok tt, sys', q')
    /\ Py.get (_artifacts sys') k = Some a' /\ advanced a a'.
Proof.
  intros Hget.
  assert (Hsame : forall q' : EventQueue.t, exists sys' q'' a',
            (@Ok unit tt, sys, q') = (Ok tt, sys', q'')
            /\ Py.get (_artifacts sys') k = Some a' /\ advanced a a')
    by (intros q'; exists sys, q', a; split; [reflexivity |];
        split; [exact Hget | apply advanced_refl]).
  destruct c as [art|i|i c|i]; cbn [run_artifact_call].
  - unfold register, bind, gets, ret, modify. cbn beta iota.
    unfold Py.contains.
    destruct (Py.get (_artifacts sys) (Artifact.artifact_id art)) eqn:E;
      [apply Hsame |].
    eexists _, _, a. split; [reflexivity |].
    split; [| apply advanced_refl].
    cbn [_artifacts set_artifacts]. rewrite get_setitem.
    destruct (decide (Artifact.artifact_id art = k)) as [<-|];
      [congruence | exact Hget].
  - unfold mark_found, bind, gets, ret, mutate, modify. cbn beta iota.
    destruct (Py.get (_artifacts sys) i) as [a0|] eqn:E; [| apply Hsame].
    destruct (decide (Artifact.state a0 = Artifact.UNDISCOVERED)) as [Hs|Hs].
    + rewrite bool_decide_eq_true_2 by exact Hs. cbn [negb]. cbn beta iota.
      destruct (get_alter_advanced (Artifact.set_state Artifact.FOUND) i k
                  (_artifacts sys) a) as (a' & Ha' & Hadv);
        [| exact Hget |].
      { intros x Hx. rewrite E in Hx. injection Hx as <-.
        repeat split. cbn. rewrite Hs. simpl. lia. }
      eexists _, _, a'. split; [reflexivity |]. split; assumption.
    + rewrite bool_decide_eq_false_2 by exact Hs. apply Hsame.
  - unfold bind at 1.
    destruct (collect_cases i c sys q)
      as [[q' Hr]|(a0 & rm' & q' & E & Hs & _ & Hr)]; rewrite Hr;
      [apply Hsame |].
    destruct (get_alter_advanced (collected round1 c) i k
                (_artifacts sys) a) as (a' & Ha' & Hadv); [| exact Hget |].
    { intros x Hx. rewrite E in Hx. injection Hx as <-.
      repeat split. cbn. rewrite Hs. simpl. lia. }
    eexists _, _, a'. split; [reflexivity |]. split; assumption.
  - unfold bind at 1.
    destruct (sell_cases i sys q)
      as [[Hr _]|(a0 & rm' & q' & E & Hs & Hr)]; rewrite Hr;
      [apply Hsame |].
    destruct (get_alter_advanced sold i k (_artifacts sys) a)
      as (a' & Ha' & Hadv); [| exact Hget |].
    { intros x Hx. rewrite E in Hx. injection Hx as <-.
      repeat split. cbn. rewrite Hs. simpl. lia. }
    eexists _, _, a'. split; [reflexivity |]. split; assumption.
Qed.
End ArtifactMoreFacts.

Section ArtifactMoreProperties.
Import Sys ArtifactSystem.
Local Open Scope float_scope.
Variable round1 : float -> float.

(** X18.  [register] keeps the first artifact registered under an id: a
    second registration under the same id changes nothing; a new id is
    added at the end of the registry, is found by [get] from then on, and
    the other ids keep their artifacts.  The gauges, the currency and the
    queue are untouched. *)
Theorem register_keeps_the_first (artifact : Artifact.t) (sys : t)
    (q : EventQueue.t) :
  let i := Artifact.artifact_id artifact in
  exists sys',
    register artifact sys q = (Ok tt, sys', q)
    /\ _rm sys' = _rm sys /\ _currency sys' = _currency sys
    /\ (forall a, get i sys = Some a -> sys' = sys)
    /\ (get i sys = None ->
        get i sys' = Some artifact
        /\ Py.keys (_artifacts sys') = Py.keys (_artifacts sys) ++ [i])
    /\ (forall k, k <> i -> get k sys' = get k sys).
Proof.
  intros i. unfold register, bind, gets, ret, modify, get. cbn beta iota.
  unfold Py.contains. fold i.
  destruct (Py.get (_artifacts sys) i) as [a0|] eqn:E.
  - exists sys. split; [reflexivity |]. split; [reflexivity |].
    split; [reflexivity |]. split; [reflexivity |].
    split; [discriminate | reflexivity].
  - eexists. split; [reflexivity |]. cbn [_rm _currency _artifacts set_artifacts].
    split; [reflexivity |]. split; [reflexivity |].
    split; [discriminate |].
    split.
    { intros _. rewrite get_setitem, decide_True by reflexivity.
      split; [reflexivity |]. rewrite keys_setitem. unfold Py.contains.
      rewrite E. reflexivity. }
    intros k Hk. rewrite get_setitem.
    rewrite decide_False by (intros Ei; apply Hk; symmetry; exact Ei).
    reflexivity.
Qed.

(** X19.  [mark_found] moves an artifact from UNDISCOVERED to FOUND and
    does nothing else: an unknown id gives [None], an artifact that is
    already FOUND, COLLECTED or SOLD is returned as it is, and in both
    cases nothing changes; no event is posted and no other artifact is
    touched. *)
Theorem mark_found_only_from_undiscovered (artifact_id : string) (sys : t)
    (q : EventQueue.t) :
  match get artifact_id sys with
  | None => mark_found artifact_id sys q = (Ok None, sys, q)
  | Some a =>
      if decide (Artifact.state a = Artifact.UNDISCOVERED)
      then
        let a' := Artifact.set_state Artifact.FOUND a in
        let sys' :=
          set_artifacts
            (alter_artifact (Artifact.set_state Artifact.FOUND) artifact_id
               (_artifacts sys)) sys in
        mark_found artifact_id sys q = (Ok (Some a'), sys', q)
        /\ get artifact_id sys' = Some a'
        /\ (forall k, k <> artifact_id -> get k sys' = get k sys)
        /\ Py.keys (_artifacts sys') = Py.keys (_artifacts sys)
      else mark_found artifact_id sys q = (Ok (Some a), sys, q)
  end.
Proof.
  unfold mark_found, bind, gets, ret, mutate, modify, get. cbn beta iota.
  destruct (Py.get (_artifacts sys) artifact_id) as [a|] eqn:E;
    [| reflexivity].
  destruct (decide (Artifact.state a = Artifact.UNDISCOVERED)) as [Hs|Hs].
  - rewrite bool_decide_eq_true_2 by exact Hs. cbn [negb]. cbn beta iota.
    split; [reflexivity |]. cbn [_artifacts set_artifacts].
    split; [rewrite get_alter_artifact, decide_True, E by reflexivity;
            reflexivity |].
    split; [| apply keys_alter_artifact].
    intros k Hk. rewrite get_alter_artifact.
    rewrite decide_False by (intros Ei; apply Hk; symmetry; exact Ei).
    reflexivity.
  - rewrite bool_decide_eq_false_2 by exact Hs. reflexivity.
Qed.

(** X20.  The lifecycle only advances.  Whatever sequence of [register],
    [mark_found], [collect] and [sell] a session runs, the sequence returns
    and every artifact that was registered before is still registered
    under its id afterwards, with the same identity, name, description,
    node and rarity, and in a state that is not an earlier one of
    UNDISCOVERED, FOUND, COLLECTED, SOLD: no artifact is ever lost,
    replaced or set back. *)
Theorem lifecycle_only_advances (calls : list artifact_call) :
  forall (sys : t) (q : EventQueue.t) (k : string) (a : Artifact.t),
    get k sys = Some a ->
    exists sys' q' a',
      for_each calls (run_artifact_call round1) sys q = (Ok tt, sys', q')
      /\ get k sys' = Some a' /\ advanced a a'.
Proof.
  unfold get. induction calls as [|c calls IH]; intros sys q k a Hget.
  - exists sys, q, a. split; [reflexivity |].
    split; [exact Hget | apply advanced_refl].
  - destruct (run_artifact_call_advances round1 c sys q k a Hget)
      as (sys1 & q1 & a1 & Hr & Hget1 & Hadv1).
    destruct (IH sys1 q1 k a1 Hget1) as (sys2 & q2 & a2 & Hr2 & Hget2 & Hadv2).
    exists sys2, q2, a2. cbn [for_each]. unfold bind. rewrite Hr.
    split; [exact Hr2 |]. split; [exact Hget2 |].
    exact (advanced_trans _ _ _ Hadv1 Hadv2).
Qed.

(** X21.  [collect] and [sell] act once.  After a [collect] that succeeded,
    a second [collect] of the same artifact returns [False], takes no
    memory and posts nothing; after any [sell], a second [sell] of the same
    artifact returns 0.0 and changes nothing, so that an artifact is paid
    for at most once. *)
Theorem collect_and_sell_act_once (artifact_id : string)
    (node_corruption node_corruption' : float) (sys : t) (q : EventQueue.t) :
  (forall sys1 q1,
     collect round1 artifact_id node_corruption sys q = (Ok true, sys1, q1) ->
     collect round1 artifact_id node_corruption' sys1 q1
     = (Ok false, sys1, q1))
  /\ (forall earned sys1 q1,
        sell artifact_id sys q = (Ok earned, sys1, q1) ->
        sell artifact_id sys1 q1 = (Ok 0.0, sys1, q1)).
Proof.
  split.
  - intros sys1 q1 Hrun.
    destruct (collect_cases round1 artifact_id node_corruption sys q)
      as [[q' Hr]|(a & rm' & q' & E & Hs & _ & Hr)];
      rewrite Hr in Hrun; [discriminate |].
    injection Hrun as <- <-.
    unfold collect, bind, gets, ret. cbn beta iota.
    cbn [_artifacts]. rewrite get_alter_artifact, decide_True by reflexivity.
    rewrite E. cbn [fmap option_fmap option_map].
    rewrite bool_decide_eq_false_2 by (cbn; discriminate). reflexivity.
  - intros earned sys1 q1 Hrun.
    destruct (sell_cases artifact_id sys q)
      as [[Hr Hn]|(a & rm' & q' & E & Hs & Hr)];
      rewrite Hr in Hrun; injection Hrun as <- <- <-.
    + exact Hr.
    + unfold sell, bind, gets, ret. cbn beta iota.
      cbn [_artifacts]. rewrite get_alter_artifact, decide_True by reflexivity.
      rewrite E. cbn [fmap option_fmap option_map].
      rewrite bool_decide_eq_false_2 by (cbn; discriminate). reflexivity.
Qed.

(** X22.  From FOUND to SOLD.  For a FOUND artifact and a memory gauge
    that holds the memory cost, a [collect] followed by a [sell] returns
    the value computed at the collection, the base value times the rarity
    multiplier times the condition [max(0.01, 1 - node_corruption)],
    rounded; the currency grows by exactly that value and the artifact
    ends SOLD with the sell value zeroed and the condition kept. *)
Theorem collect_then_sell_pays_the_value (artifact_id : string)
    (node_corruption : float) (sys : t) (q : EventQueue.t) (a : Artifact.t) :
  get artifact_id sys = Some a ->
  Artifact.state a = Artifact.FOUND ->
  (ResourceManager.current
     (ResourceManager.slot ResourceManager.MEMORY (_rm sys))
   <? Artifact.MEMORY_COST) = false ->
  let condition := Py.max 0.01 (1.0 - node_corruption) in
  let value :=
    round1 (_BASE_VALUE * Artifact.value_multiplier (Artifact.rarity a)
            * condition) in
  exists sys1 q1 sys2 q2 a2,
    collect round1 artifact_id node_corruption sys q = (Ok true, sys1, q1)
    /\ sell artifact_id sys1 q1 = (Ok value, sys2, q2)
    /\ _currency sys2 = _currency sys + value
    /\ get artifact_id sys2 = Some a2
    /\ Artifact.state a2 = Artifact.SOLD
    /\ Artifact.sell_value a2 = 0.0
    /\ Artifact.condition a2 = condition.
Proof.
  intros Hget Hs Hmem condition value. unfold get in *.
  destruct (collect_cases round1 artifact_id node_corruption sys q)
    as [[q' Hr]|(a0 & rm' & q1 & E & _ & _ & Hr)].
  { exfalso. revert Hr.
    unfold collect, bind, gets, ret, zoom, post_immediate, mutate, modify.
    cbn beta iota. rewrite Hget.
    rewrite bool_decide_eq_true_2 by exact Hs. cbn [negb]. cbn beta iota.
    rewrite consume_enough by first [reflexivity | exact Hmem].
    discriminate. }
  rewrite Hget in E. injection E as <-.
  set (sys1 := mk rm' (alter_artifact (collected round1 node_corruption)
                         artifact_id (_artifacts sys)) (_currency sys)) in *.
  assert (Hget1 : Py.get (_artifacts sys1) artifact_id
                  = Some (collected round1 node_corruption a)).
  { unfold sys1. cbn [_artifacts].
    rewrite get_alter_artifact, decide_True by reflexivity.
    rewrite Hget. reflexivity. }
  destruct (sell_cases artifact_id sys1 q1)
    as [[_ Hn]|(a1 & rm2 & q2 & E1 & _ & Hr2)].
  { exfalso. apply (Hn _ Hget1). reflexivity. }
  rewrite Hget1 in E1. injection E1 as <-.
  eexists sys1, q1, _, q2, _. split; [exact Hr |].
  split; [exact Hr2 |]. cbn [_currency _artifacts sys1].
  split; [reflexivity |].
  split.
  { rewrite get_alter_artifact, decide_True by reflexivity.
    fold sys1. unfold sys1 at 1. cbn [_artifacts].
    rewrite get_alter_artifact, decide_True by reflexivity.
    rewrite Hget. reflexivity. }
  repeat split.
Qed.
End ArtifactMoreProperties.

(** The relic of the sample registry stays registered, and ends SOLD,
    through a session that finds, collects and sells it and then tries all
    three again. *)
Lemma lifecycle_only_advances_witness :
  exists sys' q' a',
    Sys.for_each sample_calls (run_artifact_call Py.round_tenths)
      (sample_arts Artifact.UNDISCOVERED 50) EventQueue.init
    = (Sys.Ok tt, sys', q')
    /\ ArtifactSystem.get "arc_corporate_0000" sys' = Some a'
    /\ advanced (sample_relic Artifact.UNDISCOVERED) a'.
Proof.
  exact (lifecycle_only_advances Py.round_tenths sample_calls
           (sample_arts Artifact.UNDISCOVERED 50) EventQueue.init
           "arc_corporate_0000" (sample_relic Artifact.UNDISCOVERED)
           eq_refl).
Defined.

(** A found relic on a node of corruption 0.24 is collected and sold for
    228.0. *)
Lemma collect_then_sell_pays_the_value_witness :
  exists sys1 q1 sys2 q2 a2,
    ArtifactSystem.collect Py.round_tenths "arc_corporate_0000" 0.24
      (sample_arts Artifact.FOUND 50) EventQueue.init
    = (Sys.Ok true, sys1, q1)
    /\ ArtifactSystem.sell "arc_corporate_0000" sys1 q1
       = (Sys.Ok (Py.round_tenths (50 * 6 * Py.max 0.01 (1 - 0.24)))%float,
          sys2, q2)
    /\ ArtifactSystem._currency sys2
       = (0 + Py.round_tenths (50 * 6 * Py.max 0.01 (1 - 0.24)))%float
    /\ ArtifactSystem.get "arc_corporate_0000" sys2 = Some a2
    /\ Artifact.state a2 = Artifact.SOLD
    /\ Artifact.sell_value a2 = 0%float
    /\ Artifact.condition a2 = Py.max 0.01 (1 - 0.24)%float.
Proof.
  exact (collect_then_sell_pays_the_value Py.round_tenths
           "arc_corporate_0000" 0.24 (sample_arts Artifact.FOUND 50)
           EventQueue.init (sample_relic Artifact.FOUND)
           eq_refl eq_refl eq_refl).
Defined.

Example sample_relic_sells_for_228 :
  Py.round_tenths (50 * 6 * Py.max 0.01 (1 - 0.24))%float = 228%float.
Proof. reflexivity. Qed.

(** ** DaemonSystem: the registry of daemons *)

Section DaemonRegistryFacts.
Import Sys DaemonSystem.
Context {V : Type}.

Lemma get_filter_ne (d : list (string * V)) (key k : string) :
  Py.get (filter (fun kv => kv.1 <> key) d) k
  = if decide (key = k) then None else Py.get d k.
Proof.
  induction d as [|[k' v] d IH]; simpl.
  - destruct (decide (key = k)); reflexivity.
  - destruct (decide (k' = key)) as [->|Hne].
    + rewrite filter_cons_False by (intros E; apply E; reflexivity).
      rewrite IH. destruct (decide (key = k)); reflexivity.
    + rewrite filter_cons_True by exact Hne. simpl. rewrite IH.
      destruct (decide (k' = k)) as [->|]; [| reflexivity].
      rewrite decide_False by (intros E; apply Hne; symmetry; exact E).
      reflexivity.
Qed.

Lemma filter_ne_not_key (d : list (string * V)) (key : string) :
  Py.get d key = None -> filter (fun kv => kv.1 <> key) d = d.
Proof.
  induction d as [|[k' v] d IH]; simpl; [reflexivity |].
  destruct (decide (k' = key)) as [->|Hne]; [discriminate |].
  intros Hn. rewrite filter_cons_True by exact Hne. rewrite (IH Hn).
  reflexivity.
Qed.

Lemma setitem_new (d : list (string * V)) (key : string) (v : V) :
  Py.get d key = None -> Py.setitem d key v = d ++ [(key, v)].
Proof.
  induction d as [|[k' v'] d IH]; simpl; [reflexivity |].
  destruct (decide (k' = key)); [discriminate |].
  intros Hn. rewrite (IH Hn). reflexivity.
Qed.

Lemma filter_ne_setitem_new (d : list (string * V)) (key : string) (v : V) :
  Py.get d key = None ->
  filter (fun kv => kv.1 <> key) (Py.setitem d key v) = d.
Proof.
  intros Hn. rewrite (setitem_new _ _ _ Hn), filter_app.
  rewrite (filter_ne_not_key _ _ Hn).
  rewrite filter_cons_False by (intros E; apply E; reflexivity).
  apply app_nil_r.
Qed.
End DaemonRegistryFacts.

Section DaemonPositionFacts.
Import Sys DaemonSystem.

Lemma index_of_get (ds : list (string * Daemon.t)) (key : string) :
  match index_of key ds with
  | Some i => exists d, ds !! i = Some (key, d) /\ Py.get ds key = Some d
  | None => Py.get ds key = None
  end.
Proof.
  induction ds as [|[k d] ds IH]; simpl; [reflexivity |].
  destruct (decide (k = key)) as [->|Hne].
  - exists d. split; reflexivity.
  - destruct (index_of key ds) as [i|]; simpl; exact IH.
Qed.

Lemma get_alter_position (f : Daemon.t -> Daemon.t)
    (ds : list (string * Daemon.t)) (key : string) (i : nat) (k : string) :
  index_of key ds = Some i ->
  Py.get (alter (fun kd => (kd.1, f kd.2)) i ds) k
  = if decide (key = k) then f <$> Py.get ds k else Py.get ds k.
Proof.
  set (g := fun kd : string * Daemon.t => (kd.1, f kd.2)).
  revert i. induction ds as [|[k' d] ds IH]; intros i; [discriminate |].
  cbn [index_of]. destruct (decide (k' = key)) as [->|Hne].
  - intros [= <-]. change (alter g 0 ((key, d) :: ds)) with ((key, f d) :: ds).
    cbn [Py.get]. destruct (decide (key = k)); reflexivity.
  - destruct (index_of key ds) as [j|] eqn:E; [| discriminate].
    intros [= <-].
    change (alter g (S j) ((k', d) :: ds)) with ((k', d) :: alter g j ds).
    cbn [Py.get]. rewrite (IH j eq_refl).
    destruct (decide (k' = k)) as [->|]; [| reflexivity].
    rewrite decide_False by (intros E'; apply Hne; symmetry; exact E').
    reflexivity.
Qed.

Lemma keys_alter_position (f : Daemon.t -> Daemon.t)
    (ds : list (string * Daemon.t)) (i : nat) :
  Py.keys (alter (fun kd => (kd.1, f kd.2)) i ds) = Py.keys ds.
Proof.
  unfold Py.keys. apply list_eq. intros j.
  rewrite !list_lookup_fmap.
  destruct (decide (j = i)) as [->|Hne].
  - rewrite list_lookup_alter_eq. destruct (ds !! i); reflexivity.
  - rewrite list_lookup_alter_ne by (intros E; apply Hne; symmetry; exact E).
    reflexivity.
Qed.
End DaemonPositionFacts.

Section DaemonRegistryProperties.
Import Sys DaemonSystem.
Context (R : Random.Impl).

(** X23.  [add_daemon] refuses a daemon whose node is not registered with
    a [ValueError] and changes nothing.  Otherwise it registers the daemon
    under its id, in place of a daemon already registered under it, after
    applying the modifiers of the personality: the detection radius of a
    PARANOID daemon is raised by one, the move cooldown of a SLEEPY daemon
    is set to 3, an AGGRESSIVE daemon is taken as it is.  The other daemons
    and the queue are untouched. *)
Theorem add_daemon_applies_personality (daemon : Daemon.t) (s : t R)
    (q : EventQueue.t) :
  let i := Daemon.daemon_id daemon in
  if Py.contains (_nodes s) (Daemon.node_id daemon)
  then
    exists s',
      add_daemon R daemon s q = (Ok tt, s', q)
      /\ Py.get (_daemons s') i = Some (with_personality daemon)
      /\ (forall k, k <> i -> Py.get (_daemons s') k = Py.get (_daemons s) k)
      /\ _nodes s' = _nodes s /\ _rm s' = _rm s /\ _rng s' = _rng s
      /\ Daemon.detection_radius (with_personality daemon)
         = (if decide (Daemon.personality daemon = Daemon.PARANOID)
            then Daemon.detection_radius daemon + 1
            else Daemon.detection_radius daemon)%Z
      /\ Daemon.move_cooldown (with_personality daemon)
         = (if decide (Daemon.personality daemon = Daemon.SLEEPY)
            then 3 else Daemon.move_cooldown daemon)%Z
      /\ Daemon.node_id (with_personality daemon) = Daemon.node_id daemon
      /\ Daemon.alert_level (with_personality daemon)
         = Daemon.alert_level daemon
  else add_daemon R daemon s q = (Raise ValueError, s, q).
Proof.
  intros i. unfold add_daemon, bind, gets, modify, raise. cbn beta iota.
  destruct (Py.contains (_nodes s) (Daemon.node_id daemon)); cbn [negb];
    [| reflexivity].
  fold (with_personality daemon).
  assert (Hid : Daemon.daemon_id (with_personality daemon) = i)
    by (unfold with_personality; destruct (Daemon.personality daemon);
        reflexivity).
  rewrite Hid. eexists. split; [reflexivity |].
  cbn [_daemons _nodes _rm _rng set_daemons].
  split; [rewrite get_setitem, decide_True by reflexivity; reflexivity |].
  split.
  { intros k Hk. rewrite get_setitem.
    rewrite decide_False by (intros E; apply Hk; symmetry; exact E).
    reflexivity. }
  unfold with_personality.
  destruct (Daemon.personality daemon); repeat split.
Qed.

(** X24.  [remove_daemon] forgets the daemon registered under the id and
    no other: the id is unknown afterwards and the other ids keep their
    daemons; removing an unknown id changes nothing; and removing a daemon
    that was just added under an id that was unknown before gives back the
    registry as it was. *)
Theorem remove_daemon_forgets_one (daemon_id : string) (s : t R)
    (q : EventQueue.t) :
  exists s',
    remove_daemon R daemon_id s q = (Ok tt, s', q)
    /\ Py.get (_daemons s') daemon_id = None
    /\ (forall k, k <> daemon_id ->
          Py.get (_daemons s') k = Py.get (_daemons s) k)
    /\ _nodes s' = _nodes s /\ _rm s' = _rm s /\ _rng s' = _rng s
    /\ (Py.get (_daemons s) daemon_id = None -> _daemons s' = _daemons s)
    /\ (forall daemon,
          Daemon.daemon_id daemon = daemon_id ->
          Py.get (_daemons s) daemon_id = None ->
          Py.contains (_nodes s) (Daemon.node_id daemon) = true ->
          exists s1,
            add_daemon R daemon s q = (Ok tt, s1, q)
            /\ (remove_daemon R daemon_id s1 q).1.2 = s).
Proof.
  eexists. split; [reflexivity |].
  cbn [_daemons _nodes _rm _rng set_daemons].
  split; [rewrite get_filter_ne, decide_True by reflexivity; reflexivity |].
  split.
  { intros k Hk. rewrite get_filter_ne.
    rewrite decide_False by (intros E; apply Hk; symmetry; exact E).
    reflexivity. }
  split; [reflexivity |]. split; [reflexivity |]. split; [reflexivity |].
  split; [apply filter_ne_not_key |].
  intros daemon Hid Hnone Hnode.
  unfold add_daemon, remove_daemon, bind, gets, modify. cbn beta iota.
  rewrite Hnode. cbn [negb]. fold (with_personality daemon).
  assert (Hid' : Daemon.daemon_id (with_personality daemon) = daemon_id)
    by (unfold with_personality; destruct (Daemon.personality daemon);
        exact Hid).
  rewrite Hid'. eexists. split; [reflexivity |].
  cbn [fst snd _daemons set_daemons].
  rewrite (filter_ne_setitem_new _ _ _ Hnone). destruct s; reflexivity.
Qed.

(** X25.  [pacify] of an unknown id returns [False] and changes nothing.
    For a registered daemon it returns [True], marks the daemon pacified,
    puts it back to IDLE at level 0 and posts one daemon-pacified event;
    the daemon is from then on absent from [daemons_at] for every node,
    and the other daemons, the nodes, the gauges and the generator are
    untouched. *)
Theorem pacify_neutralises_one (daemon_id : string) (s : t R)
    (q : EventQueue.t) :
  match Py.get (_daemons s) daemon_id with
  | None => pacify R daemon_id s q = (Ok false, s, q)
  | Some d =>
      exists s',
        pacify R daemon_id s q
        = (Ok true, s', posted [pacified_event (neutralised d)] q)
        /\ Py.get (_daemons s') daemon_id = Some (neutralised d)
        /\ (forall k, k <> daemon_id ->
              Py.get (_daemons s') k = Py.get (_daemons s) k)
        /\ Py.keys (_daemons s') = Py.keys (_daemons s)
        /\ _nodes s' = _nodes s /\ _rm s' = _rm s /\ _rng s' = _rng s
        /\ Daemon.pacified (neutralised d) = true
        /\ Daemon.alert_state (neutralised d) = Daemon.IDLE
        /\ Daemon.alert_level (neutralised d) = 0%float
        /\ forall node_id x,
             x ∈ daemons_at R node_id s' -> Daemon.pacified x = false
  end.
Proof.
  unfold pacify, bind, gets, mutate, modify, get, ret, post_immediate,
    daemon_at.
  cbn beta iota.
  pose proof (index_of_get (_daemons s) daemon_id) as Hi.
  destruct (index_of daemon_id (_daemons s)) as [i|] eqn:Ei.
  - destruct Hi as (d & Hpos & Hget). rewrite Hget.
    cbn [_daemons set_daemons]. rewrite list_lookup_alter_eq, Hpos.
    cbn [fmap option_fmap option_map snd fst].
    eexists. split; [reflexivity |].
    cbn [_daemons _nodes _rm _rng set_daemons].
    split.
    { etransitivity;
        [apply (get_alter_position neutralised _ daemon_id i _ Ei) |].
      rewrite decide_True by reflexivity. rewrite Hget. reflexivity. }
    split.
    { intros k Hk. etransitivity;
        [apply (get_alter_position neutralised _ daemon_id i _ Ei) |].
      rewrite decide_False by (intros E; apply Hk; symmetry; exact E).
      reflexivity. }
    split; [apply (keys_alter_position neutralised) |].
    repeat split.
    intros node_id x [[_ Hp] _]%list_elem_of_filter. exact Hp.
  - rewrite Hi. reflexivity.
Qed.
End DaemonRegistryProperties.

(** ** DaemonSystem: what a turn does to a daemon *)

Section GraphFacts.
Import DaemonSystem.

Lemma graph_get (ns ns' : list (string * Node.t)) (k : string) :
  graph_of ns = graph_of ns' ->
  (fun n => (Node.children_ids n, Node.parent_id n)) <$> Py.get ns k
  = (fun n => (Node.children_ids n, Node.parent_id n)) <$> Py.get ns' k.
Proof.
  revert ns'.
  induction ns as [|[k0 n] ns IH]; intros [|[k0' n'] ns']; simpl;
    try discriminate; [reflexivity |].
  intros [= -> Hc Hp Hrest].
  destruct (decide (k0' = k)); [simpl; congruence | apply IH, Hrest].
Qed.

Lemma graph_contains (ns ns' : list (string * Node.t)) (k : string) :
  graph_of ns = graph_of ns' -> Py.contains ns k = Py.contains ns' k.
Proof.
  intros H. pose proof (graph_get ns ns' k H) as Hg. unfold Py.contains.
  destruct (Py.get ns k), (Py.get ns' k); simpl in Hg; congruence.
Qed.

Lemma graph_neighbours (ns ns' : list (string * Node.t)) (k : string) :
  graph_of ns = graph_of ns' -> _neighbours ns k = _neighbours ns' k.
Proof.
  intros H. unfold _neighbours. pose proof (graph_get ns ns' k H) as Hg.
  destruct (Py.get ns k) as [n|], (Py.get ns' k) as [n'|]; simpl in Hg;
    try discriminate; [| reflexivity].
  injection Hg as -> ->. apply list_filter_iff. intros x.
  rewrite (graph_contains _ _ x H). reflexivity.
Qed.

Lemma graph_alter_node (f : Node.t -> Node.t) (k : string)
    (ns : list (string * Node.t)) :
  (forall n, Node.children_ids (f n) = Node.children_ids n
             /\ Node.parent_id (f n) = Node.parent_id n) ->
  graph_of (Filesystem.alter_node f k ns) = graph_of ns.
Proof.
  intros Hf. induction ns as [|[k0 n] ns IH]; simpl; [reflexivity |].
  destruct (decide (k0 = k)); simpl.
  - destruct (Hf n) as [-> ->]. reflexivity.
  - rewrite IH. reflexivity.
Qed.

Lemma graph_keys (ns ns' : list (string * Node.t)) :
  graph_of ns = graph_of ns' -> Py.keys ns = Py.keys ns'.
Proof.
  unfold graph_of, Py.keys. intros H.
  apply (f_equal (map (fun t : string * list string * option string =>
                         t.1.1))) in H.
  rewrite !map_map in H. exact H.
Qed.

(** [min(..., key=...)] returns an element of least key. *)
Lemma min_by_spec (key : string -> Z) (rest : list string) :
  forall best,
    min_by key best rest ∈ best :: rest
    /\ forall x, x ∈ best :: rest ->
                 (key (min_by key best rest) <= key x)%Z.
Proof.
  induction rest as [|y rest IH]; intros best; simpl.
  - split; [left |]. intros x ->%list_elem_of_singleton. lia.
  - destruct (key y <? key best)%Z eqn:E.
    + destruct (IH y) as [Hin Hmin]. split.
      * right. exact Hin.
      * intros x [->|Hx]%elem_of_cons; [| apply Hmin, Hx].
        specialize (Hmin y (list_elem_of_here _ _)).
        apply Z.ltb_lt in E. lia.
    + destruct (IH best) as [Hin Hmin]. split.
      * apply elem_of_cons in Hin as [->|Hin]; [left | right; right; exact Hin].
      * intros x [->|[->|Hx]%elem_of_cons]%elem_of_cons.
        -- apply Hmin. left.
        -- specialize (Hmin best (list_elem_of_here _ _)).
           apply Z.ltb_ge in E. lia.
        -- apply Hmin. right. exact Hx.
Qed.
End GraphFacts.

Section DaemonTurnFacts.
Import Sys DaemonSystem.
Local Open Scope float_scope.
Context (R : Random.Impl).
Hypothesis randbelow_lt :
  forall n s, (0 < n)%nat -> ((Random._randbelow R n s).1 < n)%nat.

Lemma bind_ok {S A B} (m : M S A) (k : A -> M S B) (s s' : S)
    (q q' : EventQueue.t) (a : A) :
  m s q = (Ok a, s', q') -> bind m k s q = k a s' q'.
Proof. intros E. unfold bind. rewrite E. reflexivity. Qed.

Lemma same_daemon_refl (d : Daemon.t) : same_daemon d d.
Proof. repeat split. Qed.

Lemma same_daemon_trans (a b c : Daemon.t) :
  same_daemon a b -> same_daemon b c -> same_daemon a c.
Proof. unfold same_daemon. intuition congruence. Qed.

(** The daemon at position [i] became [f] of itself; the others are as
    they were. *)
Lemma frame_alter (i : nat) (f : Daemon.t -> Daemon.t)
    (F : Daemon.t -> Daemon.t -> Prop) (s s' : t R) :
  _daemons s' = alter (fun kd => (kd.1, f kd.2)) i (_daemons s) ->
  (forall d, F d (f d)) ->
  frame R i F s s'.
Proof.
  intros E HF. unfold frame. rewrite E. repeat split.
  - apply length_alter.
  - intros j Hj. apply list_lookup_alter_ne. auto.
  - intros [k d] Hkd. exists (f d). rewrite list_lookup_alter_eq, Hkd.
    split; [reflexivity | apply HF].
Qed.

(** [_update_alert] changes the level and the state of the daemon at [i]. *)
Lemma update_alert_stays (i : nat) (daemon : Daemon.t) (player : string)
    (noise : option string) (s : t R) (q : EventQueue.t) :
  exists s' q',
    _update_alert R i daemon player noise s q = (Ok tt, s', q')
    /\ _nodes s' = _nodes s
    /\ frame R i (fun d d' => same_daemon d d'
                               /\ Daemon.node_id d' = Daemon.node_id d) s s'.
Proof.
  unfold _update_alert, bind, gets, mutate, modify, when,
    _post_alert_event, post_immediate, ret.
  cbn beta iota.
  set (lv := Py.max 0 (Py.min 1 (Daemon.alert_level daemon
                                 + alert_gain (_nodes s) daemon player noise))).
  destruct (negb _); [destruct (_ && _); [| destruct (bool_decide _)] |];
    (eexists _, _; split; [reflexivity |]; split; [reflexivity |];
     apply (frame_alter i
              (fun d => Daemon.set_alert_state (state_of_level lv)
                          (Daemon.set_alert_level lv d)));
     [cbn [_daemons set_daemons]; rewrite list_alter_alter_eq; reflexivity
     | intros d; repeat split]).
Qed.

Lemma choice_in {A} (l : list A) (g : Random.state R) (x : A) :
  (Random.choice R l g).1 = Some x -> x ∈ l.
Proof.
  unfold Random.choice. destruct (Random._randbelow R (length l) g) as [k g'].
  cbn [fst]. apply list_elem_of_lookup_2.
Qed.

(** [_maybe_move] leaves the daemon at [i] where it is or moves it to a
    neighbour of the node of [daemon]. *)
Lemma maybe_move_hops (i : nat) (daemon : Daemon.t) (player : string)
    (s : t R) (q : EventQueue.t) :
  exists s',
    _maybe_move R i daemon player s q = (Ok tt, s', q)
    /\ _nodes s' = _nodes s /\ _rm s' = _rm s
    /\ frame R i
         (fun d d' =>
            same_daemon d d'
            /\ (Daemon.node_id d' = Daemon.node_id d
                \/ Daemon.node_id d'
                   ∈ _neighbours (_nodes s) (Daemon.node_id daemon))) s s'.
Proof.
  unfold _maybe_move, bind, gets, mutate, modify, ret. cbn beta iota.
  destruct (_ <? _)%Z.
  { eexists. split; [reflexivity |]. split; [reflexivity |].
    split; [reflexivity |].
    apply (frame_alter i (Daemon.set_turns_since_move
                            (Daemon.turns_since_move daemon + 1)));
      [reflexivity |].
    intros d. split; [repeat split | left; reflexivity]. }
  cbn [_nodes set_daemons].
  destruct (_neighbours (_nodes s) (Daemon.node_id daemon))
    as [|n0 others] eqn:Hn.
  { eexists. split; [reflexivity |]. split; [reflexivity |].
    split; [reflexivity |].
    apply (frame_alter i (fun d => Daemon.set_turns_since_move 0 d)).
    - cbn [_daemons set_daemons]. rewrite list_alter_alter_eq. reflexivity.
    - intros d. split; [repeat split | left; reflexivity]. }
  assert (Hmoved : forall (target : string) (s' : t R),
    target ∈ n0 :: others ->
    _nodes s' = _nodes s -> _rm s' = _rm s ->
    _daemons s'
    = alter (fun kd => (kd.1, Daemon.set_node_id target
                                (Daemon.set_turns_since_move 0 kd.2))) i
        (_daemons s) ->
    _nodes s' = _nodes s /\ _rm s' = _rm s
    /\ frame R i
         (fun d d' =>
            same_daemon d d'
            /\ (Daemon.node_id d' = Daemon.node_id d
                \/ Daemon.node_id d' ∈ n0 :: others)) s s').
  { intros target s' Hin Hns Hrm Hds. split; [exact Hns |].
    split; [exact Hrm |].
    apply (frame_alter i (fun d => Daemon.set_node_id target
                                     (Daemon.set_turns_since_move 0 d)));
      [exact Hds |].
    intros d. split; [repeat split | right; exact Hin]. }
  destruct (_ && _).
  - eexists. split; [reflexivity |].
    apply (Hmoved (min_by (fun nid => _distance (_nodes s) nid player)
                     n0 others)); try reflexivity.
    + apply min_by_spec.
    + cbn [_daemons set_daemons]. rewrite !list_alter_alter_eq.
      reflexivity.
  - cbn [_rng set_daemons].
    pose proof (choice_nonempty R randbelow_lt n0 others (_rng s)) as Hsome.
    pose proof (choice_in (n0 :: others) (_rng s)) as Hin.
    destruct (Random.choice R (n0 :: others) (_rng s)) as [picked g'].
    destruct Hsome as [target Ht]. cbn [fst] in Ht, Hin. subst picked.
    cbn beta iota. eexists. split; [reflexivity |].
    apply (Hmoved target); try reflexivity.
    + apply Hin. reflexivity.
    + cbn [_daemons set_daemons set_rng]. rewrite !list_alter_alter_eq.
      reflexivity.
Qed.

Lemma contact_keeps (daemon : Daemon.t) (player : string) (s : t R)
    (q : EventQueue.t) :
  exists s' q',
    _apply_contact_effects R daemon player s q = (Ok tt, s', q')
    /\ _nodes s' = _nodes s /\ _daemons s' = _daemons s.
Proof.
  unfold _apply_contact_effects. destruct (negb _).
  { exists s, q. repeat split. }
  unfold bind, zoom, ret.
  destruct (ResourceManager.current
              (ResourceManager.slot ResourceManager.POWER (_rm s))
            <? _CONTACT_DRAIN) eqn:E.
  - rewrite consume_short by first [reflexivity | exact E].
    eexists _, _. repeat split.
  - rewrite consume_enough by first [reflexivity | exact E].
    eexists _, _. repeat split.
Qed.

Lemma corrupt_keeps (daemon : Daemon.t) (s : t R) (q : EventQueue.t) :
  exists s',
    _corrupt_current_node R daemon s q = (Ok tt, s', q)
    /\ graph_of (_nodes s') = graph_of (_nodes s)
    /\ _daemons s' = _daemons s.
Proof.
  eexists. split; [reflexivity |]. cbn [_nodes _daemons set_nodes].
  split; [| reflexivity]. apply graph_alter_node. intros n. split; reflexivity.
Qed.

Lemma current_daemon_eq (i : nat) (fallback : Daemon.t) (s : t R)
    (q : EventQueue.t) :
  current_daemon R i fallback s q
  = (Ok (default fallback (daemon_at i s)), s, q).
Proof. reflexivity. Qed.

Lemma a_turn_later_refl (ns : list (string * Node.t)) (d : Daemon.t) :
  a_turn_later ns d d.
Proof. split; [apply same_daemon_refl |]. split; [reflexivity | left; reflexivity]. Qed.

(** One daemon's turn. *)
Lemma tick_daemon_hops (player : string) (noise : option string) (i : nat)
    (s : t R) (q : EventQueue.t) :
  exists s' q',
    tick_daemon R player noise i s q = (Ok tt, s', q')
    /\ graph_of (_nodes s') = graph_of (_nodes s)
    /\ frame R i (a_turn_later (_nodes s)) s s'.
Proof.
  unfold tick_daemon. rewrite (bind_ok _ _ s s q q s eq_refl).
  destruct (daemon_at i s) as [daemon0|] eqn:Hat.
  2:{ exists s, q. split; [reflexivity |]. split; [reflexivity |].
      repeat split. intros kd Hkd. unfold daemon_at in Hat.
      rewrite Hkd in Hat. discriminate Hat. }
  assert (Hpos : exists k, _daemons s !! i = Some (k, daemon0)).
  { unfold daemon_at in Hat. destruct (_daemons s !! i) as [[k d]|];
      [| discriminate]. injection Hat as ->. eauto. }
  destruct Hpos as [k Hpos].
  destruct (Daemon.pacified daemon0) eqn:Hp.
  { exists s, q. split; [reflexivity |]. split; [reflexivity |].
    repeat split. intros kd Hkd. rewrite Hpos in Hkd. injection Hkd as <-.
    exists daemon0. split; [exact Hpos | apply a_turn_later_refl]. }
  destruct (update_alert_stays i daemon0 player noise s q)
    as (s1 & q1 & E1 & N1 & (L1 & O1 & I1)).
  destruct (I1 _ Hpos) as (d1 & Hpos1 & Hsame1 & Hnode1).
  cbn [fst snd] in Hpos1, Hsame1, Hnode1.
  rewrite (bind_ok _ _ _ _ _ _ _ E1).
  rewrite (bind_ok _ _ _ _ _ _ _ (current_daemon_eq i daemon0 s1 q1)).
  assert (Hat1 : daemon_at i s1 = Some d1)
    by (unfold daemon_at; rewrite Hpos1; reflexivity).
  rewrite Hat1. cbn [default from_option id].
  destruct (maybe_move_hops i d1 player s1 q1)
    as (s2 & E2 & N2 & _ & (L2 & O2 & I2)).
  destruct (I2 _ Hpos1) as (d2 & Hpos2 & Hsame2 & Hnode2).
  cbn [fst snd] in Hpos2, Hsame2, Hnode2.
  rewrite (bind_ok _ _ _ _ _ _ _ E2).
  rewrite (bind_ok _ _ _ _ _ _ _ (current_daemon_eq i d1 s2 q1)).
  destruct (contact_keeps (default d1 (daemon_at i s2)) player s2 q1)
    as (s3 & q3 & E3 & N3 & D3).
  rewrite (bind_ok _ _ _ _ _ _ _ E3).
  rewrite (bind_ok _ _ _ _ _ _ _
             (current_daemon_eq i (default d1 (daemon_at i s2)) s3 q3)).
  destruct (corrupt_keeps
              (default (default d1 (daemon_at i s2)) (daemon_at i s3)) s3 q3)
    as (s4 & E4 & G4 & D4).
  exists s4, q3. split; [exact E4 |].
  split; [rewrite G4, N3, N2, N1; reflexivity |].
  unfold frame. rewrite D4, D3. repeat split.
  - congruence.
  - intros j Hj. rewrite (O2 j Hj). apply O1, Hj.
  - intros kd Hkd. rewrite Hpos in Hkd. injection Hkd as <-.
    exists d2. split; [exact Hpos2 |]. cbn [snd].
    split; [exact (same_daemon_trans _ _ _ Hsame1 Hsame2) |].
    split; [congruence |].
    unfold at_most_one_hop. rewrite N1, Hnode1 in Hnode2.
    destruct Hnode2 as [Hn|Hn]; [left; congruence | right; exact Hn].
Qed.

Lemma a_turn_later_graph (ns ns' : list (string * Node.t))
    (d d' : Daemon.t) :
  graph_of ns = graph_of ns' -> a_turn_later ns d d' -> a_turn_later ns' d d'.
Proof.
  intros Hg (Hs & Hp & Hh). split; [exact Hs |]. split; [exact Hp |].
  unfold at_most_one_hop in *. rewrite <- (graph_neighbours _ _ _ Hg).
  exact Hh.
Qed.

(** The turns of the daemons at the given positions. *)
Lemma tick_loop_hops (player : string) (noise : option string)
    (positions : list nat) :
  NoDup positions ->
  forall (s : t R) (q : EventQueue.t),
    exists s' q',
      for_each positions (tick_daemon R player noise) s q = (Ok tt, s', q')
      /\ graph_of (_nodes s') = graph_of (_nodes s)
      /\ length (_daemons s') = length (_daemons s)
      /\ (forall j, j ∉ positions -> _daemons s' !! j = _daemons s !! j)
      /\ (forall j kd, j ∈ positions -> _daemons s !! j = Some kd ->
            exists d', _daemons s' !! j = Some (kd.1, d')
                       /\ a_turn_later (_nodes s) kd.2 d').
Proof.
  induction positions as [|i positions IH]; intros Hnd s q.
  - exists s, q. split; [reflexivity |]. repeat split.
    intros j kd Hj. inversion Hj.
  - apply NoDup_cons in Hnd as [Hi Hnd].
    destruct (tick_daemon_hops player noise i s q)
      as (s1 & q1 & E1 & G1 & (L1 & O1 & I1)).
    destruct (IH Hnd s1 q1) as (s2 & q2 & E2 & G2 & L2 & O2 & I2).
    exists s2, q2. split.
    { cbn [for_each]. rewrite (bind_ok _ _ _ _ _ _ _ E1). exact E2. }
    split; [congruence |]. split; [congruence |].
    split.
    + intros j Hj. apply not_elem_of_cons in Hj as [Hji Hj].
      rewrite (O2 j Hj). apply O1, Hji.
    + intros j kd [->|Hj]%elem_of_cons Hkd.
      * destruct (I1 kd Hkd) as (d' & E' & Ht). exists d'.
        rewrite (O2 i Hi). split; assumption.
      * assert (Hji : j <> i) by (intros ->; contradiction).
        destruct (I2 j kd Hj) as (d' & E' & Ht);
          [rewrite (O1 j Hji); exact Hkd |].
        exists d'. split; [exact E' |].
        exact (a_turn_later_graph _ _ _ _ G1 Ht).
Qed.

Lemma tick_hops (player : string) (noise : option string) (s : t R)
    (q : EventQueue.t) :
  exists s' q',
    tick R player noise s q = (Ok tt, s', q')
    /\ graph_of (_nodes s') = graph_of (_nodes s)
    /\ length (_daemons s') = length (_daemons s)
    /\ forall j kd, _daemons s !! j = Some kd ->
         exists d', _daemons s' !! j = Some (kd.1, d')
                    /\ a_turn_later (_nodes s) kd.2 d'.
Proof.
  unfold tick. rewrite (bind_ok _ _ s s q q (_daemons s) eq_refl).
  destruct (tick_loop_hops player noise (seq 0 (length (_daemons s)))
              (NoDup_seq _ _) s q) as (s' & q' & E & G & L & _ & I).
  exists s', q'. split; [exact E |]. split; [exact G |].
  split; [exact L |]. intros j kd Hkd. apply I; [| exact Hkd].
  apply elem_of_seq. apply lookup_lt_Some in Hkd. lia.
Qed.
End DaemonTurnFacts.

Section DaemonTurnProperties.
Import Sys DaemonSystem.
Local Open Scope float_scope.
Context (R : Random.Impl).
Hypothesis randbelow_lt :
  forall n s, (0 < n)%nat -> ((Random._randbelow R n s).1 < n)%nat.

(** X26.  A turn leaves pacified daemons alone.  [tick] returns, and every
    daemon that was pacified before it is exactly as it was afterwards, at
    the same place of the registry: it has not moved, its alert has not
    changed and its counters have not run. *)
Theorem tick_leaves_pacified_daemons_alone (player : string)
    (noise : option string) (s : t R) (q : EventQueue.t) :
  exists s' q',
    tick R player noise s q = (Ok tt, s', q')
    /\ Py.keys (_daemons s') = Py.keys (_daemons s)
    /\ forall j kd, _daemons s !! j = Some kd ->
         Daemon.pacified kd.2 = true -> _daemons s' !! j = Some kd.
Proof.
  destruct (tick_hops R randbelow_lt player noise s q)
    as (s' & q' & E & _ & L & I).
  exists s', q'. split; [exact E |]. split.
  - unfold Py.keys. apply list_eq. intros j. rewrite !list_lookup_fmap.
    destruct (_daemons s !! j) as [kd|] eqn:Hkd.
    + destruct (I j kd Hkd) as (d' & -> & _). reflexivity.
    + apply lookup_ge_None_1 in Hkd. rewrite <- L in Hkd.
      rewrite (lookup_ge_None_2 _ _ Hkd). reflexivity.
  - intros j kd Hkd Hp. destruct (I j kd Hkd) as (d' & -> & _ & Hsame & _).
    rewrite (Hsame Hp). destruct kd; reflexivity.
Qed.

(** X27.  A turn moves a daemon by one hop at most and changes nothing of
    what it is.  [tick] returns; the keys of the node registry and the
    children and the parent of every node are as before; and every daemon
    keeps its id, name, personality, detection radius, move cooldown and
    pacified flag and either stays on its node or stands on a node that is
    registered and is a child or the parent of the node it stood on. *)
Theorem tick_moves_daemons_one_hop (player : string)
    (noise : option string) (s : t R) (q : EventQueue.t) :
  exists s' q',
    tick R player noise s q = (Ok tt, s', q')
    /\ graph_of (_nodes s') = graph_of (_nodes s)
    /\ forall j kd, _daemons s !! j = Some kd ->
         exists d',
           _daemons s' !! j = Some (kd.1, d')
           /\ same_daemon kd.2 d'
           /\ at_most_one_hop (_nodes s) kd.2 d'
           /\ (Daemon.node_id d' ∈ Py.keys (_nodes s)
               \/ Daemon.node_id d' = Daemon.node_id kd.2).
Proof.
  destruct (tick_hops R randbelow_lt player noise s q)
    as (s' & q' & E & G & L & I).
  exists s', q'. split; [exact E |]. split; [exact G |].
  intros j kd Hkd. destruct (I j kd Hkd) as (d' & Hd' & Hsame & _ & Hhop).
  exists d'. split; [exact Hd' |]. split; [exact Hsame |].
  split; [exact Hhop |].
  destruct Hhop as [Hn|Hn]; [right; exact Hn | left].
  exact (neighbours_registered _ _ _ Hn).
Qed.

End DaemonTurnProperties.

(** On the sample site the pacified sleeper is untouched by the turn. *)
Lemma tick_leaves_pacified_daemons_alone_witness :
  exists s' q',
    DaemonSystem.tick toy_random "id-memo" None sample_daemons EventQueue.init
    = (Sys.Ok tt, s', q')
    /\ Py.keys (DaemonSystem._daemons s')
       = Py.keys (DaemonSystem._daemons sample_daemons)
    /\ DaemonSystem._daemons s' !! 1%nat
       = Some ("daemon_2"%string, sample_sleeper).
Proof.
  destruct (tick_leaves_pacified_daemons_alone toy_random toy_randbelow_lt
              "id-memo" None sample_daemons EventQueue.init)
    as (s' & q' & E & K & I).
  exists s', q'. split; [exact E |]. split; [exact K |].
  exact (I 1%nat ("daemon_2"%string, sample_sleeper) eq_refl eq_refl).
Defined.

(** The watchdog of the sample site moves from the logs to the root, one
    hop. *)
Lemma tick_moves_daemons_one_hop_witness :
  exists s' q' d',
    DaemonSystem.tick toy_random "id-memo" None sample_daemons EventQueue.init
    = (Sys.Ok tt, s', q')
    /\ DaemonSystem._daemons s' !! 0%nat = Some ("daemon_1"%string, d')
    /\ same_daemon sample_watchdog d'
    /\ at_most_one_hop (DaemonSystem._nodes sample_daemons)
         sample_watchdog d'.
Proof.
  destruct (tick_moves_daemons_one_hop toy_random toy_randbelow_lt
              "id-memo" None sample_daemons EventQueue.init)
    as (s' & q' & E & _ & I).
  destruct (I 0%nat ("daemon_1"%string, sample_watchdog) eq_refl)
    as (d' & Hd' & Hsame & Hhop & _).
  exists s', q', d'. split; [exact E |]. split; [exact Hd' |].
  split; [exact Hsame | exact Hhop].
Defined.


(** ** SiteGenerator: the generated registry is a tree *)

Section GeneratedTree.
Import Sys SiteGenerator.
Local Open Scope sys_scope.
Context (R : Random.Impl) (uuid4 : nat -> string) (self : SiteGenerator.t).
Hypothesis uuid4_inj : Inj (=) (=) uuid4.

Local Notation "'consistent'" := (run_consistent R uuid4).
Local Notation "'extends'" := (run_extends R).
Local Notation "'safe''" := (safe R uuid4).

Lemma extends_refl (s : Run R) : extends s s.
Proof.
  split; [| auto]. intros r n Hn. exists n. repeat split; auto.
Qed.

Lemma extends_trans (s1 s2 s3 : Run R) :
  extends s1 s2 -> extends s2 s3 -> extends s1 s3.
Proof.
  intros [H1 K1] [H2 K2]. split; [| auto].
  intros r n Hn. destruct (H1 r n Hn) as (n' & Hn' & Hc & Hs).
  destruct (H2 r n' Hn') as (n'' & Hn'' & Hc' & Hs').
  exists n''. repeat split; [assumption | congruence |].
  intros c Hin. auto.
Qed.

Lemma extends_set_rng (g : Random.state R) (s : Run R) :
  extends s (set_rng R g s).
Proof.
  split; [| auto]. intros r n Hn. exists n. repeat split; auto.
Qed.

Lemma consistent_set_rng (g : Random.state R) (s : Run R) :
  consistent s -> consistent (set_rng R g s).
Proof. intros []. constructor; assumption. Qed.

Lemma stable_and (P Q : Run R -> Prop) :
  stable R P -> stable R Q -> stable R (fun s => P s /\ Q s).
Proof. intros HP HQ s s' [] He. split; eauto. Qed.

Lemma stable_directory_ref (r : nat) : stable R (directory_ref R uuid4 r).
Proof.
  intros s s' (n & Hn & Ht & Hr) [He Hk].
  destruct (He r n Hn) as (n' & Hn' & Hc & _).
  exists n'. repeat split; [assumption | | auto].
  unfold core in Hc. congruence.
Qed.

Lemma stable_file_ref (r : nat) : stable R (file_ref R r).
Proof.
  intros s s' (n & Hn & Ht) [He Hk].
  destruct (He r n Hn) as (n' & Hn' & Hc & _).
  exists n'. split; [assumption |]. unfold core in Hc. congruence.
Qed.

Lemma stable_root_revealed : stable R (root_revealed R uuid4).
Proof.
  intros s s' (n & Hn & Hv & Ht & Hr) [He Hk].
  destruct (He 0 n Hn) as (n' & Hn' & Hc & _).
  exists n'. unfold core in Hc. repeat split; [assumption | congruence | congruence | auto].
Qed.

Lemma stable_true : stable R (fun _ => True).
Proof. intros s s' _ _. exact I. Qed.

(** *** The rules *)

Lemma safe_ret {A} (P : Run R -> Prop) (a : A) (Q : A -> Run R -> Prop) :
  (forall s, consistent s -> P s -> Q a s) -> safe' P (ret a) Q.
Proof.
  intros H s q Hs HP. cbn. split; [assumption |].
  split; [apply extends_refl | auto].
Qed.

Lemma safe_raise {A} (P : Run R -> Prop) (e : Exc) (Q : A -> Run R -> Prop) :
  safe' P (raise e) Q.
Proof. intros s q _ _. exact I. Qed.

Lemma safe_bind {A B} (P : Run R -> Prop) (m : M (Run R) A)
    (Q1 : A -> Run R -> Prop) (k : A -> M (Run R) B)
    (Q : B -> Run R -> Prop) :
  safe' P m Q1 -> (forall a, safe' (Q1 a) (k a) Q) -> safe' P (bind m k) Q.
Proof.
  intros Hm Hk s q Hs HP. unfold bind. specialize (Hm s q Hs HP).
  destruct (m s q) as [[[a|e] s1] q1]; [| exact I].
  destruct Hm as (Hs1 & He1 & HQ1). specialize (Hk a s1 q1 Hs1 HQ1).
  destruct (k a s1 q1) as [[[b|e] s2] q2]; [| exact I].
  destruct Hk as (Hs2 & He2 & HQ2).
  split; [assumption |]. split; [| assumption].
  exact (extends_trans _ _ _ He1 He2).
Qed.

Lemma safe_frame {A} (P F : Run R -> Prop) (m : M (Run R) A)
    (Q : A -> Run R -> Prop) :
  stable R F -> safe' P m Q ->
  safe' (fun s => P s /\ F s) m (fun a s => Q a s /\ F s).
Proof.
  intros HF Hm s q Hs [HP HFs]. specialize (Hm s q Hs HP).
  destruct (m s q) as [[[a|e] s1] q1]; [| exact I].
  destruct Hm as (Hs1 & He1 & HQ1).
  split; [assumption |]. split; [assumption |]. split; [assumption |].
  exact (HF _ _ HFs He1).
Qed.

Lemma safe_weaken {A} (P P' : Run R -> Prop) (m : M (Run R) A)
    (Q Q' : A -> Run R -> Prop) :
  (forall s, consistent s -> P' s -> P s) ->
  (forall a s, consistent s -> Q a s -> Q' a s) ->
  safe' P m Q -> safe' P' m Q'.
Proof.
  intros HP HQ Hm s q Hs HP'. specialize (Hm s q Hs (HP s Hs HP')).
  destruct (m s q) as [[[a|e] s1] q1]; [| exact I].
  destruct Hm as (Hs1 & He1 & HQ1).
  split; [assumption |]. split; [assumption |]. auto.
Qed.

(** A stable [P] is kept by whatever runs. *)
Lemma safe_keeps {A} (P : Run R -> Prop) (m : M (Run R) A) :
  stable R P -> safe' (fun _ => True) m (fun _ _ => True) ->
  safe' P m (fun _ => P).
Proof.
  intros HP Hm.
  apply (safe_weaken (fun s => True /\ P s) _ _ (fun _ s => True /\ P s)).
  - auto.
  - intros a s _ [_ H]. exact H.
  - apply (safe_frame (fun _ => True) P m (fun _ _ => True) HP Hm).
Qed.

Lemma safe_keeps_from {A} (P : Run R -> Prop) (m : M (Run R) A) :
  stable R P -> safe' P m (fun _ _ => True) -> safe' P m (fun _ => P).
Proof.
  intros HP Hm.
  apply (safe_weaken (fun s => P s /\ P s) _ _ (fun _ s => True /\ P s)).
  - auto.
  - intros a s _ [_ H]. exact H.
  - apply (safe_frame P P m (fun _ _ => True) HP Hm).
Qed.

Lemma safe_draw {A} (f : Random.state R -> A * Random.state R) :
  safe' (fun _ => True) (draw R f) (fun _ _ => True).
Proof.
  intros s q Hs _. unfold draw. destruct (f (rng s)) as [a g'].
  split; [apply consistent_set_rng; assumption |].
  split; [apply extends_set_rng | exact I].
Qed.

Lemma safe_rounded_count (x : float) :
  safe' (fun _ => True) (rounded_count R x) (fun _ _ => True).
Proof.
  unfold rounded_count. destruct (Py.round x);
    [apply safe_ret; auto | apply safe_raise | apply safe_raise].
Qed.

Lemma safe_pick (pool : list string) (i : nat) :
  safe' (fun _ => True) (pick R pool i) (fun _ _ => True).
Proof.
  unfold pick. destruct pool; [apply safe_raise | apply safe_ret; auto].
Qed.

Lemma safe_read (r : nat) :
  safe' (fun _ => True) (read R r) (fun n s => heap s !! r = Some n).
Proof.
  intros s q Hs _. unfold read, bind, get. unfold deref.
  destruct (heap s !! r) eqn:E; cbn; [| exact I].
  split; [assumption |]. split; [apply extends_refl | assumption].
Qed.

Lemma safe_gets {A} (f : Run R -> A) :
  safe' (fun _ => True) (gets f) (fun _ _ => True).
Proof.
  intros s q Hs _. cbn. split; [assumption |].
  split; [apply extends_refl | exact I].
Qed.

Lemma safe_lookup_child_name (name : string) (parent : nat) :
  safe' (fun _ => True) (_lookup_child_name R name parent) (fun _ _ => True).
Proof.
  intros s q Hs _. unfold _lookup_child_name, read, bind, get, deref.
  destruct (heap s !! parent) eqn:E; cbn; [| exact I].
  split; [assumption |]. split; [apply extends_refl | exact I].
Qed.

Lemma safe_for_each {X} (P : Run R -> Prop) (xs : list X)
    (body : X -> M (Run R) unit) :
  (forall x, x ∈ xs -> safe' P (body x) (fun _ => P)) ->
  safe' P (for_each xs body) (fun _ => P).
Proof.
  induction xs as [|x xs IH]; intros Hbody; cbn [for_each].
  - apply safe_ret. auto.
  - apply (safe_bind _ _ (fun _ => P)).
    + apply Hbody. apply list_elem_of_here.
    + intros _. apply IH. intros y Hy. apply Hbody.
      apply list_elem_of_further. exact Hy.
Qed.

(** *** Dicts with distinct keys *)

Lemma dict_get_elem_of {V} (d : list (string * V)) (k : string) (v : V) :
  Py.get d k = Some v -> (k, v) ∈ d.
Proof.
  induction d as [|[k' v'] d IH]; simpl; [discriminate |].
  destruct (decide (k' = k)) as [->|Hne].
  - intros [= ->]. apply list_elem_of_here.
  - intros H. apply list_elem_of_further, IH, H.
Qed.

Lemma dict_get_absent {V} (d : list (string * V)) (k : string) :
  k ∉ Py.keys d -> Py.get d k = None.
Proof.
  induction d as [|[k' v'] d IH]; simpl; [reflexivity |].
  intros Hn. apply not_elem_of_cons in Hn as [Hne Hn].
  destruct (decide (k' = k)) as [->|_]; [contradiction | auto].
Qed.

Lemma dict_elem_of_keys {V} (d : list (string * V)) (k : string) (v : V) :
  (k, v) ∈ d -> k ∈ Py.keys d.
Proof.
  intros H. unfold Py.keys. apply (list_elem_of_fmap_2 fst) in H. exact H.
Qed.

Lemma dict_elem_of_get {V} (d : list (string * V)) (k : string) (v : V) :
  NoDup (Py.keys d) -> (k, v) ∈ d -> Py.get d k = Some v.
Proof.
  induction d as [|[k' v'] d IH]; simpl; intros Hnd Hin.
  - apply elem_of_nil in Hin. contradiction.
  - apply NoDup_cons in Hnd as [Hk' Hnd].
    apply elem_of_cons in Hin as [[= -> ->]|Hin].
    + destruct (decide (k' = k')); [reflexivity | contradiction].
    + destruct (decide (k' = k)) as [->|Hne]; [| auto].
      exfalso. apply Hk'. exact (dict_elem_of_keys _ _ _ Hin).
Qed.

(** *** A new node under a registered directory *)

Lemma fresh_id (s : Run R) :
  consistent s -> uuid4 (length (heap s)) ∉ Py.keys (nodes s).
Proof.
  intros Hs Hin. unfold Py.keys in Hin.
  apply list_elem_of_fmap in Hin as ([k r] & Hk & Hin). simpl in Hk.
  destruct (rc_reg _ _ _ Hs k r Hin) as [-> Hlt].
  apply uuid4_inj in Hk. lia.
Qed.

Lemma made_node_ok (name : string) (ty : Node.NodeType) (k p : string)
    (x : float) (md : list (string * Py.value)) :
  node_ok
    (let node :=
       Node.mk name ty k (Some p) []
         (Py.max 0.0 (Py.min 0.99 x)) Node.HIDDEN None md in
     if decide (ty = Node.DIRECTORY)
     then Node.set_visibility Node.DETECTED node else node).
Proof.
  destruct (clamp_bounds 0 0.99 x eq_refl) as [Hlo Hhi].
  cbv zeta. destruct (decide (ty = Node.DIRECTORY)) as [->|Hne].
  - repeat split; try assumption; cbn; congruence.
  - repeat split; try assumption; cbn; try congruence.
    destruct ty; try reflexivity. contradiction.
Qed.

Lemma spawn_run (name : string) (ty : Node.NodeType) (parent : nat)
    (s : Run R) (q : EventQueue.t) (pn : Node.t) :
  consistent s ->
  heap s !! parent = Some pn ->
  Node.node_type pn = Node.DIRECTORY ->
  (uuid4 parent, parent) ∈ nodes s ->
  exists s1 s',
    _make_node R uuid4 self name ty (Some (Node.node_id pn)) s q
    = (Ok (length (heap s)), s1, q)
    /\ attach R parent (length (heap s)) s1 q = (Ok tt, s', q)
    /\ consistent s' /\ extends s s'
    /\ (ty = Node.DIRECTORY -> directory_ref R uuid4 (length (heap s)) s').
Proof.
  intros Hs Hpn Hty Hreg.
  unfold _make_node, draw, bind, fresh_uuid, alloc.
  destruct (Random.uniform R (-0.03) 0.03 (rng s)) as [u g'] eqn:Eu.
  cbn [set_rng set_uuids set_heap rng heap nodes uuids].
  set (cid := uuid4 (uuids s)).
  match goal with |- context [heap s ++ [?c]] => set (cn := c) end.
  set (len := length (heap s)).
  assert (Hcid : cid = uuid4 len)
    by (unfold cid; rewrite (rc_uuids _ _ _ Hs); reflexivity).
  assert (Hcn_id : Node.node_id cn = cid)
    by (unfold cn; destruct (decide _); reflexivity).
  assert (Hcn_par : Node.parent_id cn = Some (uuid4 parent)).
  { unfold cn. rewrite <- (rc_ids _ _ _ Hs parent pn Hpn).
    destruct (decide _); reflexivity. }
  assert (Hcn_ty : Node.node_type cn = ty)
    by (unfold cn; destruct (decide _); reflexivity).
  assert (Hcn_kids : Node.children_ids cn = [])
    by (unfold cn; destruct (decide _); reflexivity).
  assert (Hcn_ok : node_ok cn)
    by exact (made_node_ok name ty cid (Node.node_id pn) _ _).
  assert (Hlt : parent < len) by (eapply lookup_lt_Some; eassumption).
  assert (Hfresh : cid ∉ Py.keys (nodes s))
    by (rewrite Hcid; apply fresh_id; assumption).
  assert (Hnew : cid ∉ Node.children_ids pn).
  { intros Hin. destruct (rc_child _ _ _ Hs parent pn cid Hpn Hin)
      as (rc & nc & _ & _ & _ & Hr).
    apply Hfresh. exact (dict_elem_of_keys _ _ _ Hr). }
  set (pn' := Node.set_children_ids (Node.children_ids pn ++ [cid]) pn).
  set (heap' := alter (fun _ => pn') parent (heap s ++ [cn])).
  set (nodes' := nodes s ++ [(cid, len)]).
  exists (mkRun R g' (heap s ++ [cn]) (nodes s) (S (uuids s))),
         (mkRun R g' heap' nodes' (S (uuids s))).
  split; [reflexivity |].
  split.
  { cbv [attach bind read get deref register modify add_child update
           ret raise].
    cbn [set_rng set_uuids set_heap set_registry rng heap nodes uuids].
    rewrite (list_lookup_middle (heap s) [] cn len eq_refl).
    cbn [set_rng set_uuids set_heap set_registry rng heap nodes uuids].
    rewrite Hcn_id. rewrite (lookup_app_l (heap s) [cn] parent Hlt), Hpn.
    unfold Node.add_child, Node.is_directory.
    rewrite (bool_decide_eq_true_2 _ Hty). cbn [negb].
    rewrite (bool_decide_eq_false_2 _ Hnew).
    cbn [set_rng set_uuids set_heap set_registry rng heap nodes uuids].
    rewrite (setitem_new _ _ _ (dict_get_absent _ _ Hfresh)).
    reflexivity. }
  assert (Hat_parent : heap' !! parent = Some pn').
  { unfold heap'. rewrite list_lookup_alter_eq.
    rewrite (lookup_app_l (heap s) [cn] parent Hlt), Hpn. reflexivity. }
  assert (Hat_len : heap' !! len = Some cn).
  { unfold heap'. rewrite list_lookup_alter_ne by lia.
    exact (list_lookup_middle (heap s) [] cn len eq_refl). }
  assert (Hlk : forall r n',
            heap' !! r = Some n' ->
            (r = parent /\ n' = pn')
            \/ (r <> parent /\ r < len /\ heap s !! r = Some n')
            \/ (r = len /\ n' = cn)).
  { intros r n' H. destruct (decide (r = parent)) as [->|Hne].
    - left. split; congruence.
    - right. unfold heap' in H.
      rewrite list_lookup_alter_ne in H by congruence.
      apply lookup_snoc_Some in H as [[? ?]|[? ?]]; [left | right]; auto. }
  assert (Hfw : forall r n,
            heap s !! r = Some n ->
            exists n', heap' !! r = Some n' /\ core n' = core n
                       /\ Node.children_ids n ⊆ Node.children_ids n').
  { intros r n H. destruct (decide (r = parent)) as [->|Hne].
    - exists pn'. assert (n = pn) as -> by congruence.
      split; [assumption |]. split; [reflexivity |].
      intros c Hc. unfold pn'. cbn. apply elem_of_app. left. exact Hc.
    - exists n. split; [| split; [reflexivity | auto]].
      unfold heap'. rewrite list_lookup_alter_ne by congruence.
      apply lookup_app_l_Some. exact H. }
  assert (Hlen' : length heap' = S len).
  { unfold heap'. rewrite length_alter, length_app. cbn. unfold len. lia. }
  assert (Hpn'_ok : node_ok pn').
  { destruct (rc_ok _ _ _ Hs parent pn Hpn) as (H1 & H2 & H3 & H4 & H5).
    repeat split; try assumption. intros Hne. contradiction. }
  split; [| split].
  - constructor; cbn [rng heap nodes uuids].
    + rewrite Hlen', (rc_uuids _ _ _ Hs). reflexivity.
    + intros r n' H. destruct (Hlk r n' H) as [[-> ->]|[(_ & _ & H0)|[-> ->]]].
      * exact (rc_ids _ _ _ Hs parent pn Hpn).
      * exact (rc_ids _ _ _ Hs r n' H0).
      * congruence.
    + intros r n' H. destruct (Hlk r n' H) as [[-> ->]|[(_ & _ & H0)|[-> ->]]].
      * exact Hpn'_ok.
      * exact (rc_ok _ _ _ Hs r n' H0).
      * exact Hcn_ok.
    + intros r n' H. destruct (Hlk r n' H) as [[-> ->]|[(_ & _ & H0)|[-> ->]]].
      * exact (rc_root _ _ _ Hs parent pn Hpn).
      * exact (rc_root _ _ _ Hs r n' H0).
      * rewrite Hcn_par. split; [discriminate | lia].
    + intros k r H. unfold nodes' in H. apply elem_of_app in H as [H|H].
      * destruct (rc_reg _ _ _ Hs k r H) as [-> Hr]. split; [reflexivity |].
        fold len in Hr. lia.
      * apply list_elem_of_singleton in H as [= -> ->].
        split; [assumption | lia].
    + unfold nodes', Py.keys. rewrite map_app. apply NoDup_app.
      split; [exact (rc_keys _ _ _ Hs) |]. split; [| apply NoDup_singleton].
      intros x Hx Hx'. apply list_elem_of_singleton in Hx'. cbn in Hx'.
      subst x. exact (Hfresh Hx).
    + intros r n' c H Hc.
      assert (Hold : forall r0 n0,
                heap s !! r0 = Some n0 -> c ∈ Node.children_ids n0 ->
                exists rc nc,
                  c = uuid4 rc /\ heap' !! rc = Some nc
                  /\ Node.parent_id nc = Some (uuid4 r0) /\ (c, rc) ∈ nodes').
      { intros r0 n0 H0 Hc0.
        destruct (rc_child _ _ _ Hs r0 n0 c H0 Hc0)
          as (rc & nc & -> & Hnc & Hp & Hr).
        destruct (Hfw rc nc Hnc) as (nc' & Hnc' & Hcore & _).
        exists rc, nc'. split; [reflexivity |]. split; [assumption |].
        split; [unfold core in Hcore; congruence |].
        unfold nodes'. apply elem_of_app. left. exact Hr. }
      destruct (Hlk r n' H) as [[-> ->]|[(_ & _ & H0)|[-> ->]]].
      * unfold pn' in Hc. cbn in Hc. apply elem_of_app in Hc as [Hc|Hc].
        -- exact (Hold parent pn Hpn Hc).
        -- apply list_elem_of_singleton in Hc as ->.
           exists len, cn. split; [assumption |]. split; [assumption |].
           split; [assumption |].
           unfold nodes'. apply elem_of_app. right.
           apply list_elem_of_singleton. reflexivity.
      * exact (Hold r n' H0 Hc).
      * rewrite Hcn_kids in Hc. apply elem_of_nil in Hc. contradiction.
    + intros k r n' p Hk H Hp.
      assert (Hold : forall n0,
                (k, r) ∈ nodes s -> heap s !! r = Some n0 ->
                Node.parent_id n0 = Some p ->
                exists rp np,
                  p = uuid4 rp /\ heap' !! rp = Some np
                  /\ Node.node_type np = Node.DIRECTORY
                  /\ k ∈ Node.children_ids np /\ (p, rp) ∈ nodes').
      { intros n0 Hk0 H0 Hp0.
        destruct (rc_parent _ _ _ Hs k r n0 p Hk0 H0 Hp0)
          as (rp & np & -> & Hnp & Hd & Hkid & Hr).
        destruct (Hfw rp np Hnp) as (np' & Hnp' & Hcore & Hsub).
        exists rp, np'. split; [reflexivity |]. split; [assumption |].
        split; [unfold core in Hcore; congruence |].
        split; [apply Hsub; assumption |].
        unfold nodes'. apply elem_of_app. left. exact Hr. }
      unfold nodes' in Hk. apply elem_of_app in Hk as [Hk|Hk].
      * destruct (rc_reg _ _ _ Hs k r Hk) as [_ Hr]. fold len in Hr.
        destruct (Hlk r n' H) as [[-> ->]|[(_ & _ & H0)|[-> ->]]].
        -- exact (Hold pn Hk Hpn Hp).
        -- exact (Hold n' Hk H0 Hp).
        -- lia.
      * apply list_elem_of_singleton in Hk as [= -> ->].
        assert (n' = cn) as -> by congruence.
        rewrite Hcn_par in Hp. injection Hp as <-.
        exists parent, pn'. split; [reflexivity |]. split; [assumption |].
        split; [exact Hty |].
        split; [unfold pn'; cbn; apply elem_of_app; right;
                apply list_elem_of_singleton; reflexivity |].
        unfold nodes'. apply elem_of_app. left. exact Hreg.
  - split; [exact Hfw |]. intros kr Hin. cbn [nodes]. unfold nodes'.
    apply elem_of_app. left. exact Hin.
  - intros ->. exists cn. split; [assumption |]. split; [assumption |].
    cbn [nodes]. unfold nodes'. apply elem_of_app. right.
    apply list_elem_of_singleton. rewrite Hcid. reflexivity.
Qed.

Lemma read_run (r : nat) (n : Node.t) (s : Run R) (q : EventQueue.t) :
  heap s !! r = Some n -> read R r s q = (Ok n, s, q).
Proof. intros H. unfold read, bind, get, deref. rewrite H. reflexivity. Qed.

Lemma safe_spawn_then {B} (name : string) (ty : Node.NodeType) (parent : nat)
    (P : Run R -> Prop) (k : nat -> M (Run R) B) (Q : B -> Run R -> Prop) :
  stable R P ->
  (forall child,
     safe' (fun s => P s /\ directory_ref R uuid4 parent s
                     /\ (ty = Node.DIRECTORY -> directory_ref R uuid4 child s))
       (k child) Q) ->
  safe' (fun s => P s /\ directory_ref R uuid4 parent s)
    (parent_node <- read R parent ;;
     child <- _make_node R uuid4 self name ty
                (Some (Node.node_id parent_node)) ;;
     attach R parent child ;;;
     k child) Q.
Proof.
  intros HP Hk s q Hs [HPs Hdir].
  pose proof Hdir as (pn & Hpn & Hty & Hreg).
  destruct (spawn_run name ty parent s q pn Hs Hpn Hty Hreg)
    as (s1 & s' & Hmk & Hat & Hs' & He & Hd).
  unfold bind. rewrite (read_run _ _ _ _ Hpn). cbv beta iota.
  rewrite Hmk. cbv beta iota. rewrite Hat. cbv beta iota.
  assert (Hpre : P s' /\ directory_ref R uuid4 parent s'
                 /\ (ty = Node.DIRECTORY ->
                     directory_ref R uuid4 (length (heap s)) s')).
  { split; [exact (HP _ _ HPs He) |].
    split; [exact (stable_directory_ref parent _ _ Hdir He) | exact Hd]. }
  specialize (Hk (length (heap s)) s' q Hs' Hpre).
  destruct (k (length (heap s)) s' q) as [[[b|e] s2] q2]; [| exact I].
  destruct Hk as (Hs2 & He2 & HQ).
  split; [assumption |]. split; [| assumption].
  exact (extends_trans _ _ _ He He2).
Qed.

Lemma safe_spawn (name : string) (ty : Node.NodeType) (parent : nat)
    (P : Run R -> Prop) :
  stable R P ->
  safe' (fun s => P s /\ directory_ref R uuid4 parent s)
    (parent_node <- read R parent ;;
     child <- _make_node R uuid4 self name ty
                (Some (Node.node_id parent_node)) ;;
     attach R parent child)
    (fun _ s => P s /\ directory_ref R uuid4 parent s).
Proof.
  intros HP s q Hs [HPs Hdir].
  pose proof Hdir as (pn & Hpn & Hty & Hreg).
  destruct (spawn_run name ty parent s q pn Hs Hpn Hty Hreg)
    as (s1 & s' & Hmk & Hat & Hs' & He & Hd).
  unfold bind. rewrite (read_run _ _ _ _ Hpn). cbv beta iota.
  rewrite Hmk. cbv beta iota. rewrite Hat.
  split; [assumption |]. split; [assumption |].
  split; [exact (HP _ _ HPs He) |].
  exact (stable_directory_ref parent _ _ Hdir He).
Qed.

(** *** Pass 1 *)

Lemma safe_build_tree (remaining : nat) :
  forall (parent : nat) (P : Run R -> Prop),
    stable R P ->
    safe' (fun s => P s /\ directory_ref R uuid4 parent s)
      (_build_tree R uuid4 self remaining parent)
      (fun _ s => P s /\ directory_ref R uuid4 parent s).
Proof.
  induction remaining as [|remaining IH]; intros parent P HP;
    cbn [_build_tree].
  - apply safe_ret. auto.
  - cbv zeta.
    assert (HI : stable R (fun s => P s /\ directory_ref R uuid4 parent s))
      by (apply stable_and; [assumption | apply stable_directory_ref]).
    eapply safe_bind; [exact (safe_keeps _ _ HI (safe_draw _)) |].
    intros g. cbv beta.
    eapply safe_bind; [exact (safe_keeps _ _ HI (safe_rounded_count _)) |].
    intros n_branches. cbv beta.
    eapply safe_bind; [exact (safe_keeps _ _ HI (safe_draw _)) |].
    intros name_pool. cbv beta.
    apply safe_for_each. intros i _.
    eapply safe_bind; [exact (safe_keeps _ _ HI (safe_pick _ _)) |].
    intros name0. cbv beta.
    eapply safe_bind;
      [exact (safe_keeps _ _ HI (safe_lookup_child_name _ _)) |].
    intros clash. cbv beta zeta.
    apply (safe_spawn_then _ Node.DIRECTORY parent P
             (fun child => _build_tree R uuid4 self remaining child)
             _ HP).
    intros child.
    eapply safe_weaken;
      [| | exact (IH child _ HI)].
    + intros s _ (H1 & H2 & H3). split; [split; assumption | auto].
    + intros _ s _ [H _]. exact H.
Qed.

(** *** Pass 2 *)

Lemma stable_forall {X} (xs : list X) (F : X -> Run R -> Prop) :
  (forall x, stable R (F x)) ->
  stable R (fun s => forall x, x ∈ xs -> F x s).
Proof. intros HF s s' H He x Hx. exact (HF x _ _ (H x Hx) He). Qed.

Lemma registered_ref (s : Run R) (r : nat) :
  consistent s -> r ∈ Py.values (nodes s) -> (uuid4 r, r) ∈ nodes s.
Proof.
  intros Hs Hin. unfold Py.values in Hin.
  apply list_elem_of_fmap in Hin as ([k r'] & Hr & Hin). simpl in Hr.
  subst r'. destruct (rc_reg _ _ _ Hs k r Hin) as [-> _]. exact Hin.
Qed.

Lemma leaf_dirs_are_directories (s : Run R) (leaf : nat) :
  consistent s -> leaf ∈ leaf_dirs R s -> directory_ref R uuid4 leaf s.
Proof.
  intros Hs Hin. unfold leaf_dirs in Hin.
  apply list_elem_of_filter in Hin as [Hleaf Hin].
  unfold is_leaf_dir, deref in Hleaf.
  destruct (heap s !! leaf) as [n|] eqn:E; [| discriminate].
  apply andb_prop in Hleaf as [Hd _].
  exists n. split; [exact E |].
  split; [exact (bool_decide_eq_true_1 _ Hd) |].
  apply registered_ref; assumption.
Qed.

Lemma safe_populate (P : Run R -> Prop) :
  stable R P -> safe' P (_populate R uuid4 self) (fun _ => P).
Proof.
  intros HP. unfold _populate. cbv zeta.
  apply (safe_bind _ _
           (fun leaves s =>
              P s /\ forall leaf, leaf ∈ leaves ->
                                  directory_ref R uuid4 leaf s)).
  { intros s q Hs HPs. cbn. split; [assumption |].
    split; [apply extends_refl |]. split; [assumption |].
    intros leaf Hin. apply leaf_dirs_are_directories; assumption. }
  intros leaves.
  set (I := fun s : Run R =>
              P s /\ forall leaf, leaf ∈ leaves ->
                                  directory_ref R uuid4 leaf s).
  assert (HI : stable R I).
  { apply stable_and; [assumption |].
    apply (stable_forall leaves (directory_ref R uuid4)).
    apply stable_directory_ref. }
  apply (safe_weaken I _ _ (fun _ => I)); [auto | |].
  { intros _ s _ [H _]. exact H. }
  apply safe_for_each. intros leaf Hleaf.
  eapply safe_bind; [exact (safe_keeps _ _ HI (safe_draw _)) |].
  intros g. cbv beta.
  eapply safe_bind; [exact (safe_keeps _ _ HI (safe_rounded_count _)) |].
  intros n_files. cbv beta.
  eapply safe_bind; [exact (safe_keeps _ _ HI (safe_draw _)) |].
  intros file_pool. cbv beta.
  eapply safe_bind; [exact (safe_keeps _ _ HI (safe_draw _)) |].
  intros debris_pool. cbv beta.
  apply safe_for_each. intros i _.
  eapply safe_bind; [exact (safe_keeps _ _ HI (safe_draw _)) |].
  intros u. cbv beta zeta.
  eapply safe_bind.
  { apply (safe_keeps _ _ HI).
    destruct (PrimFloat.ltb u _); apply safe_pick. }
  intros name. cbv beta.
  eapply safe_weaken; [| | exact (safe_spawn name _ leaf I HI)].
  - intros s _ HIs. split; [assumption |]. destruct HIs as [_ H]. auto.
  - intros _ s _ [H _]. exact H.
Qed.

(** *** Pass 3 *)

Lemma safe_update (r : nat) (f : Node.t -> Node.t) (P : Run R -> Prop) :
  (forall n, core (f n) = core n) ->
  (forall n, Node.children_ids (f n) = Node.children_ids n) ->
  (forall s n, P s -> heap s !! r = Some n -> node_ok n -> node_ok (f n)) ->
  safe' P (update R r f) (fun _ _ => True).
Proof.
  intros Hcore Hkids Hok s q Hs HPs. unfold update, modify.
  unfold set_heap. set (heap' := alter f r (heap s)).
  assert (Hlk : forall r' n',
            heap' !! r' = Some n' ->
            exists n, heap s !! r' = Some n /\ core n' = core n
                      /\ Node.children_ids n' = Node.children_ids n
                      /\ node_ok n').
  { intros r' n' H. unfold heap' in H. rewrite list_lookup_alter in H.
    destruct (decide (r = r')) as [->|Hne].
    - destruct (heap s !! r') as [n|] eqn:E; [| discriminate].
      injection H as <-. exists n. split; [reflexivity |].
      split; [apply Hcore |]. split; [apply Hkids |].
      apply (Hok s n HPs E). exact (rc_ok _ _ _ Hs r' n E).
    - exists n'. split; [assumption |]. split; [reflexivity |].
      split; [reflexivity |]. exact (rc_ok _ _ _ Hs r' n' H). }
  assert (Hfw : forall r' n,
            heap s !! r' = Some n ->
            exists n', heap' !! r' = Some n' /\ core n' = core n
                       /\ Node.children_ids n' = Node.children_ids n).
  { intros r' n H. unfold heap'. rewrite list_lookup_alter.
    destruct (decide (r = r')) as [->|Hne].
    - rewrite H. exists (f n). split; [reflexivity |]. auto.
    - exists n. auto. }
  assert (Hext : extends s (mkRun R (rng s) heap' (nodes s) (uuids s))).
  { split; [| auto]. intros r' n H.
    destruct (Hfw r' n H) as (n' & H' & Hc & Hk).
    exists n'. split; [assumption |]. split; [assumption |].
    rewrite Hk. auto. }
  split; [| split; [exact Hext | exact I]].
  constructor; cbn [rng heap nodes uuids].
  - unfold heap'. rewrite length_alter. exact (rc_uuids _ _ _ Hs).
  - intros r' n' H. destruct (Hlk r' n' H) as (n & Hn & Hc & _).
    rewrite <- (rc_ids _ _ _ Hs r' n Hn). unfold core in Hc. congruence.
  - intros r' n' H. destruct (Hlk r' n' H) as (n & _ & _ & _ & Hn'). exact Hn'.
  - intros r' n' H. destruct (Hlk r' n' H) as (n & Hn & Hc & _).
    rewrite <- (rc_root _ _ _ Hs r' n Hn). unfold core in Hc.
    assert (Node.parent_id n' = Node.parent_id n) as -> by congruence.
    reflexivity.
  - intros k r' H. unfold heap'. rewrite length_alter.
    exact (rc_reg _ _ _ Hs k r' H).
  - exact (rc_keys _ _ _ Hs).
  - intros r' n' c H Hc. destruct (Hlk r' n' H) as (n & Hn & _ & Hk & _).
    rewrite Hk in Hc.
    destruct (rc_child _ _ _ Hs r' n c Hn Hc) as (rc & nc & -> & Hnc & Hp & Hr).
    destruct (Hfw rc nc Hnc) as (nc' & Hnc' & Hc' & _).
    exists rc, nc'. split; [reflexivity |]. split; [assumption |].
    split; [unfold core in Hc'; congruence | assumption].
  - intros k r' n' p Hr H Hp. destruct (Hlk r' n' H) as (n & Hn & Hc & _).
    assert (Hp0 : Node.parent_id n = Some p)
      by (unfold core in Hc; congruence).
    destruct (rc_parent _ _ _ Hs k r' n p Hr Hn Hp0)
      as (rp & np & -> & Hnp & Hd & Hkid & Hrp).
    destruct (Hfw rp np Hnp) as (np' & Hnp' & Hc' & Hk).
    exists rp, np'. split; [reflexivity |]. split; [assumption |].
    split; [unfold core in Hc'; congruence |].
    split; [rewrite Hk; assumption | assumption].
Qed.

Lemma file_nodes_are_files (s : Run R) (r : nat) :
  r ∈ file_nodes R s -> file_ref R r s.
Proof.
  intros Hin. unfold file_nodes in Hin.
  apply list_elem_of_filter in Hin as [Hf _].
  unfold is_file_node, deref in Hf.
  destruct (heap s !! r) as [n|] eqn:E; [| discriminate].
  exists n. split; [exact E | exact (bool_decide_eq_true_1 _ Hf)].
Qed.

Lemma safe_seed_artifacts (P : Run R -> Prop) :
  stable R P -> safe' P (_seed_artifacts R self) (fun _ => P).
Proof.
  intros HP. unfold _seed_artifacts. cbv zeta.
  apply (safe_bind _ _
           (fun files s =>
              P s /\ forall r, r ∈ files -> file_ref R r s)).
  { intros s q Hs HPs. cbn. split; [assumption |].
    split; [apply extends_refl |]. split; [assumption |].
    intros r Hin. apply file_nodes_are_files; assumption. }
  intros files.
  set (I := fun s : Run R => P s /\ forall r, r ∈ files -> file_ref R r s).
  assert (HI : stable R I).
  { apply stable_and; [assumption |].
    apply (stable_forall files (file_ref R)). apply stable_file_ref. }
  apply (safe_weaken I _ _ (fun _ => I)); [auto | |].
  { intros _ s _ [H _]. exact H. }
  apply safe_for_each. intros [i node] Hin.
  apply elem_of_lookup_imap in Hin as (j & r & [= -> ->] & Hj).
  apply list_elem_of_lookup_2 in Hj.
  eapply safe_bind; [exact (safe_keeps _ _ HI (safe_draw _)) |].
  intros u. cbv beta.
  destruct (PrimFloat.ltb u _); [| apply safe_ret; auto].
  eapply safe_bind.
  - apply (safe_keeps_from _ _ HI).
    apply safe_update; [reflexivity | reflexivity |].
    intros s n [_ Hfiles] Hn (H1 & H2 & H3 & H4 & H5).
    destruct (Hfiles r Hj) as (n0 & Hn0 & Hfile).
    assert (n0 = n) as -> by congruence.
    split; [exact H1 |]. split; [exact H2 |]. split; [exact H3 |].
    split; [exact H4 |]. intros _. exact Hfile.
  - intros ?. cbv beta. apply (safe_keeps _ _ HI).
    apply safe_update; [reflexivity | reflexivity |].
    intros s n _ _ H. exact H.
Qed.

(** *** The root, and the registry handed over *)

Lemma root_run (q : EventQueue.t) :
  exists s0,
    consistent s0 /\ root_revealed R uuid4 s0
    /\ forall B (k : nat -> M (Run R) B),
         (root <- _make_node R uuid4 self "root" Node.DIRECTORY None ;;
          update R root (Node.set_visibility Node.REVEALED) ;;;
          root_node <- read R root ;;
          register R (Node.node_id root_node) root ;;;
          k root) (start R self) q
         = k 0 s0 q.
Proof.
  destruct (Random.uniform R (-0.03) 0.03 (Random.seed R (_seed self)))
    as [u g'] eqn:Eu.
  set (x := (SiteProfile.base_corruption (_profile self) + u)%float).
  set (rn := Node.mk "root" Node.DIRECTORY (uuid4 0) None []
               (Py.max 0.0 (Py.min 0.99 x)) Node.REVEALED None
               [("theme"%string, Py.VStr (SiteProfile.theme (_profile self)));
                ("site"%string, Py.VStr (SiteProfile.name (_profile self)))]).
  exists (mkRun R g' [rn] [(uuid4 0, 0)] 1).
  assert (Hone : forall r n, [rn] !! r = Some n -> r = 0 /\ n = rn).
  { intros [|r] n H; cbn in H; [| discriminate].
    injection H as <-. auto. }
  split; [| split].
  - constructor; cbn [rng heap nodes uuids].
    + reflexivity.
    + intros r n H. destruct (Hone r n H) as [-> ->]. reflexivity.
    + intros r n H. destruct (Hone r n H) as [-> ->].
      destruct (clamp_bounds 0 0.99 x eq_refl) as [Hlo Hhi].
      split; [exact Hlo |]. split; [exact Hhi |]. split; [reflexivity |].
      split; [intros Hne; contradiction | intros Hne; contradiction].
    + intros r n H. destruct (Hone r n H) as [-> ->]. cbn. tauto.
    + intros k r H. apply list_elem_of_singleton in H as [= -> ->].
      split; [reflexivity | cbn; lia].
    + apply NoDup_singleton.
    + intros r n c H Hc. destruct (Hone r n H) as [-> ->].
      cbn in Hc. apply elem_of_nil in Hc. contradiction.
    + intros k r n p _ H Hp. destruct (Hone r n H) as [-> ->]. discriminate.
  - exists rn. split; [reflexivity |]. split; [reflexivity |].
    split; [reflexivity |]. cbn. apply list_elem_of_singleton. reflexivity.
  - intros B k.
    cbv [bind _make_node draw fresh_uuid alloc update modify read get deref
         register ret raise start].
    cbn [set_rng set_uuids set_heap set_registry rng heap nodes uuids].
    rewrite Eu. reflexivity.
Qed.

Lemma registry_lookup (h : list Node.t) (d : list (string * nat)) :
  (forall k r, (k, r) ∈ d -> r < length h) ->
  let ns := omap (fun kr : string * nat => pair kr.1 <$> h !! kr.2) d in
  Py.keys ns = Py.keys d
  /\ forall k, Py.get ns k = Py.get d k ≫= (fun r => h !! r).
Proof.
  cbv zeta. induction d as [|[k' r'] d IH]; intros Hd.
  - split; [reflexivity | intros k; reflexivity].
  - destruct (lookup_lt_is_Some_2 h r') as [n Hn].
    { apply (Hd k'). apply list_elem_of_here. }
    destruct IH as [IHk IHg].
    { intros k r H. apply (Hd k). apply list_elem_of_further. exact H. }
    cbn [omap list_omap]. cbn [fst snd]. rewrite Hn.
    cbn [fmap option_fmap option_map].
    split.
    + unfold Py.keys in *. cbn [map fst]. f_equal. exact IHk.
    + intros k. cbn [Py.get].
      destruct (decide (k' = k)) as [->|Hne].
      * cbn. symmetry. exact Hn.
      * apply IHg.
Qed.

Lemma registry_get (s : Run R) (k : string) (n : Node.t) :
  consistent s ->
  (Py.get (registry R s) k = Some n
   <-> exists r, (k, r) ∈ nodes s /\ heap s !! r = Some n).
Proof.
  intros Hs.
  destruct (registry_lookup (heap s) (nodes s)) as [_ Hget].
  { intros k0 r H. exact (proj2 (rc_reg _ _ _ Hs k0 r H)). }
  cbv zeta in Hget. unfold registry, deref. rewrite Hget. split.
  - destruct (Py.get (nodes s) k) as [r|] eqn:E; [| discriminate].
    cbn. intros H. exists r. split; [| exact H].
    apply dict_get_elem_of. exact E.
  - intros (r & Hr & Hn).
    rewrite (dict_elem_of_get _ _ _ (rc_keys _ _ _ Hs) Hr). exact Hn.
Qed.

Lemma handed_over (s : Run R) (rn : Node.t) (fs : Filesystem.t) :
  consistent s -> root_revealed R uuid4 s -> heap s !! 0 = Some rn ->
  Filesystem.init rn (registry R s) = Ok fs ->
  well_formed_site fs.
Proof.
  intros Hs (n0 & Hn0 & Hvis & Hdir & Hreg) Hrn Hinit.
  assert (n0 = rn) as -> by congruence.
  unfold Filesystem.init in Hinit.
  destruct (negb (Node.is_directory rn)); [discriminate |].
  injection Hinit as <-.
  assert (Hid : Node.node_id rn = uuid4 0)
    by exact (rc_ids _ _ _ Hs 0 rn Hrn).
  unfold well_formed_site.
  cbn [Filesystem._nodes Filesystem._root_id Filesystem._cwd_id].
  split; [reflexivity |]. split; [| split].
  - destruct (registry_lookup (heap s) (nodes s)) as [Hkeys _].
    { intros k0 r H. exact (proj2 (rc_reg _ _ _ Hs k0 r H)). }
    cbv zeta in Hkeys. unfold registry, deref. rewrite Hkeys.
    exact (rc_keys _ _ _ Hs).
  - exists rn. split.
    + apply (registry_get s _ rn Hs). exists 0. rewrite Hid. auto.
    + split; [exact Hdir |]. split; [| exact Hvis].
      apply (rc_root _ _ _ Hs 0 rn Hrn). reflexivity.
  - intros k n Hget. apply (registry_get s k n Hs) in Hget as (r & Hr & Hn).
    destruct (rc_reg _ _ _ Hs k r Hr) as [-> Hlt].
    split; [exact (rc_ids _ _ _ Hs r n Hn) |].
    split; [exact (rc_ok _ _ _ Hs r n Hn) |].
    split; [| split].
    + intros Hnone. apply (rc_root _ _ _ Hs r n Hn) in Hnone as ->.
      symmetry. exact Hid.
    + intros c Hc.
      destruct (rc_child _ _ _ Hs r n c Hn Hc) as (rc & nc & -> & Hnc & Hp & Hrc).
      exists nc. split; [| exact Hp].
      apply (registry_get s _ nc Hs). exists rc. auto.
    + intros p Hp.
      destruct (rc_parent _ _ _ Hs _ r n p Hr Hn Hp)
        as (rp & np & -> & Hnp & Hd & Hkid & Hrp).
      exists np. split; [| auto].
      apply (registry_get s _ np Hs). exists rp. auto.
Qed.

Lemma safe_hand_over :
  safe' (root_revealed R uuid4)
    (root_node' <- read R 0 ;;
     s <- get ;;
     match Filesystem.init root_node' (registry R s) with
     | Ok fs => ret fs
     | Raise e => raise e
     end)
    (fun fs _ => well_formed_site fs).
Proof.
  intros s q Hs Hroot. pose proof Hroot as (rn & Hrn & _).
  unfold bind. rewrite (read_run _ _ _ _ Hrn). unfold get. cbv beta iota.
  destruct (Filesystem.init rn (registry R s)) as [fs|e] eqn:E; cbn;
    [| exact I].
  split; [assumption |]. split; [apply extends_refl |].
  exact (handed_over s rn fs Hs Hroot Hrn E).
Qed.

Lemma safe_passes (depth : nat) :
  safe' (root_revealed R uuid4)
    (_build_tree R uuid4 self depth 0 ;;;
     _populate R uuid4 self ;;;
     _seed_artifacts R self ;;;
     root_node' <- read R 0 ;;
     s <- get ;;
     match Filesystem.init root_node' (registry R s) with
     | Ok fs => ret fs
     | Raise e => raise e
     end)
    (fun fs _ => well_formed_site fs).
Proof.
  apply (safe_bind _ _ (fun _ => root_revealed R uuid4)).
  { eapply safe_weaken;
      [| | exact (safe_build_tree depth 0 _ stable_root_revealed)].
    - intros s _ H. split; [exact H |].
      destruct H as (n & Hn & _ & Hd & Hr). exists n. auto.
    - intros _ s _ [H _]. exact H. }
  intros ?. cbv beta.
  apply (safe_bind _ _ (fun _ => root_revealed R uuid4));
    [exact (safe_populate _ stable_root_revealed) |].
  intros ?. cbv beta.
  apply (safe_bind _ _ (fun _ => root_revealed R uuid4));
    [exact (safe_seed_artifacts _ stable_root_revealed) |].
  intros ?. cbv beta. exact safe_hand_over.
Qed.

End GeneratedTree.

(** X29.  Whenever the ids drawn are distinct from one another, the
    filesystem that [generate] returns holds a tree: the registry has one
    entry per node, under the node's own id; the root is a REVEALED
    directory without parent, the only node without, and the current
    directory; every child id listed by a node is registered and that
    child names the node as its parent; every parent id is that of a
    registered directory which lists the node; and every node has its
    corruption within [[0, 0.99]], is DETECTED if a directory other than
    the root and HIDDEN if a file or debris, has children only if a
    directory and an artifact only if a FILE. *)
Theorem generated_site_is_a_tree (R : Random.Impl) (uuid4 : nat -> string)
    (self : SiteGenerator.t) :
  Inj (=) (=) uuid4 ->
  match (SiteGenerator.generate R uuid4 self).1 with
  | Sys.Ok fs => well_formed_site fs
  | Sys.Raise _ => True
  end.
Proof.
  intros Hinj. unfold SiteGenerator.generate.
  destruct (root_run R uuid4 self Hinj EventQueue.init)
    as (s0 & Hs0 & Hroot & Hrun).
  unfold SiteGenerator.generate_run. rewrite Hrun.
  pose proof (safe_passes R uuid4 self Hinj
                (Z.to_nat (SiteProfile.max_depth (SiteGenerator._profile self)))
                s0 EventQueue.init Hs0 Hroot) as H.
  match goal with
  | H : match ?m with _ => _ end |- _ =>
      destruct m as [[[fs|e] s1] q1]
  end; [| exact I].
  destruct H as (_ & _ & H). exact H.
Qed.

(** The site of the sample corporate server. *)
Lemma generated_site_is_a_tree_witness :
  exists fs,
    (SiteGenerator.generate toy_random first_uuids
       (SiteGenerator.init SiteProfile.PROFILE_CORPORATE (Some 7%Z))).1
    = Sys.Ok fs
    /\ well_formed_site fs.
Proof.
  pose proof (generated_site_is_a_tree toy_random first_uuids
                (SiteGenerator.init SiteProfile.PROFILE_CORPORATE (Some 7%Z))
                first_uuids_inj) as H.
  destruct (SiteGenerator.generate toy_random first_uuids
              (SiteGenerator.init SiteProfile.PROFILE_CORPORATE (Some 7%Z))).1
    as [fs|e] eqn:E.
  - exists fs. split; [reflexivity | exact H].
  - vm_compute in E. discriminate E.
Defined.

(** ** DaemonSystem: [_distance] is the hop count *)

Section DistanceFacts.
Import DaemonSystem.
Context (ns : list (string * Node.t)) (a t : string).

Lemma visit_spec (d : Z) (nbrs : list string) :
  forall (visited : list string) (queue : list (string * Z))
         (res : option Z) (visited' : list string)
         (queue' : list (string * Z)),
    visit t d nbrs visited queue = (res, visited', queue') ->
    match res with
    | Some r => r = (d + 1)%Z /\ t ∈ nbrs
    | None =>
        (t ∉ nbrs)
        /\ exists new,
             visited' = visited ++ new
             /\ queue' = queue ++ map (fun y => (y, (d + 1)%Z)) new
             /\ (forall y, y ∈ new -> y ∈ nbrs /\ (y ∉ visited) /\ y <> t)
             /\ (forall y, y ∈ nbrs -> y ∈ visited')
    end.
Proof.
  induction nbrs as [|nid nbrs IH]; intros visited queue res visited' queue';
    cbn [visit].
  - intros [= <- <- <-]. split; [apply not_elem_of_nil |].
    exists []. rewrite !app_nil_r. split; [reflexivity |].
    split; [reflexivity |].
    split; intros y Hy; apply elem_of_nil in Hy; contradiction.
  - destruct (decide (nid = t)) as [->|Hne].
    { intros [= <- <- <-]. split; [reflexivity | apply list_elem_of_here]. }
    destruct (bool_decide (nid ∈ visited)) eqn:Eseen.
    + apply bool_decide_eq_true_1 in Eseen. intros H.
      specialize (IH _ _ _ _ _ H). destruct res as [r|].
      * destruct IH as [-> Hin]. split; [reflexivity |].
        apply list_elem_of_further. exact Hin.
      * destruct IH as (Hnot & new & -> & -> & Hnew & Hall).
        split.
        { intros Hin. apply elem_of_cons in Hin as [E|Hin];
            [apply Hne; symmetry; exact E | exact (Hnot Hin)]. }
        exists new. split; [reflexivity |]. split; [reflexivity |]. split.
        { intros y Hy. destruct (Hnew y Hy) as (H1 & H2 & H3).
          split; [apply list_elem_of_further; exact H1 | auto]. }
        intros y Hy. apply elem_of_cons in Hy as [->|Hy]; [| auto].
        apply elem_of_app. left. exact Eseen.
    + apply bool_decide_eq_false_1 in Eseen. intros H.
      specialize (IH _ _ _ _ _ H). destruct res as [r|].
      * destruct IH as [-> Hin]. split; [reflexivity |].
        apply list_elem_of_further. exact Hin.
      * destruct IH as (Hnot & new & -> & -> & Hnew & Hall).
        split.
        { intros Hin. apply elem_of_cons in Hin as [E|Hin];
            [apply Hne; symmetry; exact E | exact (Hnot Hin)]. }
        exists (nid :: new). rewrite <- !app_assoc. cbn [app map].
        split; [reflexivity |]. split; [reflexivity |]. split.
        { intros y Hy. apply elem_of_cons in Hy as [->|Hy].
          - split; [apply list_elem_of_here | auto].
          - destruct (Hnew y Hy) as (H1 & H2 & H3).
            split; [apply list_elem_of_further; exact H1 |].
            split; [| exact H3].
            intros Hv. apply H2. apply elem_of_app. left. exact Hv. }
        intros y Hy. apply elem_of_cons in Hy as [->|Hy].
        -- apply elem_of_app. right. apply list_elem_of_here.
        -- specialize (Hall y Hy). rewrite <- app_assoc in Hall. exact Hall.
Qed.

Lemma walk_zero (y : string) : walk ns a y 0 -> y = a.
Proof. intros H. inversion H. reflexivity. Qed.

(** With nothing left to expand, what can be reached has been seen. *)
Lemma searching_done (k : nat) (visited : list string) :
  searching ns a t k [] [] visited -> forall n, ~ walk ns a t n.
Proof.
  intros Hs n Hw.
  assert (Hall : forall y m, walk ns a y m -> y ∈ visited).
  { intros y m H. induction H as [|y z m H IH Hz].
    - apply (sr_near _ _ _ _ _ _ _ Hs a 0); [constructor | lia].
    - destruct (sr_seen _ _ _ _ _ _ _ Hs y IH) as [H0|[H0|H0]].
      + apply elem_of_nil in H0. contradiction.
      + apply elem_of_nil in H0. contradiction.
      + exact (H0 z Hz). }
  exact (sr_target _ _ _ _ _ _ _ Hs (Hall t n Hw)).
Qed.

(** With a level exhausted, the next one is the level. *)
Lemma searching_next_level (k : nat) (l1 visited : list string) :
  searching ns a t k [] l1 visited -> searching ns a t (S k) l1 [] visited.
Proof.
  intros Hs. constructor.
  - exact (sr_next _ _ _ _ _ _ _ Hs).
  - intros x Hx. apply elem_of_nil in Hx. contradiction.
  - intros y n Hw Hn. destruct (decide (n <= k)) as [Hle|Hgt].
    { exact (sr_near _ _ _ _ _ _ _ Hs y n Hw Hle). }
    assert (n = S k) as -> by lia.
    inversion Hw as [|z y' m Hz Hy]; subst.
    assert (Hzv : z ∈ visited)
      by exact (sr_near _ _ _ _ _ _ _ Hs z k Hz (le_n k)).
    destruct (sr_seen _ _ _ _ _ _ _ Hs z Hzv) as [H0|[H0|H0]].
    + apply elem_of_nil in H0. contradiction.
    + destruct (sr_next _ _ _ _ _ _ _ Hs z H0) as [_ Hmin].
      specialize (Hmin k Hz). lia.
    + exact (H0 y Hy).
  - intros y Hy. destruct (sr_seen _ _ _ _ _ _ _ Hs y Hy) as [H0|[H0|H0]].
    + apply elem_of_nil in H0. contradiction.
    + left. exact H0.
    + right. right. exact H0.
  - exact (sr_target _ _ _ _ _ _ _ Hs).
Qed.

Lemma queue_of_next_level (k : nat) (l1 : list string) :
  queue_of k [] l1 = queue_of (S k) l1 [].
Proof.
  unfold queue_of. cbn [map app]. rewrite app_nil_r.
  apply map_ext. intros x. f_equal. lia.
Qed.

(** The target among the neighbours of a node of the level. *)
Lemma searching_found (k : nat) (x : string) (l0 l1 visited : list string) :
  searching ns a t k (x :: l0) l1 visited ->
  t ∈ _neighbours ns x -> shortest ns a t (S k).
Proof.
  intros Hs Hin.
  destruct (sr_level _ _ _ _ _ _ _ Hs x (list_elem_of_here _ _)) as [Hw _].
  split; [exact (walk_hop ns a x t k Hw Hin) |].
  intros n Hn. destruct (decide (n <= k)) as [Hle|Hgt]; [| lia].
  exfalso. apply (sr_target _ _ _ _ _ _ _ Hs).
  exact (sr_near _ _ _ _ _ _ _ Hs t n Hn Hle).
Qed.

(** A node of the level expanded, the target not among its neighbours. *)
Lemma searching_expand (k : nat) (x : string) (l0 l1 visited new : list string) :
  searching ns a t k (x :: l0) l1 visited ->
  (forall y, y ∈ new -> y ∈ _neighbours ns x /\ (y ∉ visited) /\ y <> t) ->
  (forall y, y ∈ _neighbours ns x -> y ∈ visited ++ new) ->
  searching ns a t k l0 (l1 ++ new) (visited ++ new).
Proof.
  intros Hs Hnew Hall.
  destruct (sr_level _ _ _ _ _ _ _ Hs x (list_elem_of_here _ _)) as [Hwx _].
  constructor.
  - intros y Hy. apply (sr_level _ _ _ _ _ _ _ Hs).
    apply list_elem_of_further. exact Hy.
  - intros y Hy. apply elem_of_app in Hy as [Hy|Hy].
    + exact (sr_next _ _ _ _ _ _ _ Hs y Hy).
    + destruct (Hnew y Hy) as (Hnb & Hfresh & _).
      split; [exact (walk_hop ns a x y k Hwx Hnb) |].
      intros n Hn. destruct (decide (n <= k)) as [Hle|Hgt]; [| lia].
      exfalso. apply Hfresh.
      exact (sr_near _ _ _ _ _ _ _ Hs y n Hn Hle).
  - intros y n Hw Hn. apply elem_of_app. left.
    exact (sr_near _ _ _ _ _ _ _ Hs y n Hw Hn).
  - intros y Hy. apply elem_of_app in Hy as [Hy|Hy].
    + destruct (sr_seen _ _ _ _ _ _ _ Hs y Hy) as [H0|[H0|H0]].
      * apply elem_of_cons in H0 as [->|H0]; [| left; exact H0].
        right. right. exact Hall.
      * right. left. apply elem_of_app. left. exact H0.
      * right. right. intros z Hz. apply elem_of_app. left. exact (H0 z Hz).
    + right. left. apply elem_of_app. right. exact Hy.
  - intros Hin. apply elem_of_app in Hin as [Hin|Hin].
    + exact (sr_target _ _ _ _ _ _ _ Hs Hin).
    + destruct (Hnew t Hin) as (_ & _ & Hne). apply Hne. reflexivity.
Qed.

Lemma search_levels (fuel : nat) :
  forall (k : nat) (l0 l1 visited : list string) (r : Z),
    searching ns a t k l0 l1 visited ->
    search fuel ns t visited (queue_of k l0 l1) = Some r ->
    hop_count ns a t r.
Proof.
  induction fuel as [|fuel IH]; intros k l0 l1 visited r Hs Hr;
    [discriminate |].
  assert (Hstep : forall k x l0 l1,
            searching ns a t k (x :: l0) l1 visited ->
            search (S fuel) ns t visited (queue_of k (x :: l0) l1) = Some r ->
            hop_count ns a t r).
  { clear k l0 l1 Hs Hr. intros k x l0 l1 Hs Hr.
    unfold queue_of in Hr. cbn [map app search] in Hr.
    destruct (visit t (Z.of_nat k) (_neighbours ns x) visited
                (map (fun x => (x, Z.of_nat k)) l0
                 ++ map (fun x => (x, (Z.of_nat k + 1)%Z)) l1))
      as [[res visited'] queue'] eqn:Ev.
    pose proof (visit_spec _ _ _ _ _ _ _ Ev) as Hv.
    destruct res as [d|].
    - injection Hr as <-. destruct Hv as [-> Hin].
      left. exists (S k). split; [lia |].
      exact (searching_found k x l0 l1 visited Hs Hin).
    - destruct Hv as (_ & new & -> & -> & Hnew & Hall).
      apply (IH k l0 (l1 ++ new) (visited ++ new) r).
      + exact (searching_expand k x l0 l1 visited new Hs Hnew Hall).
      + unfold queue_of. rewrite map_app, app_assoc. exact Hr. }
  destruct l0 as [|x l0].
  - destruct l1 as [|x l1].
    + cbn in Hr. injection Hr as <-. right. split; [reflexivity |].
      exact (searching_done k visited Hs).
    + rewrite queue_of_next_level in Hr.
      apply (Hstep (S k) x l1 []); [| exact Hr].
      exact (searching_next_level k (x :: l1) visited Hs).
  - exact (Hstep k x l0 l1 Hs Hr).
Qed.

Lemma searching_start : a <> t -> searching ns a t 0 [a] [] [a].
Proof.
  intros Hne. constructor.
  - intros x Hx. apply list_elem_of_singleton in Hx as ->.
    split; [constructor | intros n _; lia].
  - intros x Hx. apply elem_of_nil in Hx. contradiction.
  - intros y n Hw Hn. assert (n = 0) as -> by lia.
    rewrite (walk_zero y Hw). apply list_elem_of_here.
  - intros y Hy. left. exact Hy.
  - intros Hin. apply list_elem_of_singleton in Hin. apply Hne. symmetry.
    exact Hin.
Qed.

End DistanceFacts.

(** X30.  [_distance] between two node ids is the least number of hops of
    a walk from the first to the second, a hop leading from a registered
    node to one of its [_neighbours] (its registered children and
    parent); it is 0 from an id to itself, and 999 when no walk leads from
    the first to the second. *)
Theorem distance_is_the_hop_count (ns : list (string * Node.t))
    (from_id to_id : string) :
  hop_count ns from_id to_id (DaemonSystem._distance ns from_id to_id).
Proof.
  unfold DaemonSystem._distance.
  destruct (decide (from_id = to_id)) as [->|Hne].
  - left. exists 0. split; [reflexivity |].
    split; [constructor | intros n _; lia].
  - destruct (search_fuel_enough ns from_id to_id) as [r Hr].
    rewrite Hr. cbn [default from_option id].
    exact (search_levels ns from_id to_id _ 0 [from_id] [] [from_id] r
             (searching_start ns from_id to_id Hne) Hr).
Qed.
